(** * kube-compose: volume initialisation, the in-memory file system and
      local image resolution

    A shallow embedding of the Go sources

    - [internal/pkg/fs]: [evalSymlinksHelper], [EvalSymlinks], [mkdirCommon],
      [mkdirCommonAll], [Mkdir], [MkdirAll];
    - [internal/pkg/docker]: [ResolveLocalImageAfterPull];
    - [internal/app/up]: [buildVolumeInitImageGetDockerfile], the
      [bindMountHostFileToTarHelper] methods, [bindMouseHostFileToTar],
      [buildVolumeInitImageGetBuildContext], [buildVolumeInitImage],
      [resolveBindVolumeHostPath];

    Go [string]s are Rocq [string]s (sequences of bytes), Go [int]s are [Z],
    [os.FileMode] is a [Z] bit set, pointers to nodes are indices into a
    store, and a Go [error] result is an [option error] ([None] is [nil]). *)

From Stdlib Require Import ZArith Lia List String Ascii Bool DecimalString.
From stdpp Require Import base list strings.
Import ListNotations.

Open Scope string_scope.

(** ** Go values shared by all packages *)

(** An argument of a formatting call: a string (printed with [%#v]) or a
    number (printed with [%x] or [%d]). *)
Inductive fmtArg : Type :=
  | ArgString (s : string)
  | ArgInt (z : Z).

(** The [error] values the modelled code creates or compares against.
    [fmt.Errorf] and [errors.Wrap] keep their format and arguments apart, so
    that what a message names can be read off. *)
Inductive error : Type :=
  | ErrNotExist                      (* os.ErrNotExist *)
  | ErrExist                         (* os.ErrExist *)
  | ENOTDIR                          (* syscall.ENOTDIR *)
  | errBadMode                       (* fs.errBadMode *)
  | errTooManyLinks                  (* fs.errTooManyLinks *)
  | EOF                              (* io.EOF *)
  | errorString (msg : string)       (* errors.New *)
  | Errorf (format : string) (args : list fmtArg)              (* fmt.Errorf *)
  | Wrap (cause : error) (format : string) (args : list fmtArg). (* errors.Wrap(err, fmt.Sprintf(..)) *)

(** The strings an error message is built from. *)
Definition errorNames (e : error) (s : string) : Prop :=
  match e with
  | Errorf _ args | Wrap _ _ args => In (ArgString s) args
  | _ => False
  end.

(** [os.IsNotExist]. *)
Definition IsNotExist (e : option error) : bool :=
  match e with
  | Some ErrNotExist => true
  | _ => false
  end.

Definition isNil (e : option error) : bool :=
  match e with None => true | Some _ => false end.

(** *** Strings *)

Definition nl : string := String "010"%char "".
Definition dquote : string := String "034"%char "".
Definition slash : ascii := "/"%char.
Definition backslash : ascii := "092"%char.

(** [s[k:]] and [s[:k]]; the callers keep [k] within [len(s)]. *)
Fixpoint sliceFrom (s : string) (k : nat) {struct k} : string :=
  match k, s with
  | O, _ => s
  | S k', String _ s' => sliceFrom s' k'
  | S _, EmptyString => EmptyString
  end.

Fixpoint sliceTo (s : string) (k : nat) {struct k} : string :=
  match k, s with
  | O, _ => EmptyString
  | S k', String c s' => String c (sliceTo s' k')
  | S _, EmptyString => EmptyString
  end.

(** [s[i:j]]. *)
Definition slice (s : string) (i j : nat) : string :=
  sliceTo (sliceFrom s i) (j - i).

(** [strings.IndexByte]: the index of the first [c] in [s], or [-1]. *)
Fixpoint IndexByte (s : string) (c : ascii) : Z :=
  match s with
  | EmptyString => (-1)%Z
  | String c' s' =>
      if Ascii.eqb c' c then 0%Z
      else let r := IndexByte s' c in
           if (r <? 0)%Z then (-1)%Z else (r + 1)%Z
  end.

(** No byte of [s] is [c]. *)
Definition lacks (c : ascii) (s : string) : Prop := IndexByte s c = (-1)%Z.

(** [strings.HasPrefix]. *)
Definition HasPrefix (s p : string) : bool := String.prefix p s.

(** [s[i]]. *)
Definition byteAt (s : string) (i : nat) : option ascii := String.get i s.

Definition len (s : string) : nat := String.length s.

(** [s[len(s)-1]], when [s] is not empty. *)
Fixpoint lastByte (s : string) : option ascii :=
  match s with
  | EmptyString => None
  | String c EmptyString => Some c
  | String _ s' => lastByte s'
  end.

(** The verb [%d] applied to an [int]. *)
Definition fmt_d (i : Z) : string := NilEmpty.string_of_int (Z.to_int i).

(** [strings.Split(s, sep)] for the one-byte separator: the pieces between
    separators, empty ones included. *)
Fixpoint splitAcc (sep : ascii) (s : string) (acc : string) : list string :=
  match s with
  | EmptyString => [acc]
  | String c s' =>
      if Ascii.eqb c sep then acc :: splitAcc sep s' ""
      else splitAcc sep s' (acc ++ String c "")
  end.

Definition Split (s : string) (sep : ascii) : list string := splitAcc sep s "".

(** [strings.Join]. *)
Definition Join (elems : list string) (sep : string) : string := String.concat sep elems.

(** The name components of a path: the non-empty pieces between slashes. *)
Definition nonEmpty (s : string) : bool := negb (String.eqb s "").

Definition components (p : string) : list string :=
  List.filter nonEmpty (Split p slash).

(** ** Package up: the generated Dockerfile *)

Module Dockerfile.

Definition preamble : string :=
  "ARG BASE_IMAGE" ++ nl ++ "FROM ${BASE_IMAGE}" ++ nl.

Definition entrypointOpen : string :=
  "ENTRYPOINT [" ++ dquote ++ "bash" ++ dquote ++ ", "
                 ++ dquote ++ "-c" ++ dquote ++ ", " ++ dquote.

Definition entrypointClose : string := dquote ++ "]" ++ nl.

(** Body of the first loop: one [COPY] line for index [i] (counted from 1). *)
Definition writeCopy (isDirSlice : list bool) (b : string) (i : nat) : string :=
  if nth (i - 1) isDirSlice false
  then b ++ ("COPY data" ++ fmt_d (Z.of_nat i) ++ "/ /app/data/vol"
               ++ fmt_d (Z.of_nat i) ++ "/" ++ nl)
  else b ++ ("COPY data" ++ fmt_d (Z.of_nat i) ++ " /app/data/vol"
               ++ fmt_d (Z.of_nat i) ++ nl).

(** Body of the second loop. *)
Definition writeCp (b : string) (i : nat) : string :=
  let b := if (1 <? i)%nat then b ++ " && " else b in
  b ++ ("cp -r /app/data/vol" ++ fmt_d (Z.of_nat i) ++ " /mnt/vol"
          ++ fmt_d (Z.of_nat i) ++ "/root").

(** [for i := 1; i <= len(isDirSlice); i++] is a fold over [seq 1 len]. *)
Definition buildVolumeInitImageGetDockerfile (isDirSlice : list bool) : string :=
  let b := preamble in
  let b := fold_left (writeCopy isDirSlice) (seq 1 (length isDirSlice)) b in
  let b := b ++ entrypointOpen in
  let b := fold_left writeCp (seq 1 (length isDirSlice)) b in
  b ++ entrypointClose.

(** The layout the specification describes, written independently of the
    loops: a [COPY] line per entry with the slash exactly for directories,
    and the [cp] commands joined with [" && "]. *)
Definition dirSuffix (isDir : bool) : string := if isDir then "/" else "".

Definition copyLine (i : nat) (isDir : bool) : string :=
  "COPY data" ++ fmt_d (Z.of_nat i) ++ dirSuffix isDir
    ++ " /app/data/vol" ++ fmt_d (Z.of_nat i) ++ dirSuffix isDir ++ nl.

Definition cpCommand (i : nat) : string :=
  "cp -r /app/data/vol" ++ fmt_d (Z.of_nat i) ++ " /mnt/vol"
    ++ fmt_d (Z.of_nat i) ++ "/root".

Definition copyLines (isDirSlice : list bool) : list string :=
  imap (fun k d => copyLine (S k) d) isDirSlice.

Definition dockerfileLayout (isDirSlice : list bool) : string :=
  preamble ++ String.concat "" (copyLines isDirSlice)
    ++ entrypointOpen
    ++ String.concat " && " (map cpCommand (seq 1 (length isDirSlice)))
    ++ entrypointClose.

(** The bytes the scenario of the specification lists. *)
Definition expectedTrueFalse : string :=
  "ARG BASE_IMAGE" ++ nl ++
  "FROM ${BASE_IMAGE}" ++ nl ++
  "COPY data1/ /app/data/vol1/" ++ nl ++
  "COPY data2 /app/data/vol2" ++ nl ++
  "ENTRYPOINT [" ++ dquote ++ "bash" ++ dquote ++ ", " ++ dquote ++ "-c" ++ dquote
     ++ ", " ++ dquote
     ++ "cp -r /app/data/vol1 /mnt/vol1/root && cp -r /app/data/vol2 /mnt/vol2/root"
     ++ dquote ++ "]" ++ nl.

End Dockerfile.

(** ** Package docker: resolving a pulled image *)

Module Docker.

(** [dockerTypes.ImageSummary], the fields the code reads. *)
Record ImageSummary : Type := {
  ID : string;
  RepoDigests : list string
}.

(** [dockerTypes.ImageListOptions] with its filter arguments. *)
Record ImageListOptions : Type := {
  All : bool;
  Filters : list (string * string)
}.

(** The interface [ImageLister]: the daemon's answer to one query. *)
Definition ImageLister : Type :=
  ImageListOptions -> list ImageSummary * option error.

(** The inner [range] loop: does [RepoDigests] hold [repoDigest]? *)
Fixpoint rangeRepoDigests (repoDigest : string) (repoDigests : list string) : bool :=
  match repoDigests with
  | [] => false
  | repoDigest2 :: rest =>
      if String.eqb repoDigest repoDigest2 then true
      else rangeRepoDigests repoDigest rest
  end.

(** The outer loop over [imageSummaries]; [Some] is the early [return]. *)
Fixpoint forImageSummaries (repoDigest : string) (imageSummaries : list ImageSummary)
  : option (string * string * option error) :=
  match imageSummaries with
  | [] => None
  | summary :: rest =>
      if rangeRepoDigests repoDigest (RepoDigests summary)
      then Some (ID summary, repoDigest, None)
      else forImageSummaries repoDigest rest
  end.

(** [familiarName] stands for [dockerRef.FamiliarName(named)]. *)
Definition ResolveLocalImageAfterPull (lister : ImageLister)
    (familiarName digest : string) : string * string * option error :=
  let filters := [("reference", familiarName)] in
  let '(imageSummaries, err) := lister {| All := false; Filters := filters |} in
  match err with
  | Some e => ("", "", Some e)
  | None =>
      let repoDigest := familiarName ++ "@" ++ digest in
      match forImageSummaries repoDigest imageSummaries with
      | Some r => r
      | None => ("", "", None)
      end
  end.

(** A daemon that lists one image. *)
Definition listerOne : ImageLister := fun _ =>
  ([ {| ID := "sha256:1"; RepoDigests := ["ubuntu@sha256:2"] |} ], None).

(** *** The digest pattern *)

Definition Sha256Prefix : string := "sha256:".
Definition Sha256BitLength : nat := 256.

Definition isHex (c : ascii) : bool :=
  let n := nat_of_ascii c in
  ((48 <=? n) && (n <=? 57) || (97 <=? n) && (n <=? 102)
   || (65 <=? n) && (n <=? 70))%nat.

Fixpoint allHex (k : nat) (s : string) : bool :=
  match k, s with
  | O, _ => true
  | S k', String c s' => isHex c && allHex k' s'
  | S _, EmptyString => false
  end.

(** Does a digest start at the head of [s]? *)
Definition digestAtHead (s : string) : bool :=
  HasPrefix s Sha256Prefix && allHex (Sha256BitLength / 4) (sliceFrom s (len Sha256Prefix)).

(** [docker.NewDigestRegexp] is not among the sources.  The code is
    modelled against the one method it calls: [FindStringIndex] gives the
    bounds of the leftmost match, if any. *)
Class DigestRegexp : Type := FindStringIndex : string -> option (nat * nat).

(** A match begins inside the string. *)
Definition matchesInside `{DigestRegexp} : Prop :=
  forall s lo hi, FindStringIndex s = Some (lo, hi) -> (lo < len s)%nat.

(** Modelled from the spec: the pattern is "sha256: followed by 64 hex
    characters". *)
Fixpoint findFrom (s : string) (pos : nat) : option (nat * nat) :=
  if digestAtHead s then Some (pos, (pos + (len Sha256Prefix + Sha256BitLength / 4))%nat)
  else match s with
       | EmptyString => None
       | String _ s' => findFrom s' (S pos)
       end.

Definition specDigestRegexp : DigestRegexp := fun s => findFrom s 0.

End Docker.

(** ** Package up: reading the image identifier off the build stream *)

Module Build.

(** [jsonmessage.JSONMessage]; only [Stream] is read. *)
Record JSONMessage : Type := { Stream : string }.

Record buildVolumeInitImageResult : Type := {
  isDirSlice : list bool;
  imageID : string
}.

Definition errNoImageID : error :=
  Errorf "could not parse image ID from docker build output stream" [].

(** The decoder over the response body: what each successive [Decode]
    yields.  Once the list is exhausted [Decode] returns [io.EOF]. *)
Definition Decoder : Type := list (error + JSONMessage).

Section Scan.
Context `{Docker.DigestRegexp}.

(** The [for] loop over the decoder.  [inl e] is [return nil, err]. *)
Fixpoint decodeLoop (decoder : Decoder) (r : buildVolumeInitImageResult)
  : error + buildVolumeInitImageResult :=
  match decoder with
  | [] => inr r                                   (* err == io.EOF: break *)
  | inl EOF :: _ => inr r
  | inl e :: _ => inl e
  | inr msg :: rest =>
      match Docker.FindStringIndex (Stream msg) with
      | Some (lo, _) =>
          let i := (Docker.Sha256BitLength / 4 + len Docker.Sha256Prefix)%nat in
          decodeLoop rest {| isDirSlice := isDirSlice r;
                             imageID := slice (Stream msg) lo (lo + i) |}
      | None => decodeLoop rest r
      end
  end.

(** [buildVolumeInitImage].  [context] is the outcome of
    [buildVolumeInitImageGetBuildContext]: its error, or the [isDirSlice] it
    left in [r]; [response] is the outcome of [dc.ImageBuild]: its error, or
    the body as a decoder. *)
Definition buildVolumeInitImage (context : error + list bool)
    (response : error + Decoder) : error + buildVolumeInitImageResult :=
  match context with
  | inl e => inl e
  | inr dirs =>
      let r := {| isDirSlice := dirs; imageID := "" |} in
      match response with
      | inl e => inl e
      | inr decoder =>
          match decodeLoop decoder r with
          | inl e => inl e
          | inr r' =>
              if String.eqb (imageID r') "" then inl errNoImageID else inr r'
          end
      end
  end.

(** The digest a message yields: the 71 bytes from the start of its
    leftmost match. *)
Definition matchOf (msg : JSONMessage) : option string :=
  match Docker.FindStringIndex (Stream msg) with
  | Some (lo, _) =>
      Some (slice (Stream msg) lo
              (lo + (Docker.Sha256BitLength / 4 + len Docker.Sha256Prefix)))
  | None => None
  end.

(** What the specification describes: the first match in the whole
    stream. *)
Fixpoint firstMatch (msgs : list JSONMessage) : option string :=
  match msgs with
  | [] => None
  | m :: rest => match matchOf m with Some d => Some d | None => firstMatch rest end
  end.

(** The match of the last message that has one. *)
Fixpoint lastMatch (msgs : list JSONMessage) : option string :=
  match msgs with
  | [] => None
  | m :: rest =>
      match lastMatch rest with
      | Some d => Some d
      | None => matchOf m
      end
  end.

End Scan.

Definition streamOf (msgs : list JSONMessage) : Decoder := map inr msgs.

Definition digestA : string :=
  "sha256:aaaaaaaaaaaaaaaaaaaaaaaaaaaaaaaaaaaaaaaaaaaaaaaaaaaaaaaaaaaaaaaa".
Definition digestB : string :=
  "sha256:bbbbbbbbbbbbbbbbbbbbbbbbbbbbbbbbbbbbbbbbbbbbbbbbbbbbbbbbbbbbbbbb".

Definition twoDigests : list JSONMessage :=
  [ {| Stream := digestA ++ nl |}; {| Stream := digestB ++ nl |} ].

End Build.

(** ** Executions

    A Go call either returns, panics (a failed type assertion, a nil
    dereference, the panic of [validateNameComp]) or, in the model only,
    exhausts the iteration budget of a loop. *)
Inductive Exec (A : Type) : Type :=
  | Ret (a : A)
  | Panic
  | OutOfFuel.
Arguments Ret {A} a.
Arguments Panic {A}.
Arguments OutOfFuel {A}.

#[global] Instance Exec_ret : MRet Exec := fun A a => Ret a.
#[global] Instance Exec_bind : MBind Exec := fun A B f m =>
  match m with
  | Ret a => f a
  | Panic => Panic
  | OutOfFuel => OutOfFuel
  end.

Definition terminates {A} (m : Exec A) : Prop := m <> OutOfFuel.

(** ** [os.FileMode] *)

Module FileMode.
Local Open Scope Z_scope.

Definition ModeDir        : Z := 2 ^ 31.
Definition ModeAppend     : Z := 2 ^ 30.
Definition ModeExclusive  : Z := 2 ^ 29.
Definition ModeTemporary  : Z := 2 ^ 28.
Definition ModeSymlink    : Z := 2 ^ 27.
Definition ModeDevice     : Z := 2 ^ 26.
Definition ModeNamedPipe  : Z := 2 ^ 25.
Definition ModeSocket     : Z := 2 ^ 24.
Definition ModeSetuid     : Z := 2 ^ 23.
Definition ModeSetgid     : Z := 2 ^ 22.
Definition ModeCharDevice : Z := 2 ^ 21.
Definition ModeSticky     : Z := 2 ^ 20.
Definition ModeIrregular  : Z := 2 ^ 19.

Definition ModeType : Z :=
  Z.lor ModeDir (Z.lor ModeSymlink (Z.lor ModeNamedPipe (Z.lor ModeSocket
    (Z.lor ModeDevice (Z.lor ModeCharDevice ModeIrregular))))).

Definition ModePerm : Z := 511.   (* 0777 *)

Definition IsDir (m : Z) : bool := negb (Z.land m ModeDir =? 0).
Definition IsRegular (m : Z) : bool := Z.land m ModeType =? 0.
Definition IsSymlink (m : Z) : bool := negb (Z.land m ModeSymlink =? 0).

(** A mode "contains a non-permission bit" when a bit outside [ModePerm] is
    set. *)
Definition hasNonPermBits (m : Z) : bool := negb (Z.land m (Z.lnot ModePerm) =? 0).

End FileMode.

(** ** Package fs: the in-memory file system *)

Module Fs.
Import FileMode.

(** [*node] is an index into the store of nodes. *)
Definition loc : Type := nat.

(** The field [extra interface{}]: [[]byte] for files and links, [[]*node]
    for directories. *)
Inductive extraT : Type :=
  | Bytes (b : string)
  | Entries (dir : list loc).

Record node : Type := {
  err : option error;
  extra : extraT;
  mode : Z;
  name : string
}.

Record InMemoryFileSystem : Type := {
  AbsError : option error;
  cwd : string;
  root : loc;
  store : list node
}.

(** [validateNameComp] is not among the sources; it returns nothing, so all
    it can do to a rejected component is panic.  The development is
    parametric in the components it accepts. *)
Class NameValidator : Type := nameCompOk : string -> bool.

Definition validateNameComp `{NameValidator} (nameComp : string) : Exec unit :=
  if nameCompOk nameComp then Ret tt else Panic.

(** Dereferencing a pointer. *)
Definition deref (fs : InMemoryFileSystem) (l : loc) : Exec node :=
  match store fs !! l with
  | Some nd => Ret nd
  | None => Panic
  end.

(** Modelled from the spec: [node.dirLookup] is not among the sources.  A
    directory holds "an ordered list of child nodes (insertion order
    preserved, linear lookup)"; the result is the first child carrying the
    name, or [nil]. *)
Fixpoint lookupIn (fs : InMemoryFileSystem) (dir : list loc) (nameComp : string)
  : Exec (option loc) :=
  match dir with
  | [] => Ret None
  | c :: rest =>
      childNode ← deref fs c;
      if String.eqb (name childNode) nameComp then Ret (Some c)
      else lookupIn fs rest nameComp
  end.

Definition dirLookup (fs : InMemoryFileSystem) (n : node) (nameComp : string)
  : Exec (option loc) :=
  match extra n with
  | Entries dir => lookupIn fs dir nameComp
  | Bytes _ => Panic
  end.

(** *** [evalSymlinksHelper] *)

Record evalSymlinksHelper : Type := {
  n : loc;
  links : Z;
  resolved : string;
  nameRem : string
}.

Definition getNameComp (h : evalSymlinksHelper) (slashPos : Z) : string :=
  if (slashPos <? 0)%Z then nameRem h
  else sliceTo (nameRem h) (Z.to_nat slashPos).

Definition updateNameRemFromSlashPos (h : evalSymlinksHelper) (slashPos : Z)
  : evalSymlinksHelper :=
  if (slashPos <? 0)%Z
  then {| n := n h; links := links h; resolved := resolved h; nameRem := "" |}
  else {| n := n h; links := links h; resolved := resolved h;
          nameRem := sliceFrom (nameRem h) (Z.to_nat (slashPos + 1)) |}.

(** Is the link target absolute ([len(target) > 0 && target[0] == '/'])? *)
Definition targetIsAbs (target : string) : bool :=
  match target with
  | String c _ => Ascii.eqb c slash
  | EmptyString => false
  end.

Definition updateFromChildN (fs : InMemoryFileSystem) (h : evalSymlinksHelper)
    (childN : loc) (nameComp : string) : Exec (evalSymlinksHelper * option error) :=
  child ← deref fs childN;
  if negb (Z.land (mode child) ModeSymlink =? 0)%Z then
    let h := {| n := n h; links := (links h + 1)%Z;
                resolved := resolved h; nameRem := nameRem h |} in
    if (255 <? links h)%Z then Ret (h, Some errTooManyLinks)
    else
      match extra child with
      | Entries _ => Panic
      | Bytes target =>
          let '(h, j) :=
            if targetIsAbs target
            then ({| n := root fs; links := links h;
                     resolved := "/"; nameRem := nameRem h |}, 1%nat)
            else (h, 0%nat) in
          if negb (String.eqb (nameRem h) "")
          then Ret ({| n := n h; links := links h; resolved := resolved h;
                       nameRem := sliceFrom target j ++ "/" ++ nameRem h |}, None)
          else Ret ({| n := n h; links := links h; resolved := resolved h;
                       nameRem := sliceFrom target j |}, None)
      end
  else
    Ret ({| n := childN; links := links h;
            resolved := resolved h ++ "/" ++ nameComp;
            nameRem := nameRem h |}, None).

(** One pass through the body of the [for] loop of [run]: [inl h'] goes on
    to the next iteration, [inr (h', err)] is [return err]. *)
Definition runBody `{NameValidator} (fs : InMemoryFileSystem) (h : evalSymlinksHelper)
  : Exec (evalSymlinksHelper + evalSymlinksHelper * option error) :=
  let slashPos := IndexByte (nameRem h) slash in
  let nameComp := getNameComp h slashPos in
  if negb (String.eqb nameComp "") then
    _ ← validateNameComp nameComp;
    hn ← deref fs (n h);
    if (Z.land (mode hn) ModeDir =? 0)%Z then Ret (inr (h, Some ENOTDIR))
    else
      childN ← dirLookup fs hn nameComp;
      match childN with
      | None => Ret (inr (h, Some ErrNotExist))
      | Some childN =>
          child ← deref fs childN;
          match err child with
          | Some e => Ret (inr (h, Some e))
          | None =>
              let h := updateNameRemFromSlashPos h slashPos in
              '(h, e) ← updateFromChildN fs h childN nameComp;
              match e with
              | Some e => Ret (inr (h, Some e))
              | None => Ret (inl h)
              end
          end
      end
  else Ret (inl (updateNameRemFromSlashPos h slashPos)).

(** [run]: the loop, with a budget of iterations. *)
Fixpoint run `{NameValidator} (fuel : nat) (fs : InMemoryFileSystem)
    (h : evalSymlinksHelper) : Exec (evalSymlinksHelper * option error) :=
  if String.eqb (nameRem h) "" then Ret (h, None)
  else match fuel with
       | O => OutOfFuel
       | S fuel' =>
           r ← runBody fs h;
           match r with
           | inl h' => run fuel' fs h'
           | inr out => Ret out
           end
       end.

(** The longest link target in the store, and with it a number of
    iterations no walk of [nameRem] exceeds. *)
Definition targetLen (nd : node) : nat :=
  match extra nd with
  | Bytes b => len b
  | Entries _ => 0
  end.

Definition maxTarget (fs : InMemoryFileSystem) : nat :=
  fold_right (fun nd m => Nat.max (targetLen nd) m) 0%nat (store fs).

Definition walkBudget (fs : InMemoryFileSystem) (nameRem : string) : nat :=
  256 * (maxTarget fs + 2) + len nameRem.

(** Modelled from the spec: [find(name, resolveLastSymlink, allowNotExist)]
    is not among the sources.  It walks the components of [name] like [run]
    does ("lookup of a name component through a non-directory fails with
    not-a-directory", a node's seeded error fails the walk, at most 255
    links are followed); the final component is followed only when
    [resolveLastSymlink] ("Lstat: no symlink following at the final
    component").  It returns the node reached and the unconsumed rest of the
    name; for a missing component and [allowNotExist] that is the deepest
    node found, the rest of the name from the missing component on, and
    [os.ErrNotExist]. *)
Fixpoint findLoop `{NameValidator} (fuel : nat) (fs : InMemoryFileSystem)
    (resolveLastSymlink allowNotExist : bool)
    (n : loc) (links : Z) (nameRem : string)
  : Exec (option loc * string * option error) :=
  if String.eqb nameRem "" then Ret (Some n, "", None)
  else match fuel with
  | O => OutOfFuel
  | S fuel' =>
    let slashPos := IndexByte nameRem slash in
    let nameComp := if (slashPos <? 0)%Z then nameRem
                    else sliceTo nameRem (Z.to_nat slashPos) in
    let rest := if (slashPos <? 0)%Z then ""
                else sliceFrom nameRem (Z.to_nat (slashPos + 1)) in
    if String.eqb nameComp ""
    then findLoop fuel' fs resolveLastSymlink allowNotExist n links rest
    else
      _ ← validateNameComp nameComp;
      hn ← deref fs n;
      if (Z.land (mode hn) ModeDir =? 0)%Z then Ret (None, "", Some ENOTDIR)
      else
        childN ← dirLookup fs hn nameComp;
        match childN with
        | None =>
            if allowNotExist then Ret (Some n, nameRem, Some ErrNotExist)
            else Ret (None, "", Some ErrNotExist)
        | Some childN =>
            child ← deref fs childN;
            match err child with
            | Some e => Ret (None, "", Some e)
            | None =>
                if negb (Z.land (mode child) ModeSymlink =? 0)%Z
                   && (resolveLastSymlink || negb (String.eqb rest ""))
                then
                  if (255 <? links + 1)%Z then Ret (None, "", Some errTooManyLinks)
                  else
                    match extra child with
                    | Entries _ => Panic
                    | Bytes target =>
                        let j := if targetIsAbs target then 1%nat else 0%nat in
                        let n' := if targetIsAbs target then root fs else n in
                        let nameRem' :=
                          if negb (String.eqb rest "")
                          then sliceFrom target j ++ "/" ++ rest
                          else sliceFrom target j in
                        findLoop fuel' fs resolveLastSymlink allowNotExist
                                 n' (links + 1)%Z nameRem'
                    end
                else findLoop fuel' fs resolveLastSymlink allowNotExist
                              childN links rest
            end
        end
  end.

(** Where a walk of [name] starts: the root for an absolute name, the
    directory named by [cwd] otherwise. *)
Definition isAbs (name : string) : bool :=
  match name with
  | String c _ => Ascii.eqb c slash
  | EmptyString => false
  end.

Definition findFromRoot `{NameValidator} (fs : InMemoryFileSystem)
    (resolveLastSymlink allowNotExist : bool) (name : string)
  : Exec (option loc * string * option error) :=
  rootN ← deref fs (root fs);
  match err rootN with
  | Some e => Ret (None, "", Some e)
  | None => findLoop (S (walkBudget fs name)) fs resolveLastSymlink allowNotExist
                     (root fs) 0%Z name
  end.

Definition find `{NameValidator} (fs : InMemoryFileSystem) (name : string)
    (resolveLastSymlink allowNotExist : bool)
  : Exec (option loc * string * option error) :=
  if isAbs name then findFromRoot fs resolveLastSymlink allowNotExist (sliceFrom name 1)
  else
    '(cwdN, _, e) ← findFromRoot fs true false (cwd fs);
    match cwdN, e with
    | Some cwdN, None =>
        findLoop (S (walkBudget fs name)) fs resolveLastSymlink allowNotExist
                 cwdN 0%Z name
    | _, Some e => Ret (None, "", Some e)
    | None, None => Panic
    end.

(** [EvalSymlinks].  The loop gets [walkBudget] iterations, which it never
    exhausts (see [run_budget_suffices]). *)
Definition EvalSymlinks `{NameValidator} (fs : InMemoryFileSystem) (path : string)
  : Exec (string * option error) :=
  if isAbs path then
    rootN ← deref fs (root fs);
    match err rootN with
    | Some e => Ret ("", Some e)
    | None =>
        let h := {| n := root fs; links := 0; resolved := "/";
                    nameRem := sliceFrom path 1 |} in
        '(h, e) ← run (S (walkBudget fs (nameRem h))) fs h;
        Ret (resolved h, e)
    end
  else
    '(hn, _, e) ← find fs (cwd fs) false true;
    match e with
    | Some e => Ret ("", Some e)
    | None =>
        match hn with
        | None => Panic
        | Some hn =>
            let h := {| n := hn; links := 0; resolved := ""; nameRem := path |} in
            '(h, e) ← run (S (walkBudget fs (nameRem h))) fs h;
            Ret (resolved h, e)
        end
    end.

(** *** Creating directories *)

(** Modelled from the spec: [newDirNode(perm, name)] and [node.dirAppend]
    are not among the sources.  A new directory node has the directory bit,
    the permissions asked for and no children; it is appended to the
    children of its parent ("insertion order preserved"). *)
Definition newDirNode (perm : Z) (nameComp : string) : node :=
  {| err := None; extra := Entries []; mode := Z.lor ModeDir perm; name := nameComp |}.

(** Allocates [child] and appends it to the children of [n]. *)
Definition dirAppend (fs : InMemoryFileSystem) (n : loc) (child : node)
  : Exec (InMemoryFileSystem * loc) :=
  parent ← deref fs n;
  match extra parent with
  | Bytes _ => Panic
  | Entries dir =>
      let childN := length (store fs) in
      let parent' := {| err := err parent; extra := Entries (dir ++ [childN]);
                        mode := mode parent; name := name parent |} in
      Ret ({| AbsError := AbsError fs; cwd := cwd fs; root := root fs;
              store := <[n := parent']> (store fs) ++ [child] |}, childN)
  end.

Fixpoint mkdirCommonAllLoop `{NameValidator} (fuel : nat) (fs : InMemoryFileSystem)
    (n : loc) (nameRem : string) (perm : Z) : Exec InMemoryFileSystem :=
  if String.eqb nameRem "" then Ret fs
  else match fuel with
  | O => OutOfFuel
  | S fuel' =>
      let slashPos := IndexByte nameRem slash in
      let nameComp := if (0 <=? slashPos)%Z
                      then sliceTo nameRem (Z.to_nat slashPos) else nameRem in
      '(fs, n) ←
        (if negb (String.eqb nameComp "") then
           _ ← validateNameComp nameComp;
           dirAppend fs n (newDirNode perm nameComp)
         else Ret (fs, n));
      let nameRem := if (slashPos <? 0)%Z then ""
                     else sliceFrom nameRem (Z.to_nat (slashPos + 1)) in
      mkdirCommonAllLoop fuel' fs n nameRem perm
  end.

Definition mkdirCommonAll `{NameValidator} (fs : InMemoryFileSystem)
    (n : loc) (nameRem : string) (perm : Z) : Exec InMemoryFileSystem :=
  mkdirCommonAllLoop (len nameRem) fs n nameRem perm.

Definition mkdirCommon `{NameValidator} (fs : InMemoryFileSystem)
    (name : string) (perm : Z) (all : bool) : Exec (InMemoryFileSystem * option error) :=
  if negb (Z.land perm ModeType =? 0)%Z then Ret (fs, Some errBadMode)
  else
    '(n, nameRem, e) ← find fs name false true;
    if negb (isNil e) && negb (IsNotExist e) then Ret (fs, e)
    else
      if negb all then
        let slashPos := IndexByte nameRem slash in
        if (0 <=? slashPos)%Z then Ret (fs, Some ErrNotExist)
        else if String.eqb nameRem "" then Ret (fs, Some ErrExist)
        else
          match n with
          | None => Panic
          | Some n =>
              '(fs, _) ← dirAppend fs n (newDirNode perm nameRem);
              Ret (fs, None)
          end
      else
        match n with
        | None => Panic
        | Some n =>
            nd ← deref fs n;
            if negb (IsDir (mode nd)) then Ret (fs, Some ENOTDIR)
            else
              fs ← mkdirCommonAll fs n nameRem perm;
              Ret (fs, None)
        end.

Definition Mkdir `{NameValidator} (fs : InMemoryFileSystem) (name : string) (perm : Z)
  : Exec (InMemoryFileSystem * option error) :=
  mkdirCommon fs name perm false.

Definition MkdirAll `{NameValidator} (fs : InMemoryFileSystem) (name : string) (perm : Z)
  : Exec (InMemoryFileSystem * option error) :=
  mkdirCommon fs name perm true.

(** *** Well-formed stores

    The nodes the file system builds: a node with the link bit holds bytes,
    a node with the directory bit holds children, and every pointer (the
    root, the children) points into the store. *)
Definition wfNode (fs : InMemoryFileSystem) (nd : node) : bool :=
  (if negb (Z.land (mode nd) ModeSymlink =? 0)%Z
   then match extra nd with Bytes _ => true | Entries _ => false end
   else true)
  && (if negb (Z.land (mode nd) ModeDir =? 0)%Z
      then match extra nd with
           | Entries dir => forallb (fun c => (c <? length (store fs))%nat) dir
           | Bytes _ => false
           end
      else true).

Definition wfStore (fs : InMemoryFileSystem) : bool :=
  (root fs <? length (store fs))%nat && forallb (wfNode fs) (store fs).

(** *** Paths without links

    One step of a plain walk: from the directory [l] to its child named [c],
    which carries no seeded error and is not a symbolic link. *)
Definition stepPlain (fs : InMemoryFileSystem) (l : loc) (c : string) : option loc :=
  match deref fs l with
  | Ret nd =>
      if IsDir (mode nd) then
        match dirLookup fs nd c with
        | Ret (Some childN) =>
            match deref fs childN with
            | Ret child =>
                if IsSymlink (mode child) then None
                else match err child with
                     | None => Some childN
                     | Some _ => None
                     end
            | _ => None
            end
        | _ => None
        end
      else None
  | _ => None
  end.

(** Every component of [comps] in turn resolves, from [l] on, to a node
    that is not a symbolic link. *)
Fixpoint walkPlain (fs : InMemoryFileSystem) (l : loc) (comps : list string)
  : option loc :=
  match comps with
  | [] => Some l
  | c :: rest =>
      match stepPlain fs l c with
      | Some l' => walkPlain fs l' rest
      | None => None
      end
  end.

(** [resolved] starts at the root when it is ["/"] or begins with two
    slashes; otherwise its components are relative to the directory the walk
    began in. *)
Definition rootAnchored (r : string) : bool :=
  String.eqb r "/" || HasPrefix r "//".

(** The same walk, ending in a directory: every component exists as a
    directory. *)
Definition isDirAt (fs : InMemoryFileSystem) (l : loc) : bool :=
  match deref fs l with
  | Ret nd => IsDir (mode nd)
  | _ => false
  end.

Definition walkDirs (fs : InMemoryFileSystem) (l : loc) (comps : list string)
  : option loc :=
  match walkPlain fs l comps with
  | Some l' => if isDirAt fs l' then Some l' else None
  | None => None
  end.

(** The child of the directory [l] named [c], when it exists, carries no
    seeded error and is neither a directory nor a symbolic link. *)
Definition plainFileAt (fs : InMemoryFileSystem) (l : loc) (c : string) : option loc :=
  match deref fs l with
  | Ret nd =>
      if IsDir (mode nd) then
        match dirLookup fs nd c with
        | Ret (Some childN) =>
            match deref fs childN with
            | Ret child =>
                if IsSymlink (mode child) || IsDir (mode child) then None
                else match err child with
                     | None => Some childN
                     | Some _ => None
                     end
            | _ => None
            end
        | _ => None
        end
      else None
  | _ => None
  end.

(** The node a walk of [name] starts from: the root (which must carry no
    seeded error) for an absolute name, the directory [cwd] names
    otherwise. *)
Definition walkStart `{NameValidator} (fs : InMemoryFileSystem) (name : string)
  : option loc :=
  if isAbs name then
    match deref fs (root fs) with
    | Ret rootN => match err rootN with
                   | None => Some (root fs)
                   | Some _ => None
                   end
    | _ => None
    end
  else
    match findFromRoot fs true false (cwd fs) with
    | Ret (Some cwdN, _, None) => Some cwdN
    | _ => None
    end.

(** Where the components of [resolved] are counted from, [cwdN] being the
    directory a relative walk began in. *)
Definition anchor (fs : InMemoryFileSystem) (cwdN : loc) (r : string) : loc :=
  if rootAnchored r then root fs else cwdN.

(** The invariant of the loop of [run]: the plain walk of [resolved] ends
    at [n]. *)
Definition tracked (fs : InMemoryFileSystem) (cwdN : loc) (h : evalSymlinksHelper) : Prop :=
  walkPlain fs (anchor fs cwdN (resolved h)) (components (resolved h)) = Some (n h).

(** Components [validateNameComp] lets through. *)
Definition allOk `{NameValidator} (comps : list string) : Prop :=
  Forall (fun c => nameCompOk c = true) comps.

(** The first component of a non-empty name and the rest, as the loops cut
    them. *)
Definition headComp (s : string) : string :=
  if (IndexByte s slash <? 0)%Z then s else sliceTo s (Z.to_nat (IndexByte s slash)).
Definition tailName (s : string) : string :=
  if (IndexByte s slash <? 0)%Z then ""
  else sliceFrom s (Z.to_nat (IndexByte s slash + 1)).

(** The name [find] walks from [walkStart]. *)
Definition walkName (name : string) : string :=
  if isAbs name then sliceFrom name 1 else name.

(** An execution that returns a value satisfying [P], or panics because
    [validateNameComp] rejects a component. *)
Definition returnsOrRejects `{NameValidator} {A : Type} (m : Exec A) (P : A -> Prop)
  : Prop :=
  (exists a, m = Ret a /\ P a) \/ (m = Panic /\ exists c, nameCompOk c = false).

(** [resolved] after the components [comps] were appended to [r], each
    behind a slash. *)
Definition appendComps (r : string) (comps : list string) : string :=
  fold_left (fun r c => r ++ "/" ++ c) comps r.

(** Why the walk cannot enter [c] from [l]: [l] is not a directory, it holds
    no child named [c], or the child carries a seeded error. *)
Definition stepError (fs : InMemoryFileSystem) (l : loc) (c : string) : option error :=
  match deref fs l with
  | Ret nd =>
      if (Z.land (mode nd) ModeDir =? 0)%Z then Some ENOTDIR
      else match dirLookup fs nd c with
           | Ret None => Some ErrNotExist
           | Ret (Some childN) =>
               match deref fs childN with
               | Ret child => err child
               | _ => None
               end
           | _ => None
           end
  | _ => None
  end.

(** The node [EvalSymlinks] starts from, and what [resolved] is there. *)
Definition evalStart `{NameValidator} (fs : InMemoryFileSystem) (path : string)
  : option loc :=
  if isAbs path then
    match deref fs (root fs) with
    | Ret rootN => match err rootN with
                   | None => Some (root fs)
                   | Some _ => None
                   end
    | _ => None
    end
  else
    match find fs (cwd fs) false true with
    | Ret (Some hn, _, None) => Some hn
    | _ => None
    end.

Definition evalBase (path : string) : string := if isAbs path then "/" else "".

(** A component as [run] appends it to [resolved]: not empty, without a
    slash, and let through by [validateNameComp]. *)
Definition okComp `{NameValidator} (c : string) : Prop :=
  c <> "" /\ lacks slash c /\ nameCompOk c = true.

(** [resolved] of a walk begun at the root: a slash, and behind it
    components [run] appended. *)
Definition shaped `{NameValidator} (h : evalSymlinksHelper) : Prop :=
  exists cs, resolved h = appendComps "/" cs /\ Forall okComp cs.

(** [c] names, in the directory [m], a symbolic link with target [target]
    that carries no seeded error. *)
Definition linkAt (fs : InMemoryFileSystem) (m : loc) (c target : string) : Prop :=
  exists nd l child,
    deref fs m = Ret nd /\ (Z.land (mode nd) ModeDir =? 0)%Z = false
    /\ dirLookup fs nd c = Ret (Some l) /\ deref fs l = Ret child
    /\ err child = None /\ IsSymlink (mode child) = true
    /\ extra child = Bytes target.

(** [c] names, in the directory [m], a symbolic link to [c] itself. *)
Definition selfLink (fs : InMemoryFileSystem) (m : loc) (c : string) : Prop :=
  exists nd l child,
    deref fs m = Ret nd /\ (Z.land (mode nd) ModeDir =? 0)%Z = false
    /\ dirLookup fs nd c = Ret (Some l) /\ deref fs l = Ret child
    /\ err child = None /\ IsSymlink (mode child) = true
    /\ extra child = Bytes c.

(** The directory [m] holds no child named [c]. *)
Definition lacksChild (fs : InMemoryFileSystem) (m : loc) (c : string) : Prop :=
  exists nd, deref fs m = Ret nd /\ (Z.land (mode nd) ModeDir =? 0)%Z = false
             /\ dirLookup fs nd c = Ret None.

(** *** What creating directories preserves

    A node keeps its error, mode and name, a file or link its bytes, and a
    directory its children, to which more may have been appended. *)
Definition sameHead (nd nd' : node) : Prop :=
  err nd' = err nd /\ mode nd' = mode nd /\ name nd' = name nd
  /\ match extra nd, extra nd' with
     | Bytes b, Bytes b' => b' = b
     | Entries dir, Entries dir' => exists more, dir' = (dir ++ more)%list
     | _, _ => False
     end.

Definition extends (fs fs' : InMemoryFileSystem) : Prop :=
  AbsError fs' = AbsError fs /\ cwd fs' = cwd fs /\ root fs' = root fs
  /\ (length (store fs) <= length (store fs'))%nat
  /\ forall (l : loc) nd, store fs !! l = Some nd ->
       exists nd', store fs' !! l = Some nd' /\ sameHead nd nd'.

(** The measure that every iteration of the walks decreases. *)
Definition mu (fs : InMemoryFileSystem) (links : Z) (nameRem : string) : nat :=
  (256 - Z.to_nat links) * (maxTarget fs + 2) + len nameRem.

End Fs.

(** ** [path/filepath] *)

(** The functions of [path/filepath] the code calls.  They belong to the Go
    standard library; the code is modelled against this interface. *)
Module filepath.
Class Ops : Type := {
  Separator : ascii;
  VolumeName : string -> string;
  ToSlash : string -> string;
  Clean : string -> string;
  Abs : string -> Exec (error + string);
  Dir : string -> string;
  JoinPath : string -> string -> string;      (* filepath.Join(a, b) *)
  Rel : string -> string -> string * option error
}.
End filepath.

Module Unix.

(** [filepath.Clean] on a slash-separated path: drop empty and [.]
    components, resolve [..] against the component before it, drop [..] at
    the root; the empty result is [.]. *)
Fixpoint cleanComps (rooted : bool) (comps : list string) (out : list string) : list string :=
  match comps with
  | [] => rev out
  | c :: rest =>
      if String.eqb c "." then cleanComps rooted rest out
      else if String.eqb c ".." then
        match out with
        | top :: out' =>
            if String.eqb top ".." then cleanComps rooted rest (c :: out)
            else cleanComps rooted rest out'
        | [] => if rooted then cleanComps rooted rest []
                else cleanComps rooted rest [c]
        end
      else cleanComps rooted rest (c :: out)
  end.

Definition isRooted (p : string) : bool :=
  match p with
  | String c _ => Ascii.eqb c slash
  | EmptyString => false
  end.

Definition clean (p : string) : string :=
  let body := Join (cleanComps (isRooted p) (components p) []) "/" in
  if isRooted p then "/" ++ body
  else if String.eqb body "" then "." else body.

Definition joinPath (a b : string) : string :=
  match nonEmpty a, nonEmpty b with
  | true, true => clean (a ++ "/" ++ b)
  | true, false => clean a
  | false, true => clean b
  | false, false => ""
  end.

(** The index just after the last slash of [p] (0 if there is none). *)
Fixpoint afterLastSlash (p : string) : nat :=
  match p with
  | EmptyString => 0
  | String c p' =>
      let r := afterLastSlash p' in
      if (0 <? r)%nat then S r
      else if Ascii.eqb c slash then 1 else 0
  end.

Definition dir (p : string) : string := clean (sliceTo p (afterLastSlash p)).

Fixpoint stripCommon (base targ : list string) : list string * list string :=
  match base, targ with
  | b :: base', t :: targ' =>
      if String.eqb b t then stripCommon base' targ' else (base, targ)
  | _, _ => (base, targ)
  end.

Definition errRel (basepath targpath : string) : error :=
  errorString ("Rel: can't make " ++ targpath ++ " relative to " ++ basepath).

Definition rel (basepath targpath : string) : string * option error :=
  let base := clean basepath in
  let targ := clean targpath in
  if String.eqb targ base then (".", None)
  else
    let base := if String.eqb base "." then "" else base in
    if negb (Bool.eqb (isRooted base) (isRooted targ)) then ("", Some (errRel basepath targpath))
    else
      let '(b, t) := stripCommon (components base) (components targ) in
      match b with
      | ".." :: _ => ("", Some (errRel basepath targpath))
      | _ => (Join (map (fun _ => "..") b ++ t) "/", None)
      end.

(** [filepath.Abs] in the working directory [wd]. *)
Definition abs (wd : string) (p : string) : Exec (error + string) :=
  if isRooted p then Ret (inr (clean p)) else Ret (inr (joinPath wd p)).

Definition ops (wd : string) : filepath.Ops := {|
  filepath.Separator := slash;
  filepath.VolumeName := fun _ => "";
  filepath.ToSlash := fun p => p;
  filepath.Clean := clean;
  filepath.Abs := abs wd;
  filepath.Dir := dir;
  filepath.JoinPath := joinPath;
  filepath.Rel := rel
|}.

End Unix.

(** ** [archive/tar] *)

Module tar.
Import FileMode.

Definition TypeReg     : ascii := "0"%char.
Definition TypeSymlink : ascii := "2"%char.
Definition TypeChar    : ascii := "3"%char.
Definition TypeBlock   : ascii := "4"%char.
Definition TypeDir     : ascii := "5"%char.
Definition TypeFifo    : ascii := "6"%char.

(** [tar.Header], the fields the code and its tests set or read. *)
Record Header : Type := {
  Typeflag : ascii;
  Name : string;
  Linkname : string;
  Size : Z
}.

(** [os.FileInfo]. *)
Record FileInfo : Type := {
  fiName : string;
  fiSize : Z;
  fiMode : Z
}.

(** [tar.FileInfoHeader(fi, link)] of the Go standard library. *)
Definition FileInfoHeader (fi : FileInfo) (link : string) : error + Header :=
  let fm := fiMode fi in
  let h := {| Typeflag := "000"%char; Name := fiName fi; Linkname := ""; Size := 0 |} in
  if IsRegular fm then
    inr {| Typeflag := TypeReg; Name := Name h; Linkname := ""; Size := fiSize fi |}
  else if IsDir fm then
    inr {| Typeflag := TypeDir; Name := Name h ++ "/"; Linkname := ""; Size := 0 |}
  else if negb (Z.land fm ModeSymlink =? 0)%Z then
    inr {| Typeflag := TypeSymlink; Name := Name h; Linkname := link; Size := 0 |}
  else if negb (Z.land fm ModeDevice =? 0)%Z then
    if negb (Z.land fm ModeCharDevice =? 0)%Z
    then inr {| Typeflag := TypeChar; Name := Name h; Linkname := ""; Size := 0 |}
    else inr {| Typeflag := TypeBlock; Name := Name h; Linkname := ""; Size := 0 |}
  else if negb (Z.land fm ModeNamedPipe =? 0)%Z then
    inr {| Typeflag := TypeFifo; Name := Name h; Linkname := ""; Size := 0 |}
  else if negb (Z.land fm ModeSocket =? 0)%Z then
    inl (errorString "archive/tar: sockets not supported")
  else inl (Errorf "archive/tar: unknown file mode %v" [ArgInt fm]).

(** The writer behind [tw]: [WriteHeader], and [Write] as [io.Copy] drives
    it.  Either may fail. *)
Class Writer (W : Type) : Type := {
  WriteHeader : W -> Header -> Exec (W * option error);
  Write : W -> string -> Exec (W * option error)
}.

(** What the build context needs besides: [tw.Flush], and the bytes of the
    buffer the writer fills. *)
Class Buffered (W : Type) : Type := {
  Flush : W -> Exec (W * option error);
  BufferBytes : W -> string
}.

End tar.

(** The calls into package [os]: [Lstat], [Open], [Readlink], and on an open
    file [Readdir(0)] and the reads of [io.Copy]. *)
Module os.
Class Host : Type := {
  FD : Type;
  Lstat : string -> Exec (error + tar.FileInfo);
  Open : string -> Exec (error + FD);
  Readlink : string -> Exec (error + string);
  Readdir : FD -> Exec (error + list tar.FileInfo);
  ReadAll : FD -> Exec (string * option error)
}.
End os.

(** ** Package up: writing a bind-mounted host file into a tar *)

Module Up.
Import FileMode tar.

Section Materializer.
Context {W : Type} `{Writer W} `{os.Host} `{filepath.Ops}.

Record bindMountHostFileToTarHelper : Type := {
  tw : W;
  twMayBeCorrupt : bool;
  renameTo : string;
  rootHostFile : string;
  rootHostFileVol : string;
  rootHostFileWithoutVol : string
}.

Definition withTw (h : bindMountHostFileToTarHelper) (w : W) (corrupt : bool)
  : bindMountHostFileToTarHelper :=
  {| tw := w; twMayBeCorrupt := corrupt; renameTo := renameTo h;
     rootHostFile := rootHostFile h; rootHostFileVol := rootHostFileVol h;
     rootHostFileWithoutVol := rootHostFileWithoutVol h |}.

Definition setName (hd : Header) (nm : string) : Header :=
  {| Typeflag := Typeflag hd; Name := nm; Linkname := Linkname hd; Size := Size hd |}.

Definition endHeaderCommon (h : bindMountHostFileToTarHelper) (header : Header)
  : Exec (bindMountHostFileToTarHelper * option error) :=
  '(w, e) ← WriteHeader (tw h) header;
  match e with
  | Some _ => Ret (withTw h w true, e)
  | None => Ret (withTw h w (twMayBeCorrupt h), e)
  end.

(** [io.Copy(h.tw, fd)]: what can be read is written; a failed read or a
    failed write is the error. *)
Definition ioCopy (w : W) (fd : os.FD) : Exec (W * option error) :=
  '(content, readErr) ← os.ReadAll fd;
  '(w, writeErr) ← Write w content;
  match writeErr with
  | Some e => Ret (w, Some e)
  | None => Ret (w, readErr)
  end.

Definition runRegular (h : bindMountHostFileToTarHelper) (fileInfo : FileInfo)
    (hostFile fileNameInTar : string)
  : Exec (bindMountHostFileToTarHelper * option error) :=
  match FileInfoHeader fileInfo "" with
  | inl e => Ret (h, Some e)
  | inr header =>
      fd ← os.Open hostFile;
      match fd with
      | inl e => Ret (h, Some e)
      | inr fd =>
          let header := setName header fileNameInTar in
          '(h, e) ← endHeaderCommon h header;
          match e with
          | Some e => Ret (h, Some e)
          | None =>
              '(w, e) ← ioCopy (tw h) fd;
              match e with
              | Some _ => Ret (withTw h w true, e)
              | None => Ret (withTw h w (twMayBeCorrupt h), e)
              end
          end
      end
  end.

(** The [range] loop of [runDirectory] over the entries, stopping at the
    first error. *)
Fixpoint rangeEntries
    (runRecursive : bindMountHostFileToTarHelper -> FileInfo -> string -> string ->
                    Exec (bindMountHostFileToTarHelper * option error))
    (h : bindMountHostFileToTarHelper) (entries : list FileInfo)
    (hostFile headerName : string)
  : Exec (bindMountHostFileToTarHelper * option error) :=
  match entries with
  | [] => Ret (h, None)
  | entry :: rest =>
      '(h, e) ← runRecursive h entry
                  (hostFile ++ String filepath.Separator "" ++ fiName entry)
                  (headerName ++ fiName entry);
      match e with
      | Some e => Ret (h, Some e)
      | None => rangeEntries runRecursive h rest hostFile headerName
      end
  end.

Definition runDirectory
    (runRecursive : bindMountHostFileToTarHelper -> FileInfo -> string -> string ->
                    Exec (bindMountHostFileToTarHelper * option error))
    (h : bindMountHostFileToTarHelper) (fileInfo : FileInfo)
    (hostFile fileNameInTar : string)
  : Exec (bindMountHostFileToTarHelper * option error) :=
  fd ← os.Open hostFile;
  match fd with
  | inl e => Ret (h, Some e)
  | inr fd =>
      match FileInfoHeader fileInfo "" with
      | inl e => Ret (h, Some e)
      | inr header =>
          let header := setName header (fileNameInTar ++ "/") in
          '(h, e) ← endHeaderCommon h header;
          match e with
          | Some e => Ret (h, Some e)
          | None =>
              entries ← os.Readdir fd;
              match entries with
              | inl e => Ret (h, Some e)
              | inr entries => rangeEntries runRecursive h entries hostFile (Name header)
              end
          end
      end
  end.

Definition isFileWithinBindHostRoot (h : bindMountHostFileToTarHelper) (target : string)
  : bool :=
  let vol := filepath.VolumeName target in
  if negb (String.eqb vol (rootHostFileVol h)) then false
  else
    let targetWithoutVol := sliceFrom target (len vol) in
    if HasPrefix targetWithoutVol (rootHostFileWithoutVol h) then
      if (len targetWithoutVol =? len (rootHostFileWithoutVol h))%nat then true
      else match byteAt targetWithoutVol (len (rootHostFileWithoutVol h)) with
           | Some c => if Ascii.eqb c filepath.Separator then true else false
           | None => false
           end
    else false.

(** The path ends in a path separator, as the path of a root directory
    does. *)
Definition endsInSeparator (path : string) : bool :=
  match lastByte path with
  | Some c => Ascii.eqb c filepath.Separator
  | None => false
  end.

Definition errSymlinkOutside (hostFile root : string) : error :=
  Errorf "target of symlink %#v it outside the bind volume with host %#v"
         [ArgString hostFile; ArgString root].

(** [link != "" && (link[0] == '\\' || link[0] == '/')]. *)
Definition linkIsAbsLike (link : string) : bool :=
  match link with
  | String c _ => Ascii.eqb c backslash || Ascii.eqb c slash
  | EmptyString => false
  end.

(** The link resolved to a host path, as [runSymlink] computes it. *)
Definition resolvesTo (hostFile link T : string) : Prop :=
  if linkIsAbsLike link || negb (String.eqb (filepath.VolumeName link) "")
  then filepath.Abs link = Ret (inr T)
  else T = filepath.JoinPath (filepath.Dir hostFile) link.

Definition runSymlink (h : bindMountHostFileToTarHelper) (fileInfo : FileInfo)
    (hostFile fileNameInTar : string)
  : Exec (bindMountHostFileToTarHelper * option error) :=
  link ← os.Readlink hostFile;
  match link with
  | inl e => Ret (h, Some (Wrap e "error while reading link %#v" [ArgString hostFile]))
  | inr link =>
      linkResolved ←
        (if linkIsAbsLike link || negb (String.eqb (filepath.VolumeName link) "")
         then
           r ← filepath.Abs link;
           match r with
           | inl e => Ret (inl (Wrap e "error while converting %#v to an absolute path"
                                   [ArgString link]))
           | inr p => Ret (inr p)
           end
         else Ret (inr (filepath.JoinPath (filepath.Dir hostFile) link)));
      match linkResolved with
      | inl e => Ret (h, Some e)
      | inr linkResolved =>
          if isFileWithinBindHostRoot h linkResolved then
            let linkResolvedInTar :=
              filepath.ToSlash (renameTo h ++ sliceFrom linkResolved (len (rootHostFile h))) in
            let linkResolvedInTarRel := fst (filepath.Rel (filepath.Dir fileNameInTar) linkResolvedInTar) in
            match FileInfoHeader fileInfo linkResolvedInTarRel with
            | inl e => Ret (h, Some e)
            | inr header => endHeaderCommon h (setName header fileNameInTar)
            end
          else Ret (h, Some (errSymlinkOutside hostFile (rootHostFile h)))
      end
  end.

Definition errUnsupported (hostFile : string) (m : Z) : error :=
  Errorf "file %#v is neither a symlink, a directory nor a regular file (os.ModeType 0x%x)"
         [ArgString hostFile; ArgInt (Z.land m ModeType)].

(** [runRecursive]; [fuel] bounds the depth of the directories walked. *)
Fixpoint runRecursive (fuel : nat) (h : bindMountHostFileToTarHelper)
    (fileInfo : FileInfo) (hostFile fileNameInTar : string)
  : Exec (bindMountHostFileToTarHelper * option error) :=
  match fuel with
  | O => OutOfFuel
  | S fuel' =>
      if negb (Z.land (fiMode fileInfo) ModeSymlink =? 0)%Z then
        runSymlink h fileInfo hostFile fileNameInTar
      else if IsDir (fiMode fileInfo) then
        runDirectory (runRecursive fuel') h fileInfo hostFile fileNameInTar
      else if IsRegular (fiMode fileInfo) then
        runRegular h fileInfo hostFile fileNameInTar
      else Ret (h, Some (errUnsupported hostFile (fiMode fileInfo)))
  end.

(** [run]: the helper afterwards, [isDir] and [err]. *)
Definition run (fuel : nat) (h : bindMountHostFileToTarHelper)
    (hostFile fileNameInTar : string)
  : Exec (bindMountHostFileToTarHelper * bool * option error) :=
  fileInfo ← os.Lstat hostFile;
  match fileInfo with
  | inl e => Ret (h, false, Some e)
  | inr fileInfo =>
      '(h, e) ← runRecursive fuel h fileInfo hostFile fileNameInTar;
      match e with
      | None => Ret (h, IsDir (fiMode fileInfo), None)
      | Some e =>
          if twMayBeCorrupt h then Ret (h, false, Some e)
          else
            match FileInfoHeader fileInfo "" with
            | inl e => Ret (h, false, Some e)
            | inr header =>
                let header := {| Typeflag := TypeDir; Name := Name header ++ "/";
                                 Linkname := Linkname header; Size := Size header |} in
                '(h, e) ← endHeaderCommon h header;
                Ret (h, true, e)
            end
      end
  end.

Definition emptyDirHeader (renameTo : string) : Header :=
  {| Typeflag := TypeDir; Name := renameTo ++ "/"; Linkname := ""; Size := 0 |}.

Definition newHelper (w : W) (hostFile renameTo : string) : bindMountHostFileToTarHelper :=
  let vol := filepath.VolumeName hostFile in
  {| tw := w; twMayBeCorrupt := false; renameTo := renameTo;
     rootHostFile := hostFile; rootHostFileVol := vol;
     rootHostFileWithoutVol := sliceFrom hostFile (len vol) |}.

Definition bindMouseHostFileToTar (fuel : nat) (w : W) (hostFile renameTo : string)
  : Exec (bindMountHostFileToTarHelper * bool * option error) :=
  let h := newHelper w hostFile renameTo in
  '(h, isDir, e) ← run fuel h hostFile renameTo;
  match e with
  | None => Ret (h, isDir, None)
  | Some e =>
      if twMayBeCorrupt h then Ret (h, false, Some e)
      else
        '(h, e) ← endHeaderCommon h (emptyDirHeader renameTo);
        Ret (h, true, e)
  end.

(** What a method of the helper leaves alone: the fields set up by
    [bindMouseHostFileToTar], a mark already on the writer, and, when it
    returns no error, the absence of the mark. *)
Definition keeps (h h' : bindMountHostFileToTarHelper) (e : option error) : Prop :=
  renameTo h' = renameTo h
  /\ rootHostFile h' = rootHostFile h
  /\ rootHostFileVol h' = rootHostFileVol h
  /\ rootHostFileWithoutVol h' = rootHostFileWithoutVol h
  /\ (twMayBeCorrupt h = true -> twMayBeCorrupt h' = true)
  /\ (e = None -> twMayBeCorrupt h' = twMayBeCorrupt h).

End Materializer.

Arguments bindMountHostFileToTarHelper W : clear implicits.

Section BuildContext.
Context {W : Type} `{Writer W} `{Buffered W} `{os.Host} `{filepath.Ops}.

Definition dockerfileHeader (dockerFile : string) : Header :=
  {| Typeflag := "000"%char; Name := "Dockerfile"; Linkname := "";
     Size := Z.of_nat (len dockerFile) |}.

(** The [range] loop of [buildVolumeInitImageGetBuildContext]: [i] is the
    index of the next path, [dirs] is [r.isDirSlice].  The record [r] is
    updated in place, so [dirs] is handed back on every path out. *)
Fixpoint rangeHostPaths (fuel : nat) (w : W) (i : Z) (bindVolumeHostPaths : list string)
    (dirs : list bool) : Exec (W * list bool * option error) :=
  match bindVolumeHostPaths with
  | [] => Ret (w, dirs, None)
  | bindVolumeHostFile :: rest =>
      '(h, isDir, e) ← bindMouseHostFileToTar fuel w bindVolumeHostFile
                          ("data" ++ fmt_d (i + 1));
      match e with
      | Some e => Ret (tw h, dirs, Some e)
      | None => rangeHostPaths fuel (tw h) (i + 1) rest (dirs ++ [isDir])%list
      end
  end.

(** [buildVolumeInitImageGetBuildContext]: [w] is the writer over the fresh
    buffer; the result is the writer, [r.isDirSlice] afterwards, and the
    error or the bytes of the buffer.  (The deferred [tw.Close] runs after
    the bytes were taken.) *)
Definition buildVolumeInitImageGetBuildContext (fuel : nat) (w : W)
    (dirs : list bool) (bindVolumeHostPaths : list string)
  : Exec (W * list bool * (error + string)) :=
  '(w, dirs, e) ← rangeHostPaths fuel w 0 bindVolumeHostPaths dirs;
  match e with
  | Some e => Ret (w, dirs, inl e)
  | None =>
      let dockerFile := Dockerfile.buildVolumeInitImageGetDockerfile dirs in
      '(w, e) ← WriteHeader w (dockerfileHeader dockerFile);
      match e with
      | Some e => Ret (w, dirs, inl e)
      | None =>
          '(w, e) ← Write w dockerFile;
          match e with
          | Some e => Ret (w, dirs, inl e)
          | None =>
              '(w, e) ← Flush w;
              match e with
              | Some e => Ret (w, dirs, inl e)
              | None => Ret (w, dirs, inr (BufferBytes w))
              end
          end
      end
  end.

End BuildContext.

End Up.

(** ** The in-memory file system behind the [os] and [filepath] calls

    The tests of package [up] run the code with the package-level file
    system set to an in-memory one. *)

Module Vfs.
Import FileMode Fs.

Definition fileInfoOf (nd : node) : tar.FileInfo :=
  {| tar.fiName := name nd;
     tar.fiSize := match extra nd with
                   | Bytes b => Z.of_nat (len b)
                   | Entries _ => 0%Z
                   end;
     tar.fiMode := mode nd |}.

Definition errIsDir : error := errorString "is a directory".
Definition errInvalid : error := errorString "invalid argument".

Section Ops.
Context `{NameValidator}.

(** Modelled from the spec: [Lstat], [Stat], [Open], [Readlink], [ReadDir]
    and [Abs] of the in-memory file system are not among the sources.
    "Lstat(path) (no symlink following at the final component), Open(path)
    returning a read-only handle, Readlink(path), ReadDir(path) returning
    children in insertion order"; [Abs] fails with the injected [AbsError]. *)
Definition nodeAt (fs : InMemoryFileSystem) (path : string) (resolveLast : bool)
  : Exec (error + loc) :=
  '(n, _, e) ← find fs path resolveLast false;
  match e, n with
  | Some e, _ => Ret (inl e)
  | None, Some n => Ret (inr n)
  | None, None => Panic
  end.

Definition Lstat (fs : InMemoryFileSystem) (path : string) : Exec (error + tar.FileInfo) :=
  r ← nodeAt fs path false;
  match r with
  | inl e => Ret (inl e)
  | inr n => nd ← deref fs n; Ret (inr (fileInfoOf nd))
  end.

Definition Stat (fs : InMemoryFileSystem) (path : string) : Exec (error + tar.FileInfo) :=
  r ← nodeAt fs path true;
  match r with
  | inl e => Ret (inl e)
  | inr n => nd ← deref fs n; Ret (inr (fileInfoOf nd))
  end.

Definition Open (fs : InMemoryFileSystem) (path : string) : Exec (error + loc) :=
  nodeAt fs path true.

Definition Readlink (fs : InMemoryFileSystem) (path : string) : Exec (error + string) :=
  r ← nodeAt fs path false;
  match r with
  | inl e => Ret (inl e)
  | inr n =>
      nd ← deref fs n;
      match extra nd with
      | Bytes target => if IsSymlink (mode nd) then Ret (inr target) else Ret (inl errInvalid)
      | Entries _ => Ret (inl errInvalid)
      end
  end.

Fixpoint infosOf (fs : InMemoryFileSystem) (dir : list loc) : Exec (list tar.FileInfo) :=
  match dir with
  | [] => Ret []
  | c :: rest =>
      nd ← deref fs c;
      infos ← infosOf fs rest;
      Ret (fileInfoOf nd :: infos)
  end.

Definition Readdir (fs : InMemoryFileSystem) (fd : loc) : Exec (error + list tar.FileInfo) :=
  nd ← deref fs fd;
  match extra nd with
  | Entries dir => infos ← infosOf fs dir; Ret (inr infos)
  | Bytes _ => Ret (inl ENOTDIR)
  end.

Definition ReadAll (fs : InMemoryFileSystem) (fd : loc) : Exec (string * option error) :=
  nd ← deref fs fd;
  match extra nd with
  | Bytes b => Ret (b, None)
  | Entries _ => Ret ("", Some errIsDir)
  end.

Definition Abs (fs : InMemoryFileSystem) (path : string) : Exec (error + string) :=
  match AbsError fs with
  | Some e => Ret (inl e)
  | None => Unix.abs (cwd fs) path
  end.

(** The file system as the host behind [os] and [filepath]. *)
Definition host (fs : InMemoryFileSystem) : os.Host := {|
  os.FD := loc;
  os.Lstat := Lstat fs;
  os.Open := Open fs;
  os.Readlink := Readlink fs;
  os.Readdir := Readdir fs;
  os.ReadAll := ReadAll fs
|}.

Definition paths (fs : InMemoryFileSystem) : filepath.Ops := {|
  filepath.Separator := slash;
  filepath.VolumeName := fun _ => "";
  filepath.ToSlash := fun p => p;
  filepath.Clean := Unix.clean;
  filepath.Abs := Abs fs;
  filepath.Dir := Unix.dir;
  filepath.JoinPath := Unix.joinPath;
  filepath.Rel := Unix.rel
|}.

End Ops.
End Vfs.

(** ** Package up: resolving the host path of a bind volume *)

Module Resolver.
Import FileMode Fs.

Section Resolve.
Context `{NameValidator}.

(** The loop over [parts[i:]], [result] being the path walked so far. *)
Fixpoint walkParts (fs : InMemoryFileSystem) (sep : string) (parts : list string)
    (result : string) : Exec (InMemoryFileSystem * string * option error) :=
  match parts with
  | [] => Ret (fs, result, None)
  | part :: rest =>
      let result := result ++ sep ++ part in
      '(resultResolved, e) ← EvalSymlinks fs result;
      if IsNotExist e then
        let result := match rest with
                      | [] => result
                      | _ :: _ => result ++ sep ++ Join rest sep
                      end in
        '(fs, e) ← MkdirAll fs result 511;
        Ret (fs, result, e)
      else
        match e with
        | Some e => Ret (fs, "", Some e)
        | None => walkParts fs sep rest resultResolved
        end
  end.

(** [resolveBindVolumeHostPath], run against the in-memory file system
    [fs]. *)
Definition resolveBindVolumeHostPath (fs : InMemoryFileSystem) (name : string)
  : Exec (InMemoryFileSystem * string * option error) :=
  let P := Vfs.paths fs in
  r ← filepath.Abs name;
  match r with
  | inl e => Ret (fs, "", Some e)
  | inr name =>
      let vol := filepath.VolumeName name in
      let sep := String filepath.Separator "" in
      let parts := Split (filepath.Clean (sliceFrom name (len vol))) filepath.Separator in
      walkParts fs sep (tail parts) vol
  end.

End Resolve.



End Resolver.

(** ** The tar writers and file systems of the scenarios *)

Module Scenario.
Import FileMode Fs tar.

(** Modelled from the spec: the components [validateNameComp] accepts are
    those a node may carry, "no slashes, not [.] or [..], not empty". *)
Definition specValidator : NameValidator := fun nameComp =>
  negb (String.eqb nameComp "") && negb (String.eqb nameComp ".")
  && negb (String.eqb nameComp "..") && (IndexByte nameComp slash <? 0)%Z.

(** [mockTarWriter] of [volume_test.go]. *)
Record mockTarWriterEntry : Type := {
  h : Header;
  data : string
}.

Definition mockTarWriter : Type := list mockTarWriterEntry.

Fixpoint appendToLast (entries : mockTarWriter) (p : string) : option mockTarWriter :=
  match entries with
  | [] => None
  | [e] => Some [ {| h := h e; data := data e ++ p |} ]
  | e :: rest => match appendToLast rest p with
                 | Some rest' => Some (e :: rest')
                 | None => None
                 end
  end.

Definition mockWriter : Writer mockTarWriter := {|
  WriteHeader := fun (m : mockTarWriter) header =>
                   Ret ((m ++ [ {| h := header; data := "" |} ])%list, None);
  Write := fun (m : mockTarWriter) p => match appendToLast m p with
                      | Some m' => Ret (m', None)
                      | None => Panic
                      end
|}.

(** The mock has nothing to flush; its bytes are not looked at. *)
Definition mockBuffered : Buffered mockTarWriter := {|
  Flush := fun (m : mockTarWriter) => Ret (m, None);
  BufferBytes := fun _ => ""
|}.

(** The entry is named [fileNameInTar] or below it. *)
Definition namedUnder (fileNameInTar : string) (en : mockTarWriterEntry) : bool :=
  HasPrefix (Name (h en)) fileNameInTar.

(** The archive grows by entries named under [fileNameInTar]. *)
Definition grows (fileNameInTar : string)
    (hp hp' : Up.bindMountHostFileToTarHelper mockTarWriter) : Prop :=
  exists added, Up.tw hp' = (Up.tw hp ++ added)%list
                /\ forallb (namedUnder fileNameInTar) added = true.

Definition regularFile (name data : string) : mockTarWriterEntry :=
  {| h := {| Typeflag := TypeReg; Name := name; Linkname := "";
             Size := Z.of_nat (len data) |};
     data := data |}.

Definition symlink (name link : string) : mockTarWriterEntry :=
  {| h := {| Typeflag := TypeSymlink; Name := name; Linkname := link; Size := 0 |};
     data := "" |}.

Definition directory (name : string) : mockTarWriterEntry :=
  {| h := {| Typeflag := TypeDir; Name := name; Linkname := ""; Size := 0 |};
     data := "" |}.



Definition errTest : error := errorString "test error".
Definition testFileContent : string := "content".

Definition dirNode (name : string) (dir : list loc) : node :=
  {| err := None; extra := Entries dir; mode := Z.lor ModeDir ModePerm; name := name |}.
Definition fileNode (name content : string) : node :=
  {| err := None; extra := Bytes content; mode := 0; name := name |}.
Definition errNode (name : string) (e : error) : node :=
  {| err := Some e; extra := Bytes ""; mode := 0; name := name |}.
Definition linkNode (name target : string) : node :=
  {| err := None; extra := Bytes target; mode := ModeSymlink; name := name |}.

(** The file system [volume_test.go] sets up in [init]. *)
Definition vfs : InMemoryFileSystem := {|
  AbsError := None;
  cwd := "/";
  root := 0;
  store := [ dirNode "/" [1; 2; 3; 6; 9];
             fileNode "orig" testFileContent;
             errNode "origerr" errTest;
             dirNode "dir" [4; 5];
             fileNode "file1" testFileContent;
             fileNode "file2" testFileContent;
             dirNode "dir2" [7; 8];
             fileNode "file" testFileContent;
             linkNode "symlink" "file";
             dirNode "dir3" [10];
             linkNode "symlink" "/dir2" ]
|}.

(** The link [/dir3/symlink], as [Lstat] reports it. *)
Definition symlinkInfo : FileInfo :=
  {| fiName := "symlink"; fiSize := 5; fiMode := ModeSymlink |}.

(** [NewInMemoryFileSystem] of an empty map. *)
Definition emptyFs : InMemoryFileSystem := {|
  AbsError := None;
  cwd := "/";
  root := 0;
  store := [ dirNode "/" [] ]
|}.

(** A file system whose only file is a link to itself. *)
Definition loopFs : InMemoryFileSystem := {|
  AbsError := None;
  cwd := "/";
  root := 0;
  store := [ dirNode "/" [1]; linkNode "loop" "loop" ]
|}.

(** [bindMouseHostFileToTar] on the mock writer and the file system [fs]. *)
Definition materialize (fs : InMemoryFileSystem) (hostFile renameTo : string)
  : Exec (mockTarWriter * bool * option error) :=
  '(h, isDir, e) ← @Up.bindMouseHostFileToTar mockTarWriter mockWriter
                      (@Vfs.host specValidator fs) (@Vfs.paths fs)
                      100 [] hostFile renameTo;
  Ret (Up.tw h, isDir, e).

End Scenario.

(** * Properties *)

(** ** Strings *)

Lemma str_app_cons (c : ascii) (s t : string) : String c s ++ t = String c (s ++ t).
Proof. reflexivity. Qed.

Lemma str_app_nil_l (s : string) : "" ++ s = s.
Proof. reflexivity. Qed.

Lemma str_app_nil_r (s : string) : s ++ "" = s.
Proof.
  induction s as [|c s IH]; [reflexivity | rewrite str_app_cons; now f_equal].
Qed.

Lemma str_app_assoc (a b c : string) : (a ++ b) ++ c = a ++ (b ++ c).
Proof.
  induction a as [|x a IH]; [reflexivity | rewrite !str_app_cons; now f_equal].
Qed.

Lemma len_app (a b : string) : len (a ++ b) = (len a + len b)%nat.
Proof.
  unfold len. induction a as [|x a IH]; [reflexivity|].
  rewrite str_app_cons. cbn [String.length]. rewrite IH. reflexivity.
Qed.

Lemma str_eqb_true (a b : string) : String.eqb a b = true -> a = b.
Proof. apply String.eqb_eq. Qed.

Lemma str_eqb_false (a b : string) : String.eqb a b = false -> a <> b.
Proof. apply String.eqb_neq. Qed.

Lemma concat_empty_cons (x : string) (xs : list string) :
  String.concat "" (x :: xs) = x ++ String.concat "" xs.
Proof.
  destruct xs as [|y ys]; cbn [String.concat]; [now rewrite str_app_nil_r | reflexivity].
Qed.

Lemma concat_sep_cons (sep x : string) (xs : list string) :
  String.concat sep (x :: xs) = x ++ String.concat "" (map (fun y => sep ++ y) xs).
Proof.
  revert x. induction xs as [|y ys IH]; intros x.
  - simpl. now rewrite str_app_nil_r.
  - change (String.concat sep (x :: y :: ys)) with (x ++ sep ++ String.concat sep (y :: ys)).
    rewrite IH. cbn [map]. rewrite concat_empty_cons, str_app_assoc. reflexivity.
Qed.

(** ** The generated Dockerfile *)

Section DockerfileProofs.
Import Dockerfile.

Lemma writeCopy_copyLine (pre rest : list bool) (d : bool) (b : string) :
  writeCopy (pre ++ d :: rest) b (S (length pre)) = b ++ copyLine (S (length pre)) d.
Proof.
  unfold writeCopy, copyLine, dirSuffix.
  replace (S (length pre) - 1)%nat with (length pre) by lia.
  rewrite nth_middle. destruct d; simpl; rewrite ?str_app_assoc; reflexivity.
Qed.

Lemma copy_loop (rest pre : list bool) (b : string) :
  fold_left (writeCopy (pre ++ rest)) (seq (S (length pre)) (length rest)) b
  = b ++ String.concat "" (imap (fun k d => copyLine (S (length pre + k)) d) rest).
Proof.
  revert pre b. induction rest as [|d rest IH]; intros pre b.
  - simpl. now rewrite str_app_nil_r.
  - cbn [length seq fold_left]. rewrite writeCopy_copyLine.
    replace (pre ++ d :: rest)%list with ((pre ++ [d]) ++ rest)%list
      by now rewrite <- app_assoc.
    specialize (IH (pre ++ [d])%list (b ++ copyLine (S (length pre)) d)).
    rewrite length_app in IH. cbn [length] in IH.
    replace (length pre + 1)%nat with (S (length pre)) in IH by lia.
    rewrite IH. rewrite imap_cons, concat_empty_cons, str_app_assoc.
    replace (length pre + 0)%nat with (length pre) by lia.
    do 3 f_equal. apply imap_ext. intros k x _. cbn. f_equal. lia.
Qed.

Lemma cp_loop_tail (n a : nat) (b : string) :
  (1 <= a)%nat ->
  fold_left writeCp (seq (S a) n) b
  = b ++ String.concat "" (map (fun y => " && " ++ y) (map cpCommand (seq (S a) n))).
Proof.
  revert a b. induction n as [|n IH]; intros a b Ha.
  - simpl. now rewrite str_app_nil_r.
  - cbn [seq fold_left map]. rewrite IH by lia.
    rewrite concat_empty_cons. unfold writeCp at 1.
    replace (1 <? S a)%nat with true by (symmetry; apply Nat.ltb_lt; lia).
    fold (cpCommand (S a)). rewrite !str_app_assoc. reflexivity.
Qed.

Lemma cp_loop (n : nat) (b : string) :
  fold_left writeCp (seq 1 n) b = b ++ String.concat " && " (map cpCommand (seq 1 n)).
Proof.
  destruct n as [|n].
  - simpl. now rewrite str_app_nil_r.
  - cbn [seq fold_left map]. rewrite cp_loop_tail by lia.
    rewrite concat_sep_cons. unfold writeCp at 1. cbn [Nat.ltb Nat.leb].
    fold (cpCommand 1). rewrite str_app_assoc. reflexivity.
Qed.

(** C5. [buildVolumeInitImageGetDockerfile [true; false]] is exactly the
    text of the scenario; for every [isDirSlice] the result is the preamble,
    one [COPY] line per entry in index order, whose source and destination
    end in a slash exactly when the entry is a directory, and the
    [ENTRYPOINT] whose [cp] commands are joined with [" && "] in index
    order. *)
Theorem buildVolumeInitImageGetDockerfile_layout :
  buildVolumeInitImageGetDockerfile [true; false] = expectedTrueFalse
  /\ (forall isDirSlice,
        buildVolumeInitImageGetDockerfile isDirSlice = dockerfileLayout isDirSlice)
  /\ (forall isDirSlice (k : nat) (d : bool),
        isDirSlice !! k = Some d ->
        copyLines isDirSlice !! k
        = Some ("COPY data" ++ fmt_d (Z.of_nat (S k)) ++ (if d then "/" else "")
                  ++ " /app/data/vol" ++ fmt_d (Z.of_nat (S k))
                  ++ (if d then "/" else "") ++ nl)).
Proof.
  split; [reflexivity | split].
  - intros isDirSlice. unfold buildVolumeInitImageGetDockerfile, dockerfileLayout.
    rewrite cp_loop. pose proof (copy_loop isDirSlice [] preamble) as Hc.
    cbn [app length] in Hc. rewrite Hc. unfold copyLines.
    rewrite !str_app_assoc. reflexivity.
  - intros isDirSlice k d Hk. unfold copyLines.
    rewrite list_lookup_imap, Hk. reflexivity.
Qed.

End DockerfileProofs.

(** ** Resolving a pulled image *)

Section DockerProofs.
Import Docker.

Lemma rangeRepoDigests_In (repoDigest : string) (ds : list string) :
  rangeRepoDigests repoDigest ds = true <-> In repoDigest ds.
Proof.
  induction ds as [|d ds IH]; simpl.
  - split; [discriminate | tauto].
  - destruct (String.eqb repoDigest d) eqn:E.
    + apply str_eqb_true in E. subst. tauto.
    + apply str_eqb_false in E. rewrite IH. split; [tauto|].
      intros [->|]; [contradiction | assumption].
Qed.

Lemma forImageSummaries_None (repoDigest : string) (sums : list ImageSummary) :
  forImageSummaries repoDigest sums = None
  <-> (forall s, In s sums -> ~ In repoDigest (RepoDigests s)).
Proof.
  induction sums as [|s sums IH]; simpl.
  - split; [intros _ s [] | reflexivity].
  - destruct (rangeRepoDigests repoDigest (RepoDigests s)) eqn:E.
    + split; [discriminate|]. intros Hn. exfalso.
      apply (Hn s); [now left | now apply rangeRepoDigests_In].
    + rewrite IH. split.
      * intros Hn s' [<-|Hin]; [|now apply Hn].
        intros Hc. apply rangeRepoDigests_In in Hc. congruence.
      * intros Hn s' Hin. apply Hn. now right.
Qed.

Lemma forImageSummaries_Some (repoDigest : string) (sums : list ImageSummary) r :
  forImageSummaries repoDigest sums = Some r ->
  exists pre s post,
    sums = (pre ++ s :: post)%list
    /\ (forall s', In s' pre -> ~ In repoDigest (RepoDigests s'))
    /\ In repoDigest (RepoDigests s)
    /\ r = (ID s, repoDigest, None).
Proof.
  induction sums as [|s sums IH]; simpl; [discriminate|].
  destruct (rangeRepoDigests repoDigest (RepoDigests s)) eqn:E.
  - intros [= <-]. exists [], s, sums. repeat split; try reflexivity.
    + intros s' [].
    + now apply rangeRepoDigests_In.
  - intros Hr. destruct (IH Hr) as (pre & s0 & post & -> & Hpre & Hin & ->).
    exists (s :: pre), s0, post. repeat split; try reflexivity; try assumption.
    intros s' [<-|Hs']; [|now apply Hpre].
    intros Hc. apply rangeRepoDigests_In in Hc. congruence.
Qed.

(** C10. When the image-list query succeeds, the error result is [nil];
    with no listed image carrying the repo digest [familiarName@digest] the
    result is [("", "", nil)], and otherwise the repo digest returned is
    [familiarName@digest] and the image ID is that of a listed image that
    carries it (the first one in list order). *)
Theorem ResolveLocalImageAfterPull_never_not_found
    (lister : ImageLister) (familiarName digest : string)
    (imageSummaries : list ImageSummary)
    (Hlist : lister {| All := false; Filters := [("reference", familiarName)] |}
             = (imageSummaries, None)) :
  let repoDigest := familiarName ++ "@" ++ digest in
  let result := ResolveLocalImageAfterPull lister familiarName digest in
  snd result = None
  /\ ((forall s, In s imageSummaries -> ~ In repoDigest (RepoDigests s)) ->
      result = ("", "", None))
  /\ ((exists s, In s imageSummaries /\ In repoDigest (RepoDigests s)) ->
      exists pre s post,
        imageSummaries = (pre ++ s :: post)%list
        /\ (forall s', In s' pre -> ~ In repoDigest (RepoDigests s'))
        /\ In repoDigest (RepoDigests s)
        /\ result = (ID s, repoDigest, None)).
Proof.
  intros repoDigest result. subst result. unfold ResolveLocalImageAfterPull.
  rewrite Hlist. fold repoDigest.
  destruct (forImageSummaries repoDigest imageSummaries) as [r|] eqn:E.
  - destruct (forImageSummaries_Some _ _ _ E) as (pre & s & post & Hs & Hpre & Hin & ->).
    split; [reflexivity | split].
    + intros Hn. exfalso. apply (Hn s); [|assumption].
      rewrite Hs. apply in_or_app. right. now left.
    + intros _. exists pre, s, post. auto.
  - split; [reflexivity | split].
    + reflexivity.
    + intros (s & Hin & Hd). exfalso.
      exact (proj1 (forImageSummaries_None _ _) E s Hin Hd).
Qed.

Lemma ResolveLocalImageAfterPull_witness :
  snd (ResolveLocalImageAfterPull listerOne "ubuntu" "sha256:2") = None
  /\ ResolveLocalImageAfterPull listerOne "ubuntu" "sha256:2"
     = ("sha256:1", "ubuntu@sha256:2", None).
Proof.
  pose proof (ResolveLocalImageAfterPull_never_not_found listerOne "ubuntu" "sha256:2"
                _ eq_refl) as [H1 _].
  split; [exact H1 | reflexivity].
Defined.

End DockerProofs.

(** ** The image identifier in the build stream *)

Section BuildProofs.
Import Docker Build.

Lemma findFrom_spec (s : string) (pos lo hi : nat) :
  findFrom s pos = Some (lo, hi) ->
  exists k, lo = (pos + k)%nat
            /\ hi = (lo + (len Sha256Prefix + Sha256BitLength / 4))%nat
            /\ digestAtHead (sliceFrom s k) = true.
Proof.
  revert pos. induction s as [|c s IH]; intros pos; cbn [findFrom].
  - destruct (digestAtHead "") eqn:E; [|discriminate].
    intros [= <- <-]. exists 0%nat. repeat split; [lia | exact E].
  - destruct (digestAtHead (String c s)) eqn:E.
    + intros [= <- <-]. exists 0%nat. repeat split; [lia | exact E].
    + intros Hf. destruct (IH _ Hf) as (k & -> & -> & Hd).
      exists (S k). repeat split; [lia | exact Hd].
Qed.

Lemma sliceFrom_nonempty (s : string) (k : nat) :
  sliceFrom s k <> "" -> (k < len s)%nat.
Proof.
  revert s. induction k as [|k IH]; intros s; cbn [sliceFrom].
  - destruct s; [congruence | cbn; lia].
  - destruct s as [|c s]; [congruence|]. intros Hs. specialize (IH _ Hs).
    cbn [len String.length] in *. unfold len in IH. lia.
Qed.

Lemma specDigestRegexp_inside : @matchesInside specDigestRegexp.
Proof.
  intros s lo hi Hf. unfold FindStringIndex, specDigestRegexp in Hf.
  destruct (findFrom_spec _ _ _ _ Hf) as (k & -> & _ & Hd).
  apply sliceFrom_nonempty. unfold digestAtHead, HasPrefix in Hd.
  change (0 + k)%nat with k.
  destruct (sliceFrom s k); [cbn in Hd; discriminate | discriminate].
Qed.

Context `{DigestRegexp}.

Lemma slice_nonempty (s : string) (lo k : nat) :
  (lo < len s)%nat -> slice s lo (lo + S k) <> "".
Proof.
  unfold slice. replace (lo + S k - lo)%nat with (S k) by lia.
  revert s. induction lo as [|lo IH]; intros s Hl.
  - destruct s as [|c s]; [cbn in Hl; lia|]. cbn [sliceFrom sliceTo]. discriminate.
  - destruct s as [|c s]; [cbn in Hl; lia|]. cbn [sliceFrom]. apply IH.
    cbn [len String.length] in Hl. unfold len. lia.
Qed.

Lemma matchOf_nonempty (m : JSONMessage) (d : string) :
  matchesInside -> matchOf m = Some d -> d <> "".
Proof.
  intros Hin. unfold matchOf.
  destruct (FindStringIndex (Stream m)) as [[lo hi]|] eqn:E; [|discriminate].
  intros [= <-]. change (Sha256BitLength / 4 + len Sha256Prefix)%nat with (S 70).
  apply slice_nonempty. eapply Hin. eassumption.
Qed.

Lemma decodeLoop_stream (msgs : list JSONMessage) (r : buildVolumeInitImageResult) :
  decodeLoop (streamOf msgs) r
  = inr {| isDirSlice := isDirSlice r;
           imageID := match lastMatch msgs with
                      | Some d => d
                      | None => imageID r
                      end |}.
Proof.
  revert r. induction msgs as [|m msgs IH]; intros r.
  - destruct r; reflexivity.
  - cbn [streamOf map decodeLoop lastMatch]. fold (streamOf msgs).
    unfold matchOf.
    destruct (FindStringIndex (Stream m)) as [[lo hi]|] eqn:E.
    + rewrite IH. cbn [isDirSlice imageID].
      destruct (lastMatch msgs); reflexivity.
    + rewrite IH. destruct (lastMatch msgs); reflexivity.
Qed.

Lemma lastMatch_None (msgs : list JSONMessage) :
  lastMatch msgs = None
  <-> Forall (fun m => FindStringIndex (Stream m) = None) msgs.
Proof.
  induction msgs as [|m msgs IH]; cbn [lastMatch].
  - split; [constructor | reflexivity].
  - destruct (lastMatch msgs) as [d|] eqn:E.
    + split; [discriminate|]. intros HF. inversion HF; subst.
      destruct IH as [_ IH]. specialize (IH ltac:(assumption)). discriminate.
    + unfold matchOf. destruct (FindStringIndex (Stream m)) as [[lo hi]|] eqn:Em.
      * split; [discriminate|]. intros HF. inversion HF; subst. congruence.
      * split; [|reflexivity]. intros _. constructor; [assumption|].
        now apply IH.
Qed.

(** C1, amended.  For every build stream that decodes up to its end, each
    message whose [stream] holds a match of the digest pattern overwrites
    the identifier with its leftmost match: the identifier returned is the
    leftmost match of the last message that has one, and when no message has
    a match the call fails with the could-not-parse-image-ID error. *)
Theorem buildVolumeInitImage_last_match :
  matchesInside ->
  forall (dirs : list bool) (msgs : list JSONMessage),
    (forall d, lastMatch msgs = Some d ->
       buildVolumeInitImage (inr dirs) (inr (streamOf msgs))
       = inr {| isDirSlice := dirs; imageID := d |})
    /\ (Forall (fun m => FindStringIndex (Stream m) = None) msgs ->
        buildVolumeInitImage (inr dirs) (inr (streamOf msgs)) = inl errNoImageID).
Proof.
  intros Hin dirs msgs. unfold buildVolumeInitImage. rewrite decodeLoop_stream.
  cbn [isDirSlice imageID]. split.
  - intros d Hd. rewrite Hd.
    assert (Hne : d <> "").
    { clear -Hd Hin. induction msgs as [|m msgs IH]; [discriminate|].
      cbn [lastMatch] in Hd. destruct (lastMatch msgs) as [d'|].
      - injection Hd as <-. now apply IH.
      - eapply matchOf_nonempty; eassumption. }
    apply String.eqb_neq in Hne. rewrite Hne. reflexivity.
  - intros HF. apply lastMatch_None in HF. rewrite HF. reflexivity.
Qed.

End BuildProofs.

(** C1, as the claim states it, fails: of two messages with a digest each,
    the identifier returned is the one of the second message. *)
Lemma buildVolumeInitImage_first_match_counterexample :
  ~ (forall (dirs : list bool) (msgs : list Build.JSONMessage) (d : string),
       @Build.firstMatch Docker.specDigestRegexp msgs = Some d ->
       @Build.buildVolumeInitImage Docker.specDigestRegexp
          (inr dirs) (inr (Build.streamOf msgs))
       = inr {| Build.isDirSlice := dirs; Build.imageID := d |}).
Proof.
  intros Hclaim. specialize (Hclaim [] Build.twoDigests Build.digestA eq_refl).
  vm_compute in Hclaim. discriminate.
Qed.

Lemma buildVolumeInitImage_last_match_witness :
  @Build.buildVolumeInitImage Docker.specDigestRegexp
     (inr []) (inr (Build.streamOf Build.twoDigests))
  = inr {| Build.isDirSlice := []; Build.imageID := Build.digestB |}
  /\ @Build.buildVolumeInitImage Docker.specDigestRegexp
       (inr []) (inr (Build.streamOf []))
     = inl Build.errNoImageID.
Proof.
  pose proof (@buildVolumeInitImage_last_match Docker.specDigestRegexp
                specDigestRegexp_inside) as T.
  split.
  - apply (proj1 (T [] Build.twoDigests)). reflexivity.
  - apply (proj2 (T [] [])). constructor.
Defined.

(** ** Slicing and searching strings *)

Lemma IndexByte_nil (c : ascii) : IndexByte "" c = (-1)%Z.
Proof. reflexivity. Qed.

Lemma IndexByte_cons (x c : ascii) (s : string) :
  IndexByte (String x s) c
  = if Ascii.eqb x c then 0%Z
    else if (IndexByte s c <? 0)%Z then (-1)%Z else (IndexByte s c + 1)%Z.
Proof. reflexivity. Qed.

Lemma IndexByte_lower (s : string) (c : ascii) : (-1 <= IndexByte s c)%Z.
Proof.
  induction s as [|x s IH]; rewrite ?IndexByte_nil, ?IndexByte_cons; [lia|].
  destruct (Ascii.eqb x c); [lia|].
  destruct (IndexByte s c <? 0)%Z eqn:E; lia.
Qed.

Lemma IndexByte_upper (s : string) (c : ascii) : (IndexByte s c < Z.of_nat (len s))%Z.
Proof.
  unfold len. induction s as [|x s IH]; rewrite ?IndexByte_nil, ?IndexByte_cons; cbn [String.length]; [lia|].
  destruct (Ascii.eqb x c); [lia|].
  destruct (IndexByte s c <? 0)%Z eqn:E; lia.
Qed.

Lemma len_sliceFrom (s : string) (k : nat) : len (sliceFrom s k) = (len s - k)%nat.
Proof.
  unfold len. revert s. induction k as [|k IH]; intros s; cbn [sliceFrom].
  - lia.
  - destruct s as [|x s]; [reflexivity|]. rewrite IH. reflexivity.
Qed.

Lemma len_sliceTo (s : string) (k : nat) : len (sliceTo s k) = Nat.min k (len s).
Proof.
  unfold len. revert s. induction k as [|k IH]; intros s; cbn [sliceTo].
  - reflexivity.
  - destruct s as [|x s]; [reflexivity|]. cbn [String.length]. rewrite IH. reflexivity.
Qed.

Lemma len_zero (s : string) : len s = 0%nat -> s = "".
Proof. destruct s; [reflexivity | discriminate]. Qed.

Lemma len_pos (s : string) : s <> "" -> (0 < len s)%nat.
Proof. destruct s; [congruence | cbn; lia]. Qed.

Lemma lacks_cons (c x : ascii) (s : string) :
  lacks c (String x s) <-> x <> c /\ lacks c s.
Proof.
  unfold lacks. rewrite ?IndexByte_nil, ?IndexByte_cons. destruct (Ascii.eqb_spec x c) as [->|Hne].
  - split; [discriminate | tauto].
  - pose proof (IndexByte_lower s c).
    destruct (IndexByte s c <? 0)%Z eqn:E.
    + apply Z.ltb_lt in E. split; [intros _; split; [assumption | lia] | reflexivity].
    + apply Z.ltb_ge in E. split; [lia | intros [_ ?]; lia].
Qed.

Lemma IndexByte_neg (s : string) (c : ascii) :
  (IndexByte s c <? 0)%Z = true -> lacks c s.
Proof. intros E. apply Z.ltb_lt in E. pose proof (IndexByte_lower s c). unfold lacks. lia. Qed.

(** The piece before the first [c] holds no [c]. *)
Lemma sliceTo_IndexByte_lacks (s : string) (c : ascii) :
  (0 <= IndexByte s c)%Z -> lacks c (sliceTo s (Z.to_nat (IndexByte s c))).
Proof.
  induction s as [|x s IH]; rewrite ?IndexByte_nil, ?IndexByte_cons; [lia|].
  destruct (Ascii.eqb_spec x c) as [->|Hne].
  - intros _. reflexivity.
  - destruct (IndexByte s c <? 0)%Z eqn:E; [lia|]. apply Z.ltb_ge in E. intros _.
    replace (Z.to_nat (IndexByte s c + 1)) with (S (Z.to_nat (IndexByte s c))) by lia.
    cbn [sliceTo]. apply lacks_cons. split; [assumption | now apply IH].
Qed.

(** A string splits at the first [c]. *)
Lemma split_at_IndexByte (s : string) (c : ascii) :
  (0 <= IndexByte s c)%Z ->
  s = sliceTo s (Z.to_nat (IndexByte s c))
        ++ String c (sliceFrom s (Z.to_nat (IndexByte s c + 1))).
Proof.
  induction s as [|x s IH]; rewrite ?IndexByte_nil, ?IndexByte_cons; [lia|].
  destruct (Ascii.eqb_spec x c) as [->|Hne].
  - intros _. reflexivity.
  - destruct (IndexByte s c <? 0)%Z eqn:E; [lia|]. apply Z.ltb_ge in E. intros _.
    replace (Z.to_nat (IndexByte s c + 1 + 1)) with (S (Z.to_nat (IndexByte s c + 1))) by lia.
    replace (Z.to_nat (IndexByte s c + 1)) with (S (Z.to_nat (IndexByte s c))) at 1 by lia.
    cbn [sliceTo sliceFrom]. rewrite str_app_cons. f_equal. now apply IH.
Qed.

Lemma splitAcc_lacks (sep : ascii) (s acc : string) :
  lacks sep s -> splitAcc sep s acc = [acc ++ s].
Proof.
  revert acc. induction s as [|x s IH]; intros acc Hl; cbn [splitAcc].
  - now rewrite str_app_nil_r.
  - apply lacks_cons in Hl as [Hne Hl]. apply Ascii.eqb_neq in Hne. rewrite Hne.
    rewrite IH by assumption. rewrite str_app_assoc. reflexivity.
Qed.

Lemma splitAcc_app (sep : ascii) (a b acc : string) :
  lacks sep a ->
  splitAcc sep (a ++ String sep b) acc = (acc ++ a) :: splitAcc sep b "".
Proof.
  revert acc. induction a as [|x a IH]; intros acc Hl.
  - cbn [splitAcc]. rewrite str_app_nil_l. cbn [splitAcc].
    rewrite Ascii.eqb_refl, str_app_nil_r. reflexivity.
  - apply lacks_cons in Hl as [Hne Hl]. apply Ascii.eqb_neq in Hne.
    rewrite str_app_cons. cbn [splitAcc]. rewrite Hne.
    rewrite IH by assumption. rewrite str_app_assoc. reflexivity.
Qed.

(** Appending a separator and a piece without separators adds one piece. *)
Lemma splitAcc_snoc (sep : ascii) (a c acc : string) :
  lacks sep c ->
  splitAcc sep (a ++ String sep c) acc = (splitAcc sep a acc ++ [c])%list.
Proof.
  intros Hc. revert acc. induction a as [|x a IH]; intros acc.
  - rewrite str_app_nil_l. cbn [splitAcc]. rewrite Ascii.eqb_refl.
    rewrite splitAcc_lacks by assumption. reflexivity.
  - rewrite str_app_cons. cbn [splitAcc]. destruct (Ascii.eqb x sep).
    + rewrite IH. reflexivity.
    + apply IH.
Qed.

Lemma components_snoc (r c : string) :
  c <> "" -> lacks slash c ->
  components (r ++ "/" ++ c) = (components r ++ [c])%list.
Proof.
  intros Hne Hl. unfold components, Split.
  change ("/" ++ c) with (String slash c).
  rewrite splitAcc_snoc by assumption. rewrite List.filter_app. f_equal.
  cbn [List.filter]. unfold nonEmpty. apply String.eqb_neq in Hne. rewrite Hne.
  reflexivity.
Qed.

(** The components of a name, read off the way the loops consume it. *)
Lemma components_step (s : string) :
  s <> "" ->
  let p := IndexByte s slash in
  components s
  = if (p <? 0)%Z then [s]
    else ((if String.eqb (sliceTo s (Z.to_nat p)) "" then []
           else [sliceTo s (Z.to_nat p)])
          ++ components (sliceFrom s (Z.to_nat (p + 1))))%list.
Proof.
  intros Hne p. unfold components, Split.
  destruct (p <? 0)%Z eqn:E.
  - rewrite splitAcc_lacks by now apply IndexByte_neg.
    cbn [List.filter]. rewrite str_app_nil_l. unfold nonEmpty.
    apply String.eqb_neq in Hne. rewrite Hne. reflexivity.
  - apply Z.ltb_ge in E. rewrite (split_at_IndexByte s slash E) at 1.
    rewrite splitAcc_app by now apply sliceTo_IndexByte_lacks.
    rewrite str_app_nil_l. cbn [List.filter]. unfold nonEmpty. fold p.
    destruct (String.eqb (sliceTo s (Z.to_nat p)) ""); reflexivity.
Qed.

(** ** Executions *)

Lemma bind_Ret {A B} (m : Exec A) (f : A -> Exec B) (b : B) :
  m ≫= f = Ret b -> exists a, m = Ret a /\ f a = Ret b.
Proof. destruct m as [a| |]; cbn; [eauto | discriminate | discriminate]. Qed.

Lemma terminates_bind {A B} (m : Exec A) (f : A -> Exec B) :
  terminates m -> (forall a, m = Ret a -> terminates (f a)) -> terminates (m ≫= f).
Proof.
  unfold terminates. destruct m as [a| |]; cbn; intros Hm Hf;
    [now apply Hf | discriminate | congruence].
Qed.

Lemma terminates_Ret {A} (a : A) : terminates (Ret a).
Proof. discriminate. Qed.

Lemma terminates_Panic {A} : terminates (@Panic A).
Proof. discriminate. Qed.

Create HintDb exec.
#[local] Hint Resolve terminates_Ret terminates_Panic : exec.

(** Splits the goal along the outcome of the next call of an execution. *)
Ltac exec_case m :=
  let E := fresh "E" in
  destruct m eqn:E; cbn [mbind Exec_bind mret Exec_ret];
  try discriminate; auto with exec.

(** ** The walk of [EvalSymlinks] *)

Section EvalSymlinksProofs.
Import FileMode Fs.
Context `{NameValidator}.

Lemma deref_Ret (fs : InMemoryFileSystem) (l : loc) (nd : node) :
  deref fs l = Ret nd <-> store fs !! l = Some nd.
Proof.
  unfold deref. destruct (store fs !! l); split; intros E; try discriminate;
    congruence.
Qed.

Lemma deref_terminates (fs : InMemoryFileSystem) (l : loc) : terminates (deref fs l).
Proof. unfold deref. destruct (store fs !! l); auto with exec. Qed.

Lemma lookupIn_terminates (fs : InMemoryFileSystem) (dir : list loc) (c : string) :
  terminates (lookupIn fs dir c).
Proof.
  induction dir as [|x dir IH]; cbn [lookupIn]; [auto with exec|].
  apply terminates_bind; [apply deref_terminates|].
  intros nd _. destruct (String.eqb (name nd) c); auto with exec.
Qed.

Lemma dirLookup_terminates (fs : InMemoryFileSystem) (nd : node) (c : string) :
  terminates (dirLookup fs nd c).
Proof.
  unfold dirLookup. destruct (extra nd); [auto with exec | apply lookupIn_terminates].
Qed.

Lemma validateNameComp_terminates (c : string) : terminates (validateNameComp c).
Proof. unfold validateNameComp. destruct (nameCompOk c); auto with exec. Qed.

Lemma updateFromChildN_terminates fs h childN nameComp :
  terminates (updateFromChildN fs h childN nameComp).
Proof.
  unfold updateFromChildN. apply terminates_bind; [apply deref_terminates|].
  intros child _.
  destruct (negb (Z.land (mode child) ModeSymlink =? 0)%Z); [|auto with exec].
  cbn [links]. destruct (255 <? links h + 1)%Z; [auto with exec|].
  destruct (extra child) as [target|]; [|auto with exec].
  destruct (targetIsAbs target); cbn [nameRem];
    destruct (negb (String.eqb (nameRem h) "")); auto with exec.
Qed.

Lemma runBody_terminates fs h : terminates (runBody fs h).
Proof.
  unfold runBody.
  destruct (negb (String.eqb (getNameComp h (IndexByte (nameRem h) slash)) ""));
    [|auto with exec].
  apply terminates_bind; [apply validateNameComp_terminates|]. intros _ _.
  apply terminates_bind; [apply deref_terminates|]. intros hn _.
  destruct (Z.land (mode hn) ModeDir =? 0)%Z; [auto with exec|].
  apply terminates_bind; [apply dirLookup_terminates|]. intros [childN|] _;
    [|auto with exec].
  apply terminates_bind; [apply deref_terminates|]. intros child _.
  destruct (err child); [auto with exec|].
  apply terminates_bind; [apply updateFromChildN_terminates|].
  intros [h' [e|]] _; auto with exec.
Qed.

Lemma walkBudget_mu fs nameRem : walkBudget fs nameRem = mu fs 0 nameRem.
Proof. reflexivity. Qed.

Lemma maxTarget_bound (fs : InMemoryFileSystem) (l : loc) (nd : node) :
  store fs !! l = Some nd -> (targetLen nd <= maxTarget fs)%nat.
Proof.
  unfold maxTarget. generalize (store fs). intros st. revert l.
  induction st as [|x st IH]; intros l Hl; [discriminate|].
  cbn [fold_right]. destruct l as [|l]; cbn in Hl.
  - injection Hl as ->. lia.
  - specialize (IH _ Hl). lia.
Qed.

(** Consuming a component shortens the name. *)
Lemma rest_shorter (s : string) :
  s <> "" ->
  let p := IndexByte s slash in
  (len (if (p <? 0)%Z then "" else sliceFrom s (Z.to_nat (p + 1))) < len s)%nat.
Proof.
  intros Hne p. pose proof (len_pos s Hne). pose proof (IndexByte_upper s slash).
  destruct (p <? 0)%Z eqn:E; [exact H0|].
  apply Z.ltb_ge in E. rewrite len_sliceFrom. fold p in H1. lia.
Qed.

Lemma updateNameRem_shorter (h : evalSymlinksHelper) :
  nameRem h <> "" ->
  let h' := updateNameRemFromSlashPos h (IndexByte (nameRem h) slash) in
  (len (nameRem h') < len (nameRem h))%nat
  /\ n h' = n h /\ links h' = links h /\ resolved h' = resolved h.
Proof.
  intros Hne h'. subst h'. unfold updateNameRemFromSlashPos.
  pose proof (rest_shorter _ Hne) as Hs. cbv zeta in Hs.
  destruct (IndexByte (nameRem h) slash <? 0)%Z; cbn [nameRem n links resolved];
    auto.
Qed.

(** What [updateFromChildN] does when it goes on. *)
Lemma updateFromChildN_measure fs h childN nameComp h' :
  (0 <= links h <= 255)%Z ->
  updateFromChildN fs h childN nameComp = Ret (h', None) ->
  (0 <= links h' <= 255)%Z
  /\ (mu fs (links h') (nameRem h') <= mu fs (links h) (nameRem h))%nat.
Proof.
  intros Hl. unfold updateFromChildN.
  exec_case (deref fs childN). apply deref_Ret in E.
  destruct (negb (Z.land (mode a) ModeSymlink =? 0)%Z).
  - cbn [links]. destruct (255 <? links h + 1)%Z eqn:El; [discriminate|].
    apply Z.ltb_ge in El.
    destruct (extra a) as [target|] eqn:Ex; [|discriminate].
    pose proof (maxTarget_bound fs _ _ E) as Hm. unfold targetLen in Hm.
    rewrite Ex in Hm.
    assert (Hj : forall j, (len (sliceFrom target j) <= maxTarget fs)%nat)
      by (intros j; rewrite len_sliceFrom; lia).
    unfold mu.
    destruct (targetIsAbs target); cbn [nameRem links];
      destruct (negb (String.eqb (nameRem h) "")); intros [= <-];
      cbn [links nameRem]; rewrite ?len_app;
      (split; [lia|]);
      pose proof (Hj 0%nat); pose proof (Hj 1%nat);
      change (len "/") with 1%nat;
      replace (256 - Z.to_nat (links h))%nat
        with (S (256 - Z.to_nat (links h + 1)))%nat by lia;
      cbn [Nat.mul]; cbn [sliceFrom] in *;
      generalize ((256 - Z.to_nat (links h + 1)) * (maxTarget fs + 2))%nat; lia.
  - intros [= <-]. cbn [links nameRem]. split; [lia | lia].
Qed.

Lemma runBody_measure fs h h' :
  (0 <= links h <= 255)%Z -> nameRem h <> "" ->
  runBody fs h = Ret (inl h') ->
  (0 <= links h' <= 255)%Z
  /\ (mu fs (links h') (nameRem h') < mu fs (links h) (nameRem h))%nat.
Proof.
  intros Hl Hne. unfold runBody.
  destruct (updateNameRem_shorter h Hne) as (Hs & _ & Hlk & _). cbv zeta in Hs.
  set (h1 := updateNameRemFromSlashPos h (IndexByte (nameRem h) slash)) in *.
  destruct (negb (String.eqb (getNameComp h (IndexByte (nameRem h) slash)) "")).
  - exec_case (validateNameComp (getNameComp h (IndexByte (nameRem h) slash))).
    exec_case (deref fs (n h)).
    destruct (Z.land (mode a0) ModeDir =? 0)%Z; [discriminate|].
    exec_case (dirLookup fs a0 (getNameComp h (IndexByte (nameRem h) slash))).
    destruct a1 as [childN|]; [|discriminate].
    exec_case (deref fs childN).
    destruct (err a1); [discriminate|].
    exec_case (updateFromChildN fs h1 childN (getNameComp h (IndexByte (nameRem h) slash))).
    destruct a2 as [h2 [e|]]; [discriminate|]. intros [= <-].
    apply updateFromChildN_measure in E3; [|lia].
    destruct E3 as [Hl2 Hm2]. split; [assumption|].
    unfold mu in *. rewrite Hlk in Hm2. lia.
  - intros [= <-]. rewrite Hlk. split; [assumption|]. unfold mu. lia.
Qed.

Lemma run_terminates (fuel : nat) fs h :
  (0 <= links h <= 255)%Z ->
  (mu fs (links h) (nameRem h) < fuel)%nat ->
  terminates (run fuel fs h).
Proof.
  revert h. induction fuel as [|fuel IH]; intros h Hl Hm; [lia|].
  cbn [run]. destruct (String.eqb (nameRem h) "") eqn:En; [auto with exec|].
  apply String.eqb_neq in En.
  apply terminates_bind; [apply runBody_terminates|].
  intros [h'|out] Hb; [|auto with exec].
  destruct (runBody_measure _ _ _ Hl En Hb) as [Hl' Hm'].
  apply IH; [assumption | lia].
Qed.

(** The outcome of the loop does not depend on the budget, once it
    suffices. *)
Lemma run_fuel_mono (fuel fuel' : nat) fs h :
  (fuel <= fuel')%nat -> terminates (run fuel fs h) ->
  run fuel' fs h = run fuel fs h.
Proof.
  revert fuel' h. induction fuel as [|fuel IH]; intros fuel' h Hle Ht.
  - cbn [run] in *. destruct fuel'; cbn [run];
      destruct (String.eqb (nameRem h) ""); try reflexivity;
      exfalso; now apply Ht.
  - destruct fuel' as [|fuel']; [lia|]. cbn [run] in *.
    destruct (String.eqb (nameRem h) ""); [reflexivity|].
    destruct (runBody fs h) as [[h'|out]| |]; cbn [mbind Exec_bind] in *;
      try reflexivity.
    apply IH; [lia | assumption].
Qed.

Lemma run_budget_suffices (fuel : nat) fs h :
  links h = 0%Z -> (walkBudget fs (nameRem h) < fuel)%nat ->
  terminates (run fuel fs h)
  /\ run fuel fs h = run (S (walkBudget fs (nameRem h))) fs h.
Proof.
  intros Hl Hf.
  assert (Ht : terminates (run (S (walkBudget fs (nameRem h))) fs h)).
  { apply run_terminates; rewrite Hl; [lia|]. rewrite walkBudget_mu. lia. }
  rewrite (run_fuel_mono (S (walkBudget fs (nameRem h))) fuel) by (assumption || lia).
  split; [assumption | reflexivity].
Qed.

End EvalSymlinksProofs.

(** ** The walk of [find] *)

Section FindProofs.
Import FileMode Fs.
Context `{NameValidator}.

Lemma findLoop_terminates (fuel : nat) fs rl an n links nameRem :
  (0 <= links <= 255)%Z -> (mu fs links nameRem < fuel)%nat ->
  terminates (findLoop fuel fs rl an n links nameRem).
Proof.
  revert n links nameRem.
  induction fuel as [|fuel IH]; intros n links nameRem Hl Hm; [lia|].
  cbn [findLoop]. destruct (String.eqb nameRem "") eqn:En; [auto with exec|].
  apply String.eqb_neq in En. pose proof (rest_shorter _ En) as Hs. cbv zeta in Hs.
  set (p := IndexByte nameRem slash) in *.
  set (rest := if (p <? 0)%Z then "" else sliceFrom nameRem (Z.to_nat (p + 1))) in *.
  set (nameComp := if (p <? 0)%Z then nameRem else sliceTo nameRem (Z.to_nat p)).
  destruct (String.eqb nameComp "").
  { apply IH; [assumption | unfold mu in *; lia]. }
  apply terminates_bind; [apply validateNameComp_terminates|]. intros _ _.
  apply terminates_bind; [apply deref_terminates|]. intros hn _.
  destruct (Z.land (mode hn) ModeDir =? 0)%Z; [auto with exec|].
  apply terminates_bind; [apply dirLookup_terminates|]. intros [childN|] _;
    [|destruct an; auto with exec].
  apply terminates_bind; [apply deref_terminates|]. intros child Hc.
  apply deref_Ret in Hc.
  destruct (err child); [auto with exec|].
  destruct (negb (Z.land (mode child) ModeSymlink =? 0)%Z
            && (rl || negb (String.eqb rest ""))).
  - destruct (255 <? links + 1)%Z eqn:El; [auto with exec|]. apply Z.ltb_ge in El.
    destruct (extra child) as [target|] eqn:Ex; [|auto with exec].
    pose proof (maxTarget_bound fs _ _ Hc) as Hmax. unfold targetLen in Hmax.
    rewrite Ex in Hmax.
    apply IH; [lia|].
    assert (Hj : forall j, (len (sliceFrom target j) <= maxTarget fs)%nat)
      by (intros j; rewrite len_sliceFrom; lia).
    unfold mu in *.
    replace (256 - Z.to_nat links)%nat
      with (S (256 - Z.to_nat (links + 1)))%nat in Hm by lia.
    cbn [Nat.mul] in Hm. revert Hm.
    generalize ((256 - Z.to_nat (links + 1)) * (maxTarget fs + 2))%nat.
    intros k Hm.
    destruct (negb (String.eqb rest "")); rewrite ?len_app;
      change (len "/") with 1%nat;
      match goal with |- context [sliceFrom target ?j] => specialize (Hj j) end;
      lia.
  - apply IH; [assumption | unfold mu in *; lia].
Qed.

Lemma findLoop_fuel_mono (fuel fuel' : nat) fs rl an n links nameRem :
  (fuel <= fuel')%nat -> terminates (findLoop fuel fs rl an n links nameRem) ->
  findLoop fuel' fs rl an n links nameRem = findLoop fuel fs rl an n links nameRem.
Proof.
  revert fuel' n links nameRem.
  induction fuel as [|fuel IH]; intros fuel' n links nameRem Hle Ht.
  - cbn [findLoop] in *. destruct fuel'; cbn [findLoop];
      destruct (String.eqb nameRem ""); try reflexivity; exfalso; now apply Ht.
  - destruct fuel' as [|fuel']; [lia|]. cbn [findLoop] in *.
    destruct (String.eqb nameRem ""); [reflexivity|].
    set (p := IndexByte nameRem slash) in *.
    set (rest := if (p <? 0)%Z then "" else sliceFrom nameRem (Z.to_nat (p + 1))) in *.
    set (nameComp := if (p <? 0)%Z then nameRem else sliceTo nameRem (Z.to_nat p)) in *.
    destruct (String.eqb nameComp ""); [apply IH; [lia | assumption]|].
    destruct (validateNameComp nameComp); cbn [mbind Exec_bind] in *; try reflexivity.
    destruct (deref fs n); cbn [mbind Exec_bind] in *; try reflexivity.
    destruct (Z.land (mode a0) ModeDir =? 0)%Z; [reflexivity|].
    destruct (dirLookup fs a0 nameComp) as [[childN|]| |];
      cbn [mbind Exec_bind] in *; try reflexivity.
    destruct (deref fs childN); cbn [mbind Exec_bind] in *; try reflexivity.
    destruct (err a1); [reflexivity|].
    destruct (negb (Z.land (mode a1) ModeSymlink =? 0)%Z
              && (rl || negb (String.eqb rest ""))).
    + destruct (255 <? links + 1)%Z; [reflexivity|].
      destruct (extra a1); [|reflexivity]. apply IH; [lia | assumption].
    + apply IH; [lia | assumption].
Qed.

Lemma findFromRoot_terminates fs rl an name : terminates (findFromRoot fs rl an name).
Proof.
  unfold findFromRoot. apply terminates_bind; [apply deref_terminates|].
  intros rootN _. destruct (err rootN); [auto with exec|].
  apply findLoop_terminates; [lia|]. rewrite walkBudget_mu. lia.
Qed.

Lemma find_terminates fs name rl an : terminates (find fs name rl an).
Proof.
  unfold find. destruct (isAbs name); [apply findFromRoot_terminates|].
  apply terminates_bind; [apply findFromRoot_terminates|].
  intros [[[cwdN|] rem] [e|]] _; auto with exec.
  apply findLoop_terminates; [lia|]. rewrite walkBudget_mu. lia.
Qed.

End FindProofs.

(** ** On a well-formed store the walks panic only in [validateNameComp] *)

Section NoPanic.
Import FileMode Fs.
Context `{NameValidator}.
Variable fs : InMemoryFileSystem.
Hypothesis Hwf : wfStore fs = true.

Lemma wf_root : (root fs < length (store fs))%nat.
Proof using Hwf.
  unfold wfStore in Hwf. apply andb_true_iff in Hwf as [Hr _].
  now apply Nat.ltb_lt in Hr.
Qed.

Lemma wf_lookup (l : loc) (nd : node) :
  store fs !! l = Some nd -> wfNode fs nd = true.
Proof using Hwf.
  intros Hl. unfold wfStore in Hwf. apply andb_true_iff in Hwf as [_ Hall].
  rewrite forallb_forall in Hall. apply Hall.
  apply list_elem_of_In. eapply list_elem_of_lookup_2. eassumption.
Qed.

Lemma wf_deref (l : loc) :
  (l < length (store fs))%nat -> exists nd, deref fs l = Ret nd /\ wfNode fs nd = true.
Proof using Hwf.
  intros Hl. destruct (lookup_lt_is_Some_2 (store fs) l Hl) as [nd Hnd].
  exists nd. split; [now apply deref_Ret | now apply (wf_lookup l)].
Qed.

Lemma wf_dir (nd : node) :
  wfNode fs nd = true -> (Z.land (mode nd) ModeDir =? 0)%Z = false ->
  exists dir, extra nd = Entries dir
              /\ forallb (fun c => (c <? length (store fs))%nat) dir = true.
Proof.
  unfold wfNode. intros Hn Hd. rewrite Hd in Hn. cbn [negb] in Hn.
  apply andb_true_iff in Hn as [_ Hn].
  destruct (extra nd) as [|dir]; [discriminate|]. eauto.
Qed.

Lemma wf_link (nd : node) :
  wfNode fs nd = true -> (Z.land (mode nd) ModeSymlink =? 0)%Z = false ->
  exists target, extra nd = Bytes target.
Proof.
  unfold wfNode. intros Hn Hd. rewrite Hd in Hn. cbn [negb] in Hn.
  apply andb_true_iff in Hn as [Hn _].
  destruct (extra nd) as [t|]; [eauto | discriminate].
Qed.

Lemma lookupIn_returns (dir : list loc) (c : string) :
  forallb (fun c => (c <? length (store fs))%nat) dir = true ->
  exists r, lookupIn fs dir c = Ret r
            /\ forall l, r = Some l -> (l < length (store fs))%nat.
Proof using Hwf.
  induction dir as [|x dir IH]; cbn [lookupIn forallb]; intros Hall.
  - exists None. split; [reflexivity | discriminate].
  - apply andb_true_iff in Hall as [Hx Hall]. apply Nat.ltb_lt in Hx.
    destruct (wf_deref x Hx) as (nd & -> & _). cbn [mbind Exec_bind].
    destruct (String.eqb (name nd) c).
    + exists (Some x). split; [reflexivity|]. now intros l [= <-].
    + now apply IH.
Qed.

Lemma dirLookup_returns (nd : node) (c : string) :
  wfNode fs nd = true -> (Z.land (mode nd) ModeDir =? 0)%Z = false ->
  exists r, dirLookup fs nd c = Ret r
            /\ forall l, r = Some l -> (l < length (store fs))%nat.
Proof using Hwf.
  intros Hn Hd. destruct (wf_dir nd Hn Hd) as (dir & Hx & Hall).
  unfold dirLookup. rewrite Hx. now apply lookupIn_returns.
Qed.

Lemma updateFromChildN_returns h childN nameComp :
  (childN < length (store fs))%nat -> (n h < length (store fs))%nat ->
  exists h' e, updateFromChildN fs h childN nameComp = Ret (h', e)
               /\ (n h' < length (store fs))%nat.
Proof using Hwf.
  intros Hc Hn. unfold updateFromChildN.
  destruct (wf_deref childN Hc) as (child & -> & Hw). cbn [mbind Exec_bind].
  destruct (Z.land (mode child) ModeSymlink =? 0)%Z eqn:Es; cbn [negb].
  - eexists _, _. split; [reflexivity | assumption].
  - cbn [links]. destruct (255 <? links h + 1)%Z.
    + eexists _, _. split; [reflexivity | assumption].
    + destruct (wf_link child Hw Es) as (target & ->).
      pose proof wf_root.
      destruct (targetIsAbs target); cbn [nameRem];
        destruct (negb (String.eqb (nameRem h) ""));
        eexists _, _; (split; [reflexivity | assumption]).
Qed.

Lemma validateNameComp_ror (c : string) :
  returnsOrRejects (validateNameComp c) (fun _ => True).
Proof.
  unfold validateNameComp. destruct (nameCompOk c) eqn:E.
  - left. eauto.
  - right. eauto.
Qed.

Lemma runBody_ror h :
  (n h < length (store fs))%nat ->
  returnsOrRejects (runBody fs h)
    (fun r => forall h', r = inl h' -> (n h' < length (store fs))%nat).
Proof using Hwf.
  intros Hn. unfold runBody.
  set (p := IndexByte (nameRem h) slash).
  assert (Hu : n (updateNameRemFromSlashPos h p) = n h)
    by (unfold updateNameRemFromSlashPos; destruct (p <? 0)%Z; reflexivity).
  destruct (negb (String.eqb (getNameComp h p) "")).
  - destruct (validateNameComp_ror (getNameComp h p)) as [([] & -> & _)|[-> Hrej]];
      [|right; split; [reflexivity | assumption]].
    cbn [mbind Exec_bind]. left.
    destruct (wf_deref _ Hn) as (hn & -> & Hw). cbn [mbind Exec_bind].
    destruct (Z.land (mode hn) ModeDir =? 0)%Z eqn:Ed.
    { eexists. split; [reflexivity | discriminate]. }
    destruct (dirLookup_returns hn (getNameComp h p) Hw Ed) as (r & -> & Hr).
    cbn [mbind Exec_bind]. destruct r as [childN|].
    2:{ eexists. split; [reflexivity | discriminate]. }
    specialize (Hr _ eq_refl).
    destruct (wf_deref _ Hr) as (child & -> & _). cbn [mbind Exec_bind].
    destruct (err child).
    { eexists. split; [reflexivity | discriminate]. }
    destruct (updateFromChildN_returns (updateNameRemFromSlashPos h p) childN
                (getNameComp h p) Hr) as (h' & e & -> & Hn'); [now rewrite Hu|].
    cbn [mbind Exec_bind]. destruct e.
    + eexists. split; [reflexivity | discriminate].
    + eexists. split; [reflexivity|]. now intros h'' [= <-].
  - left. eexists. split; [reflexivity|]. intros h' [= <-]. now rewrite Hu.
Qed.

Lemma run_ror (fuel : nat) h :
  (n h < length (store fs))%nat -> (0 <= links h <= 255)%Z ->
  (mu fs (links h) (nameRem h) < fuel)%nat ->
  returnsOrRejects (run fuel fs h) (fun _ => True).
Proof using Hwf.
  revert h. induction fuel as [|fuel IH]; intros h Hn Hl Hm; [lia|].
  cbn [run]. destruct (String.eqb (nameRem h) "") eqn:En; [left; eauto|].
  apply String.eqb_neq in En.
  destruct (runBody_ror h Hn) as [(r & Hr & Hn')|[Hp Hrej]].
  - rewrite Hr. cbn [mbind Exec_bind]. destruct r as [h'|out]; [|left; eauto].
    destruct (runBody_measure _ _ _ Hl En Hr) as [Hl' Hm'].
    apply IH; [now apply Hn' | assumption | lia].
  - rewrite Hp. right. split; [reflexivity | assumption].
Qed.

Lemma findLoop_ror (fuel : nat) rl an n links nameRem :
  (n < length (store fs))%nat -> (0 <= links <= 255)%Z ->
  (mu fs links nameRem < fuel)%nat ->
  returnsOrRejects (findLoop fuel fs rl an n links nameRem)
    (fun '(n', _, e) =>
       (forall l, n' = Some l -> (l < length (store fs))%nat)
       /\ (e = None -> n' <> None)).
Proof using Hwf.
  revert n links nameRem.
  induction fuel as [|fuel IH]; intros n links nameRem Hn Hl Hm; [lia|].
  cbn [findLoop]. destruct (String.eqb nameRem "") eqn:En.
  { left. eexists. split; [reflexivity|]. split; [now intros l [= <-] | discriminate]. }
  apply String.eqb_neq in En. pose proof (rest_shorter _ En) as Hs. cbv zeta in Hs.
  set (p := IndexByte nameRem slash) in *.
  set (rest := if (p <? 0)%Z then "" else sliceFrom nameRem (Z.to_nat (p + 1))) in *.
  set (nameComp := if (p <? 0)%Z then nameRem else sliceTo nameRem (Z.to_nat p)).
  destruct (String.eqb nameComp "").
  { apply IH; [assumption | assumption | unfold mu in *; lia]. }
  destruct (validateNameComp_ror nameComp) as [([] & -> & _)|[-> Hrej]];
    [|right; split; [reflexivity | assumption]].
  cbn [mbind Exec_bind].
  destruct (wf_deref _ Hn) as (hn & -> & Hw). cbn [mbind Exec_bind].
  destruct (Z.land (mode hn) ModeDir =? 0)%Z eqn:Ed.
  { left. eexists. split; [reflexivity|]. split; discriminate. }
  destruct (dirLookup_returns hn nameComp Hw Ed) as (r & -> & Hr).
  cbn [mbind Exec_bind]. destruct r as [childN|].
  2:{ left. destruct an; eexists; (split; [reflexivity|]);
        (split; [try discriminate; now intros l [= <-] | discriminate]). }
  specialize (Hr _ eq_refl).
  destruct (wf_deref _ Hr) as (child & Hc & Hwc). rewrite Hc. cbn [mbind Exec_bind].
  apply deref_Ret in Hc.
  destruct (err child).
  { left. eexists. split; [reflexivity|]. split; discriminate. }
  destruct (Z.land (mode child) ModeSymlink =? 0)%Z eqn:Es; cbn [negb andb].
  { apply IH; [assumption | assumption | unfold mu in *; lia]. }
  destruct (rl || negb (String.eqb rest "")).
  2:{ apply IH; [assumption | assumption | unfold mu in *; lia]. }
  destruct (255 <? links + 1)%Z eqn:El.
  { left. eexists. split; [reflexivity|]. split; discriminate. }
  apply Z.ltb_ge in El. destruct (wf_link child Hwc Es) as (target & Hx). rewrite Hx.
  pose proof (maxTarget_bound fs _ _ Hc) as Hmax. unfold targetLen in Hmax.
  rewrite Hx in Hmax.
  apply IH; [destruct (targetIsAbs target); [apply wf_root | assumption] | lia |].
  assert (Hj : forall j, (len (sliceFrom target j) <= maxTarget fs)%nat)
    by (intros j; rewrite len_sliceFrom; lia).
  unfold mu in *.
  replace (256 - Z.to_nat links)%nat
    with (S (256 - Z.to_nat (links + 1)))%nat in Hm by lia.
  cbn [Nat.mul] in Hm. revert Hm.
  generalize ((256 - Z.to_nat (links + 1)) * (maxTarget fs + 2))%nat.
  intros k Hm.
  destruct (negb (String.eqb rest "")); rewrite ?len_app;
    change (len "/") with 1%nat;
    match goal with |- context [sliceFrom target ?j] => specialize (Hj j) end;
    lia.
Qed.

Lemma findFromRoot_ror rl an name :
  returnsOrRejects (findFromRoot fs rl an name)
    (fun '(n', _, e) =>
       (forall l, n' = Some l -> (l < length (store fs))%nat)
       /\ (e = None -> n' <> None)).
Proof using Hwf.
  unfold findFromRoot. destruct (wf_deref _ wf_root) as (rootN & -> & _).
  cbn [mbind Exec_bind]. destruct (err rootN).
  { left. eexists. split; [reflexivity|]. split; discriminate. }
  apply findLoop_ror; [apply wf_root | lia | rewrite walkBudget_mu; lia].
Qed.

Lemma find_ror name rl an :
  returnsOrRejects (find fs name rl an)
    (fun '(n', _, e) =>
       (forall l, n' = Some l -> (l < length (store fs))%nat)
       /\ (e = None -> n' <> None)).
Proof using Hwf.
  unfold find. destruct (isAbs name); [apply findFromRoot_ror|].
  destruct (findFromRoot_ror true false (cwd fs))
    as [([[n' rem] e] & -> & Hn & He)|[-> Hrej]];
    [|right; split; [reflexivity | assumption]].
  cbn [mbind Exec_bind]. destruct e as [e|].
  { left. destruct n'; eexists; (split; [reflexivity|]); split; discriminate. }
  destruct n' as [cwdN|]; [|now exfalso; apply He].
  apply findLoop_ror; [now apply Hn | lia | rewrite walkBudget_mu; lia].
Qed.

Lemma EvalSymlinks_ror path :
  returnsOrRejects (EvalSymlinks fs path) (fun _ => True).
Proof using Hwf.
  unfold EvalSymlinks. destruct (isAbs path).
  - destruct (wf_deref _ wf_root) as (rootN & -> & _). cbn [mbind Exec_bind].
    destruct (err rootN); [left; eauto|].
    match goal with |- context [run ?f fs ?h] =>
      destruct (run_ror f h) as [([h' e] & -> & _)|[-> Hrej]] end;
      cbn [n links nameRem];
      [apply wf_root | lia | rewrite walkBudget_mu; lia | left; cbn; eauto
      | right; split; [reflexivity | assumption]].
  - destruct (find_ror (cwd fs) false true)
      as [([[n' rem] e] & -> & Hn & He)|[-> Hrej]];
      [|right; split; [reflexivity | assumption]].
    cbn [mbind Exec_bind]. destruct e as [e|]; [left; eauto|].
    destruct n' as [hn|]; [|now exfalso; apply He].
    match goal with |- context [run ?f fs ?h] =>
      destruct (run_ror f h) as [([h' e] & -> & _)|[-> Hrej]] end;
      cbn [n links nameRem];
      [now apply Hn | lia | rewrite walkBudget_mu; lia | left; cbn; eauto
      | right; split; [reflexivity | assumption]].
Qed.

End NoPanic.

(** ** The link budget and the result of [EvalSymlinks] *)

Section EvalSymlinksResult.
Import FileMode Fs.
Context `{NameValidator}.

Lemma updateFromChildN_too_many fs h childN child nameComp :
  deref fs childN = Ret child -> IsSymlink (mode child) = true ->
  (255 <= links h)%Z ->
  updateFromChildN fs h childN nameComp
  = Ret ({| n := n h; links := links h + 1; resolved := resolved h;
            nameRem := nameRem h |}, Some errTooManyLinks).
Proof.
  intros Hc Hs Hl. unfold updateFromChildN. rewrite Hc. cbn [mbind Exec_bind].
  unfold IsSymlink in Hs. rewrite Hs. cbn [links].
  replace (255 <? links h + 1)%Z with true by (symmetry; apply Z.ltb_lt; lia).
  reflexivity.
Qed.

Lemma updateFromChildN_substitutes fs h childN child target nameComp :
  deref fs childN = Ret child -> IsSymlink (mode child) = true ->
  extra child = Bytes target -> (links h < 255)%Z ->
  updateFromChildN fs h childN nameComp
  = Ret ({| n := if targetIsAbs target then root fs else n h;
            links := links h + 1;
            resolved := if targetIsAbs target then "/" else resolved h;
            nameRem := sliceFrom target (if targetIsAbs target then 1 else 0)
                         ++ (if String.eqb (nameRem h) "" then ""
                             else "/" ++ nameRem h) |}, None).
Proof.
  intros Hc Hs Hx Hl. unfold updateFromChildN. rewrite Hc. cbn [mbind Exec_bind].
  unfold IsSymlink in Hs. rewrite Hs, Hx. cbn [links].
  replace (255 <? links h + 1)%Z with false by (symmetry; apply Z.ltb_ge; lia).
  destruct (targetIsAbs target); cbn [nameRem n links resolved];
    destruct (String.eqb (nameRem h) ""); cbn [negb];
    rewrite ?str_app_nil_r; reflexivity.
Qed.

Lemma updateFromChildN_links fs h childN nameComp h' e :
  (0 <= links h <= 255)%Z ->
  updateFromChildN fs h childN nameComp = Ret (h', e) ->
  (0 <= links h' <= 256)%Z /\ ((255 < links h')%Z -> e = Some errTooManyLinks).
Proof.
  intros Hl. unfold updateFromChildN. exec_case (deref fs childN).
  destruct (negb (Z.land (mode a) ModeSymlink =? 0)%Z).
  - cbn [links]. destruct (255 <? links h + 1)%Z eqn:El.
    + intros [= <- <-]. cbn [links]. split; [lia | reflexivity].
    + apply Z.ltb_ge in El. destruct (extra a) as [target|]; [|discriminate].
      destruct (targetIsAbs target); cbn [nameRem];
        destruct (negb (String.eqb (nameRem h) "")); intros [= <- <-];
        cbn [links]; split; lia.
  - intros [= <- <-]. cbn [links]. split; lia.
Qed.

Lemma runBody_links fs h h' e :
  (0 <= links h <= 255)%Z ->
  runBody fs h = Ret (inr (h', e)) ->
  (0 <= links h' <= 256)%Z /\ ((255 < links h')%Z -> e = Some errTooManyLinks).
Proof.
  intros Hl. unfold runBody.
  set (p := IndexByte (nameRem h) slash).
  assert (Hu : links (updateNameRemFromSlashPos h p) = links h)
    by (unfold updateNameRemFromSlashPos; destruct (p <? 0)%Z; reflexivity).
  destruct (negb (String.eqb (getNameComp h p) "")); [|discriminate].
  exec_case (validateNameComp (getNameComp h p)).
  exec_case (deref fs (n h)).
  destruct (Z.land (mode a0) ModeDir =? 0)%Z.
  { intros [= <- <-]. split; lia. }
  exec_case (dirLookup fs a0 (getNameComp h p)).
  destruct a1 as [childN|].
  2:{ intros [= <- <-]. split; lia. }
  exec_case (deref fs childN).
  destruct (err a1).
  { intros [= <- <-]. split; lia. }
  exec_case (updateFromChildN fs (updateNameRemFromSlashPos h p) childN (getNameComp h p)).
  destruct a2 as [h2 [e2|]]; [|discriminate]. intros [= <- <-].
  apply updateFromChildN_links in E3; [assumption | lia].
Qed.

Lemma run_links (fuel : nat) fs h h' e :
  (0 <= links h <= 255)%Z ->
  run fuel fs h = Ret (h', e) ->
  (0 <= links h' <= 256)%Z /\ ((255 < links h')%Z -> e = Some errTooManyLinks).
Proof.
  revert h. induction fuel as [|fuel IH]; intros h Hl; cbn [run];
    destruct (String.eqb (nameRem h) "") eqn:En;
    try (intros [= <- <-]; split; lia); try discriminate.
  apply String.eqb_neq in En.
  exec_case (runBody fs h). destruct a as [h1|[h1 e1]].
  - apply IH. now destruct (runBody_measure _ _ _ Hl En E).
  - intros [= <- <-]. now apply runBody_links in E.
Qed.

(** C6. [EvalSymlinks] terminates on every path and every file system: the
    walk never exhausts its budget, and on a well-formed store it returns a
    path and an error value, unless [validateNameComp] rejects a component.
    Meeting a link increments [links]; with 255 substitutions already
    performed it fails with [errTooManyLinks], and otherwise it prepends the
    target to the unconsumed rest of the name, an absolute target resetting
    the walk to the root. *)
Theorem EvalSymlinks_terminates (fs : InMemoryFileSystem) (path : string) :
  terminates (EvalSymlinks fs path)
  /\ (wfStore fs = true ->
      (exists r e, EvalSymlinks fs path = Ret (r, e))
      \/ (EvalSymlinks fs path = Panic /\ exists c, nameCompOk c = false))
  /\ (forall h childN child nameComp,
        deref fs childN = Ret child -> IsSymlink (mode child) = true ->
        ((255 <= links h)%Z ->
         updateFromChildN fs h childN nameComp
         = Ret ({| n := n h; links := links h + 1; resolved := resolved h;
                   nameRem := nameRem h |}, Some errTooManyLinks))
        /\ (forall target, extra child = Bytes target -> (links h < 255)%Z ->
            updateFromChildN fs h childN nameComp
            = Ret ({| n := if targetIsAbs target then root fs else n h;
                      links := links h + 1;
                      resolved := if targetIsAbs target then "/" else resolved h;
                      nameRem := sliceFrom target (if targetIsAbs target then 1 else 0)
                                   ++ (if String.eqb (nameRem h) "" then ""
                                       else "/" ++ nameRem h) |}, None)))
  /\ (forall fuel h h' e,
        (0 <= links h <= 255)%Z -> run fuel fs h = Ret (h', e) ->
        (0 <= links h' <= 256)%Z
        /\ ((255 < links h')%Z -> e = Some errTooManyLinks)).
Proof.
  split; [|split; [|split]].
  - unfold EvalSymlinks. destruct (isAbs path).
    + apply terminates_bind; [apply deref_terminates|]. intros rootN _.
      destruct (err rootN); [auto with exec|].
      apply terminates_bind.
      * apply run_terminates; cbn [links nameRem]; [lia|].
        rewrite walkBudget_mu. lia.
      * intros [h e] _. auto with exec.
    + apply terminates_bind; [apply find_terminates|].
      intros [[hn rem] [e|]] _; [auto with exec|].
      destruct hn as [hn|]; [|auto with exec].
      apply terminates_bind.
      * apply run_terminates; cbn [links nameRem]; [lia|].
        rewrite walkBudget_mu. lia.
      * intros [h e] _. auto with exec.
  - intros Hwf. destruct (EvalSymlinks_ror fs Hwf path) as [([r e] & He & _)|Hp].
    + left. eauto.
    + now right.
  - intros h childN child nameComp Hc Hs. split.
    + intros Hl. eapply updateFromChildN_too_many; eassumption.
    + intros target Hx Hl. eapply updateFromChildN_substitutes; eassumption.
  - intros fuel h h' e. apply run_links.
Qed.

End EvalSymlinksResult.

Lemma EvalSymlinks_terminates_witness :
  (exists r e,
      @Fs.EvalSymlinks Scenario.specValidator Scenario.vfs "dir3/symlink/file"
      = Ret (r, e))
  \/ (@Fs.EvalSymlinks Scenario.specValidator Scenario.vfs "dir3/symlink/file" = Panic
      /\ exists c, Scenario.specValidator c = false).
Proof.
  apply (proj1 (proj2 (@EvalSymlinks_terminates Scenario.specValidator Scenario.vfs
                         "dir3/symlink/file"))).
  vm_compute. reflexivity.
Defined.

(** ** The path [EvalSymlinks] returns holds no links *)

Section NoSymlinkComponents.
Import FileMode Fs.
Context `{NameValidator}.

Lemma nameComp_lacks_slash (h : evalSymlinksHelper) :
  lacks slash (getNameComp h (IndexByte (nameRem h) slash)).
Proof.
  unfold getNameComp. destruct (IndexByte (nameRem h) slash <? 0)%Z eqn:E.
  - now apply IndexByte_neg.
  - apply Z.ltb_ge in E. now apply sliceTo_IndexByte_lacks.
Qed.

Lemma prefix_nil (s : string) : String.prefix "" s = true.
Proof. destruct s; reflexivity. Qed.

Lemma rootAnchored_snoc (r c : string) :
  c <> "" -> lacks slash c -> rootAnchored (r ++ "/" ++ c) = rootAnchored r.
Proof.
  intros Hne Hl. destruct c as [|x c]; [congruence|].
  apply lacks_cons in Hl as [Hx _].
  unfold rootAnchored, HasPrefix.
  change ("/" ++ String x c) with (String "/" (String x c)).
  destruct r as [|a [|b r]]; rewrite ?str_app_cons, ?str_app_nil_l;
    cbn [String.eqb String.prefix].
  - destruct (Ascii.eqb_spec "/" "/"); [|congruence].
    destruct (ascii_dec "/" "/"); [|congruence].
    destruct (ascii_dec "/" x) as [<-|]; [now destruct Hx|]. reflexivity.
  - destruct (Ascii.eqb_spec a "/") as [->|Ha]; destruct (ascii_dec "/" "/");
      try congruence; try reflexivity.
    destruct (ascii_dec "/" a); [congruence | reflexivity].
  - destruct (Ascii.eqb_spec a "/") as [->|Ha].
    + destruct (ascii_dec "/" "/"); [|congruence].
      destruct (ascii_dec "/" b); rewrite ?prefix_nil; reflexivity.
    + destruct (ascii_dec "/" a); [congruence | reflexivity].
Qed.

Lemma walkPlain_snoc fs (l l' l'' : loc) (comps : list string) (c : string) :
  walkPlain fs l comps = Some l' -> stepPlain fs l' c = Some l'' ->
  walkPlain fs l (comps ++ [c]) = Some l''.
Proof.
  revert l. induction comps as [|x comps IH]; intros l; cbn [walkPlain app].
  - intros [= ->] ->. reflexivity.
  - destruct (stepPlain fs l x); [apply IH | discriminate].
Qed.

Lemma updateFromChildN_tracked fs cwdN h hn childN child h' :
  let nameComp := getNameComp h (IndexByte (nameRem h) slash) in
  let h1 := updateNameRemFromSlashPos h (IndexByte (nameRem h) slash) in
  nameComp <> "" ->
  tracked fs cwdN h ->
  deref fs (n h) = Ret hn -> (Z.land (mode hn) ModeDir =? 0)%Z = false ->
  dirLookup fs hn nameComp = Ret (Some childN) ->
  deref fs childN = Ret child -> err child = None ->
  updateFromChildN fs h1 childN nameComp = Ret (h', None) ->
  tracked fs cwdN h'.
Proof.
  intros nameComp h1 Hne Ht Hn Hd Hlk Hc He.
  assert (H1 : n h1 = n h /\ resolved h1 = resolved h).
  { subst h1. unfold updateNameRemFromSlashPos.
    destruct (IndexByte (nameRem h) slash <? 0)%Z; split; reflexivity. }
  destruct H1 as [Hn1 Hr1].
  unfold updateFromChildN. rewrite Hc. cbn [mbind Exec_bind].
  destruct (Z.land (mode child) ModeSymlink =? 0)%Z eqn:Es; cbn [negb].
  - intros [= <-]. unfold tracked. cbn [resolved n]. rewrite Hr1.
    pose proof (nameComp_lacks_slash h) as Hl. fold nameComp in Hl.
    unfold anchor. rewrite rootAnchored_snoc, components_snoc by assumption.
    eapply walkPlain_snoc; [exact Ht|].
    unfold stepPlain. rewrite Hn. unfold IsDir. rewrite Hd. cbn [negb].
    rewrite Hlk, Hc. unfold IsSymlink. rewrite Es, He. reflexivity.
  - cbn [links]. destruct (255 <? links h1 + 1)%Z; [discriminate|].
    destruct (extra child) as [target|]; [|discriminate].
    destruct (targetIsAbs target); cbn [nameRem];
      destruct (negb (String.eqb (nameRem h1) "")); intros [= <-];
      unfold tracked; cbn [resolved n]; rewrite ?Hn1, ?Hr1;
      try exact Ht; reflexivity.
Qed.

Lemma runBody_tracked fs cwdN h h' :
  tracked fs cwdN h -> runBody fs h = Ret (inl h') -> tracked fs cwdN h'.
Proof.
  intros Ht. unfold runBody.
  set (p := IndexByte (nameRem h) slash).
  destruct (String.eqb (getNameComp h p) "") eqn:En; cbn [negb].
  - intros [= <-]. unfold tracked, updateNameRemFromSlashPos in *.
    destruct (p <? 0)%Z; exact Ht.
  - apply String.eqb_neq in En.
    exec_case (validateNameComp (getNameComp h p)).
    exec_case (deref fs (n h)).
    destruct (Z.land (mode a0) ModeDir =? 0)%Z eqn:Ed; [discriminate|].
    exec_case (dirLookup fs a0 (getNameComp h p)).
    destruct a1 as [childN|]; [|discriminate].
    exec_case (deref fs childN).
    destruct (err a1) eqn:Ee; [discriminate|].
    exec_case (updateFromChildN fs (updateNameRemFromSlashPos h p) childN (getNameComp h p)).
    destruct a2 as [h2 [e|]]; [discriminate|]. intros [= <-].
    eapply updateFromChildN_tracked; eassumption.
Qed.

(** The loop is left early only with an error. *)
Lemma runBody_inr_error fs h h' e :
  runBody fs h = Ret (inr (h', e)) -> e <> None.
Proof.
  unfold runBody.
  set (p := IndexByte (nameRem h) slash).
  destruct (negb (String.eqb (getNameComp h p) "")); [|discriminate].
  exec_case (validateNameComp (getNameComp h p)).
  exec_case (deref fs (n h)).
  destruct (Z.land (mode a0) ModeDir =? 0)%Z; [now intros [= <- <-]|].
  exec_case (dirLookup fs a0 (getNameComp h p)).
  destruct a1 as [childN|]; [|now intros [= <- <-]].
  exec_case (deref fs childN).
  destruct (err a1); [now intros [= <- <-]|].
  exec_case (updateFromChildN fs (updateNameRemFromSlashPos h p) childN (getNameComp h p)).
  destruct a2 as [h2 [e2|]]; [now intros [= <- <-] | discriminate].
Qed.

Lemma run_tracked (fuel : nat) fs cwdN h h' :
  tracked fs cwdN h -> run fuel fs h = Ret (h', None) -> tracked fs cwdN h'.
Proof.
  revert h. induction fuel as [|fuel IH]; intros h Ht; cbn [run];
    destruct (String.eqb (nameRem h) ""); try (now intros [= <-]);
    try discriminate.
  exec_case (runBody fs h). destruct a as [h1|[h1 e1]].
  - apply IH. eapply runBody_tracked; eassumption.
  - intros [= -> ->]. now apply runBody_inr_error in E.
Qed.


End NoSymlinkComponents.


(** ** [find] along existing directories, and [MkdirAll] *)

Section MkdirProofs.
Import FileMode Fs.
Context `{NameValidator}.

Lemma components_cut (s : string) :
  s <> "" ->
  components s
  = ((if String.eqb (headComp s) "" then [] else [headComp s])
     ++ components (tailName s))%list.
Proof.
  intros Hne. rewrite (components_step s Hne). cbv zeta. unfold headComp, tailName.
  destruct (IndexByte s slash <? 0)%Z; [|reflexivity].
  apply String.eqb_neq in Hne. rewrite Hne. reflexivity.
Qed.

Lemma tailName_shorter (s : string) : s <> "" -> (len (tailName s) < len s)%nat.
Proof. intros Hne. exact (rest_shorter s Hne). Qed.

Lemma findLoop_cut (fuel : nat) fs rl an n links nameRem :
  nameRem <> "" ->
  findLoop (S fuel) fs rl an n links nameRem
  = if String.eqb (headComp nameRem) ""
    then findLoop fuel fs rl an n links (tailName nameRem)
    else
      _ ← validateNameComp (headComp nameRem);
      hn ← deref fs n;
      if (Z.land (mode hn) ModeDir =? 0)%Z then Ret (None, "", Some ENOTDIR)
      else
        childN ← dirLookup fs hn (headComp nameRem);
        match childN with
        | None =>
            if an then Ret (Some n, nameRem, Some ErrNotExist)
            else Ret (None, "", Some ErrNotExist)
        | Some childN =>
            child ← deref fs childN;
            match err child with
            | Some e => Ret (None, "", Some e)
            | None =>
                if negb (Z.land (mode child) ModeSymlink =? 0)%Z
                   && (rl || negb (String.eqb (tailName nameRem) ""))
                then
                  if (255 <? links + 1)%Z then Ret (None, "", Some errTooManyLinks)
                  else
                    match extra child with
                    | Entries _ => Panic
                    | Bytes target =>
                        findLoop fuel fs rl an
                          (if targetIsAbs target then root fs else n) (links + 1)%Z
                          (if negb (String.eqb (tailName nameRem) "")
                           then sliceFrom target (if targetIsAbs target then 1 else 0)
                                  ++ "/" ++ tailName nameRem
                           else sliceFrom target (if targetIsAbs target then 1 else 0))
                    end
                else findLoop fuel fs rl an childN links (tailName nameRem)
            end
        end.
Proof.
  intros Hne. cbn [findLoop]. apply String.eqb_neq in Hne. rewrite Hne.
  reflexivity.
Qed.

Lemma stepPlain_inv fs l c l' :
  stepPlain fs l c = Some l' ->
  exists nd child,
    deref fs l = Ret nd /\ (Z.land (mode nd) ModeDir =? 0)%Z = false
    /\ dirLookup fs nd c = Ret (Some l') /\ deref fs l' = Ret child
    /\ (Z.land (mode child) ModeSymlink =? 0)%Z = true /\ err child = None.
Proof.
  unfold stepPlain, IsDir, IsSymlink.
  destruct (deref fs l) as [nd| |] eqn:En; try discriminate.
  destruct (Z.land (mode nd) ModeDir =? 0)%Z eqn:Ed; [discriminate|]. cbn [negb].
  destruct (dirLookup fs nd c) as [[childN|]| |] eqn:El; try discriminate.
  destruct (deref fs childN) as [child| |] eqn:Ec; try discriminate.
  destruct (Z.land (mode child) ModeSymlink =? 0)%Z eqn:Es; [|discriminate].
  cbn [negb]. destruct (err child) eqn:Ee; [discriminate|].
  intros [= <-]. exists nd, child. repeat split; auto.
Qed.

(** Along existing directories [find] reaches the node the plain walk
    reaches, with nothing left of the name. *)
Lemma findLoop_plain (fuel : nat) fs rl an n links nameRem final :
  (len nameRem < fuel)%nat ->
  allOk (components nameRem) ->
  walkPlain fs n (components nameRem) = Some final ->
  findLoop fuel fs rl an n links nameRem = Ret (Some final, "", None).
Proof.
  revert n nameRem. induction fuel as [|fuel IH]; intros n nameRem Hf Hok Hw; [lia|].
  destruct (String.eqb nameRem "") eqn:En.
  { apply String.eqb_eq in En. subst. cbn in Hw. injection Hw as ->. reflexivity. }
  apply String.eqb_neq in En. rewrite findLoop_cut by assumption.
  rewrite (components_cut _ En) in Hok, Hw. pose proof (tailName_shorter _ En).
  destruct (String.eqb (headComp nameRem) "").
  { apply IH; [lia | assumption | assumption]. }
  cbn [app] in Hok, Hw. inversion Hok as [|? ? Hc Hok']; subst.
  unfold validateNameComp. rewrite Hc. cbn [mbind Exec_bind].
  cbn [walkPlain] in Hw.
  destruct (stepPlain fs n (headComp nameRem)) as [l'|] eqn:Es; [|discriminate].
  destruct (stepPlain_inv _ _ _ _ Es) as (nd & child & Hn & Hd & Hlk & Hch & Hs & He).
  rewrite Hn. cbn [mbind Exec_bind]. rewrite Hd, Hlk. cbn [mbind Exec_bind].
  rewrite Hch. cbn [mbind Exec_bind]. rewrite He, Hs. cbn [negb andb].
  apply IH; [lia | assumption | assumption].
Qed.

(** Below a node that is not a directory [find] fails with [ENOTDIR] at
    the next component, and stops at the node if none is left. *)
Lemma findLoop_below_file (fuel : nat) fs rl an n links nameRem nd :
  (len nameRem < fuel)%nat ->
  allOk (components nameRem) ->
  deref fs n = Ret nd -> (Z.land (mode nd) ModeDir =? 0)%Z = true ->
  findLoop fuel fs rl an n links nameRem
  = match components nameRem with
    | [] => Ret (Some n, "", None)
    | _ :: _ => Ret (None, "", Some ENOTDIR)
    end.
Proof.
  intros Hf Hok Hn Hd. revert nameRem Hf Hok.
  induction fuel as [|fuel IH]; intros nameRem Hf Hok; [lia|].
  destruct (String.eqb nameRem "") eqn:En.
  { apply String.eqb_eq in En. subst. reflexivity. }
  apply String.eqb_neq in En. rewrite findLoop_cut by assumption.
  rewrite (components_cut _ En) in Hok |- *. pose proof (tailName_shorter _ En).
  destruct (String.eqb (headComp nameRem) "").
  { apply IH; [lia | assumption]. }
  cbn [app] in Hok |- *. inversion Hok as [|? ? Hc Hok']; subst.
  unfold validateNameComp. rewrite Hc, Hn. cbn [mbind Exec_bind]. rewrite Hd.
  reflexivity.
Qed.

Lemma plainFileAt_inv fs l c l' :
  plainFileAt fs l c = Some l' ->
  exists nd child,
    deref fs l = Ret nd /\ (Z.land (mode nd) ModeDir =? 0)%Z = false
    /\ dirLookup fs nd c = Ret (Some l') /\ deref fs l' = Ret child
    /\ (Z.land (mode child) ModeSymlink =? 0)%Z = true
    /\ (Z.land (mode child) ModeDir =? 0)%Z = true /\ err child = None.
Proof.
  unfold plainFileAt, IsDir, IsSymlink.
  destruct (deref fs l) as [nd| |] eqn:En; try discriminate.
  destruct (Z.land (mode nd) ModeDir =? 0)%Z eqn:Ed; [discriminate|]. cbn [negb].
  destruct (dirLookup fs nd c) as [[childN|]| |] eqn:El; try discriminate.
  destruct (deref fs childN) as [child| |] eqn:Ec; try discriminate.
  destruct (Z.land (mode child) ModeSymlink =? 0)%Z eqn:Es; [|discriminate].
  destruct (Z.land (mode child) ModeDir =? 0)%Z eqn:Ed'; [|discriminate].
  cbn [negb orb]. destruct (err child) eqn:Ee; [discriminate|].
  intros [= <-]. exists nd, child. repeat split; auto.
Qed.

(** With a file among the components, [find] ends at the file when it is
    the last component and fails with [ENOTDIR] otherwise. *)
Lemma findLoop_through_file (fuel : nat) fs rl an n links nameRem
    (pre post : list string) (c : string) (m fileN : loc) :
  (len nameRem < fuel)%nat ->
  components nameRem = (pre ++ c :: post)%list ->
  allOk (components nameRem) ->
  walkPlain fs n pre = Some m ->
  plainFileAt fs m c = Some fileN ->
  findLoop fuel fs rl an n links nameRem
  = match post with
    | [] => Ret (Some fileN, "", None)
    | _ :: _ => Ret (None, "", Some ENOTDIR)
    end.
Proof.
  revert n nameRem pre. induction fuel as [|fuel IH];
    intros n nameRem pre Hf Hc Hok Hw Hfile; [lia|].
  destruct (String.eqb nameRem "") eqn:En.
  { apply String.eqb_eq in En. subst. cbn in Hc. now destruct pre. }
  apply String.eqb_neq in En. rewrite findLoop_cut by assumption.
  rewrite (components_cut _ En) in Hok, Hc. pose proof (tailName_shorter _ En).
  destruct (String.eqb (headComp nameRem) "").
  { eapply IH; [lia | eassumption | assumption | eassumption | assumption]. }
  cbn [app] in Hok, Hc. inversion Hok as [|? ? Hx Hok']; subst.
  unfold validateNameComp. rewrite Hx. cbn [mbind Exec_bind].
  destruct pre as [|x pre]; cbn [app] in Hc; injection Hc as Hhead Htail.
  - cbn [walkPlain] in Hw. injection Hw as ->. rewrite Hhead.
    destruct (plainFileAt_inv _ _ _ _ Hfile)
      as (nd & child & Hn & Hdn & Hlk & Hchild & Hs & Hd & He).
    rewrite Hn. cbn [mbind Exec_bind]. rewrite Hdn, Hlk. cbn [mbind Exec_bind].
    rewrite Hchild. cbn [mbind Exec_bind]. rewrite He, Hs. cbn [negb andb].
    rewrite (findLoop_below_file fuel fs rl an fileN links _ child);
      [now rewrite Htail | lia | assumption | assumption | assumption].
  - cbn [walkPlain] in Hw. rewrite <- Hhead in Hw.
    destruct (stepPlain fs n (headComp nameRem)) as [l'|] eqn:Es; [|discriminate].
    destruct (stepPlain_inv _ _ _ _ Es) as (nd & child & Hn & Hd & Hlk & Hch & Hs & He).
    rewrite Hn. cbn [mbind Exec_bind]. rewrite Hd, Hlk. cbn [mbind Exec_bind].
    rewrite Hch. cbn [mbind Exec_bind]. rewrite He, Hs. cbn [negb andb].
    eapply IH; [lia | eassumption | assumption | eassumption | assumption].
Qed.

Lemma components_abs (name : string) :
  isAbs name = true -> components (sliceFrom name 1) = components name.
Proof.
  destruct name as [|x name]; [discriminate|]. cbn [isAbs sliceFrom].
  intros Hx. apply Ascii.eqb_eq in Hx. subst x.
  unfold components, Split. cbn [splitAcc]. unfold slash.
  rewrite Ascii.eqb_refl. reflexivity.
Qed.

Lemma components_walkName (name : string) :
  components (walkName name) = components name.
Proof.
  unfold walkName. destruct (isAbs name) eqn:E; [now apply components_abs | reflexivity].
Qed.

Lemma find_from_start fs name rl an start :
  walkStart fs name = Some start ->
  find fs name rl an
  = findLoop (S (walkBudget fs (walkName name))) fs rl an start 0 (walkName name).
Proof.
  unfold walkStart, find, walkName, findFromRoot. destruct (isAbs name).
  - destruct (deref fs (root fs)) as [rootN| |]; try discriminate.
    cbn [mbind Exec_bind]. destruct (err rootN); [discriminate|]. now intros [= <-].
  - fold (findFromRoot fs true false (cwd fs)).
    destruct (findFromRoot fs true false (cwd fs)) as [[[[cwdN|] rem] [e|]]| |];
      try discriminate.
    cbn [mbind Exec_bind]. now intros [= <-].
Qed.

Lemma budget_exceeds_len fs s : (len s < S (walkBudget fs s))%nat.
Proof. unfold walkBudget. lia. Qed.

End MkdirProofs.

Section MkdirAllTheorem.
Import FileMode Fs.
Context `{NameValidator}.

Lemma isDirAt_inv fs l :
  isDirAt fs l = true -> exists nd, deref fs l = Ret nd /\ IsDir (mode nd) = true.
Proof.
  unfold isDirAt. destruct (deref fs l) as [nd| |]; try discriminate. eauto.
Qed.

(** C8, amended.  [MkdirAll] rejects with [errBadMode], before it looks at
    the file system, every mode that holds a file-type bit ([os.ModeType]).
    For any other mode it succeeds and leaves the file system unchanged when
    every component of the path already exists as a directory, and it fails
    with [ENOTDIR], the file system unchanged, when a component reached
    through existing directories exists and is a file. *)
Theorem MkdirAll_existing_dirs_and_type_bits
    (fs : InMemoryFileSystem) (name : string) (perm : Z) :
  (Z.land perm ModeType <> 0%Z -> MkdirAll fs name perm = Ret (fs, Some errBadMode))
  /\ (Z.land perm ModeType = 0%Z -> allOk (components name) ->
      forall start, walkStart fs name = Some start ->
        (forall final,
            walkDirs fs start (components name) = Some final ->
            MkdirAll fs name perm = Ret (fs, None))
        /\ (forall pre c post m fileN,
              components name = (pre ++ c :: post)%list ->
              walkPlain fs start pre = Some m ->
              plainFileAt fs m c = Some fileN ->
              MkdirAll fs name perm = Ret (fs, Some ENOTDIR))).
Proof.
  split.
  - intros Hp. unfold MkdirAll, mkdirCommon. apply Z.eqb_neq in Hp. rewrite Hp.
    reflexivity.
  - intros Hp Hok start Hstart. unfold MkdirAll, mkdirCommon.
    apply Z.eqb_eq in Hp. rewrite Hp. cbn [negb].
    rewrite (find_from_start _ _ _ _ _ Hstart).
    rewrite <- components_walkName in Hok. split.
    + intros final Hw. unfold walkDirs in Hw. rewrite <- components_walkName in Hw.
      destruct (walkPlain fs start (components (walkName name))) as [l|] eqn:Ew;
        [|discriminate].
      destruct (isDirAt fs l) eqn:Ed; [|discriminate]. injection Hw as ->.
      rewrite (findLoop_plain _ fs false true start 0 _ final
                 (budget_exceeds_len fs _) Hok Ew).
      cbn [mbind Exec_bind isNil IsNotExist negb andb].
      destruct (isDirAt_inv _ _ Ed) as (nd & -> & Hd). cbn [mbind Exec_bind].
      rewrite Hd. reflexivity.
    + intros pre c post m fileN Hc Hw Hfile. rewrite <- components_walkName in Hc.
      rewrite (findLoop_through_file _ fs false true start 0 _ pre post c m fileN
                 (budget_exceeds_len fs _) Hc Hok Hw Hfile).
      destruct post as [|x post]; [|reflexivity].
      cbn [mbind Exec_bind isNil IsNotExist negb andb].
      destruct (plainFileAt_inv _ _ _ _ Hfile)
        as (nd & child & _ & _ & _ & -> & _ & Hd & _).
      cbn [mbind Exec_bind]. unfold IsDir. rewrite Hd. reflexivity.
Qed.

End MkdirAllTheorem.

(** C8, as the claim states it, fails: the sticky bit is no permission bit,
    and [MkdirAll] with it creates the directory. *)
Lemma MkdirAll_non_permission_bits_counterexample :
  ~ (forall (fs : Fs.InMemoryFileSystem) (name : string) (perm : Z),
       FileMode.hasNonPermBits perm = true ->
       exists e, @Fs.MkdirAll Scenario.specValidator fs name perm = Ret (fs, Some e)).
Proof.
  intros Hclaim.
  destruct (Hclaim Scenario.emptyFs "/a" (Z.lor FileMode.ModeSticky 493%Z) eq_refl)
    as [e He].
  vm_compute in He. discriminate.
Qed.

Lemma MkdirAll_existing_dirs_and_type_bits_witness :
  @Fs.MkdirAll Scenario.specValidator Scenario.vfs "/x" FileMode.ModeDir
  = Ret (Scenario.vfs, Some errBadMode)
  /\ @Fs.MkdirAll Scenario.specValidator Scenario.vfs "/dir" 493%Z
     = Ret (Scenario.vfs, None)
  /\ @Fs.MkdirAll Scenario.specValidator Scenario.vfs "/orig/sub" 493%Z
     = Ret (Scenario.vfs, Some ENOTDIR).
Proof.
  pose proof (@MkdirAll_existing_dirs_and_type_bits Scenario.specValidator) as T.
  split; [|split].
  - apply (proj1 (T Scenario.vfs "/x" FileMode.ModeDir)). discriminate.
  - refine (proj1 (proj2 (T Scenario.vfs "/dir" 493%Z) eq_refl _ 0%nat eq_refl) 3%nat _).
    + repeat constructor.
    + reflexivity.
  - refine (proj2 (proj2 (T Scenario.vfs "/orig/sub" 493%Z) eq_refl _ 0%nat eq_refl)
              [] "orig" ["sub"] 0%nat 1%nat eq_refl eq_refl eq_refl).
    repeat constructor.
Defined.

(** ** Resolving the host path of a bind volume *)

(** C9. On the empty file system [resolveBindVolumeHostPath "/dir1/dir1_1"]
    returns ["/dir1/dir1_1"] and a nil error, and afterwards [Stat] finds a
    directory there.  In general, when [EvalSymlinks] reports that the path
    walked so far does not exist, the remaining segments are appended to it
    as they are, and the call returns that path together with the outcome of
    [MkdirAll] on it with mode 0777. *)
Theorem resolveBindVolumeHostPath_creates_missing :
  (exists fs',
      @Resolver.resolveBindVolumeHostPath Scenario.specValidator
         Scenario.emptyFs "/dir1/dir1_1"
      = Ret (fs', "/dir1/dir1_1", None)
      /\ exists fi, @Vfs.Stat Scenario.specValidator fs' "/dir1/dir1_1" = Ret (inr fi)
                    /\ FileMode.IsDir (tar.fiMode fi) = true)
  /\ (forall (V : Fs.NameValidator) (fs : Fs.InMemoryFileSystem)
             (sep part : string) (rest : list string)
             (result resultResolved : string) (e : option error),
        Fs.EvalSymlinks fs (result ++ sep ++ part) = Ret (resultResolved, e) ->
        IsNotExist e = true ->
        let full := match rest with
                    | [] => result ++ sep ++ part
                    | _ :: _ => (result ++ sep ++ part) ++ sep ++ Join rest sep
                    end in
        Resolver.walkParts fs sep (part :: rest) result
        = ('(fs', e') ← Fs.MkdirAll fs full 511; Ret (fs', full, e'))).
Proof.
  split.
  - eexists. split; [vm_compute; reflexivity|].
    eexists. split; [vm_compute; reflexivity | reflexivity].
  - intros V fs sep part rest result resultResolved e He Hne full.
    cbn [Resolver.walkParts]. rewrite He. cbn [mbind Exec_bind]. rewrite Hne.
    subst full. destruct rest; reflexivity.
Qed.

Lemma resolveBindVolumeHostPath_creates_missing_witness :
  @Resolver.walkParts Scenario.specValidator Scenario.emptyFs "/"
     ["dir1"; "dir1_1"] ""
  = ('(fs', e') ← @Fs.MkdirAll Scenario.specValidator Scenario.emptyFs
                     "/dir1/dir1_1" 511;
     Ret (fs', "/dir1/dir1_1", e')).
Proof.
  apply (proj2 resolveBindVolumeHostPath_creates_missing Scenario.specValidator
           Scenario.emptyFs "/" "dir1" ["dir1_1"] "" "/" (Some ErrNotExist)).
  - reflexivity.
  - reflexivity.
Defined.

(** ** Prefixes *)

Lemma HasPrefix_app (p t : string) : HasPrefix (p ++ t) p = true.
Proof.
  unfold HasPrefix. induction p as [|x p IH]; [apply prefix_nil|].
  rewrite str_app_cons. cbn [String.prefix].
  destruct (ascii_dec x x); [assumption | congruence].
Qed.

Lemma HasPrefix_inv (s p : string) : HasPrefix s p = true -> exists t, s = p ++ t.
Proof.
  unfold HasPrefix. revert s. induction p as [|x p IH]; intros s.
  - intros _. exists s. reflexivity.
  - destruct s as [|y s]; cbn [String.prefix]; [discriminate|].
    destruct (ascii_dec x y) as [->|]; [|discriminate].
    intros Hp. destruct (IH _ Hp) as [t ->]. exists t. reflexivity.
Qed.

Lemma byteAt_app (p t : string) : byteAt (p ++ t) (len p) = byteAt t 0.
Proof.
  unfold byteAt, len. induction p as [|x p IH]; [reflexivity|].
  rewrite str_app_cons. cbn [String.length String.get]. exact IH.
Qed.

Lemma app_same_len (p t : string) : len (p ++ t) = len p -> t = "".
Proof. rewrite len_app. intros Hl. apply len_zero. lia. Qed.

(** ** Writing a bind-mounted host file into a tar *)

Section MaterializerProofs.
Import FileMode tar Up.
Context {W : Type} `{Writer W} `{os.Host} `{filepath.Ops}.

(** What [isFileWithinBindHostRoot] decides. *)
Lemma isFileWithinBindHostRoot_spec (h : bindMountHostFileToTarHelper W) (target : string) :
  isFileWithinBindHostRoot h target = true
  <-> filepath.VolumeName target = rootHostFileVol h
      /\ (sliceFrom target (len (filepath.VolumeName target)) = rootHostFileWithoutVol h
          \/ exists rest,
               sliceFrom target (len (filepath.VolumeName target))
               = rootHostFileWithoutVol h ++ String filepath.Separator rest).
Proof.
  unfold isFileWithinBindHostRoot.
  set (vol := filepath.VolumeName target).
  set (t := sliceFrom target (len vol)).
  set (r := rootHostFileWithoutVol h).
  destruct (String.eqb_spec vol (rootHostFileVol h)) as [Hv|Hv]; cbn [negb].
  2:{ split; [discriminate | intros [? _]; contradiction]. }
  destruct (HasPrefix t r) eqn:Hp.
  - destruct (HasPrefix_inv _ _ Hp) as [rest Ht]. rewrite Ht.
    destruct (Nat.eqb_spec (len (r ++ rest)) (len r)) as [Hl|Hl].
    + apply app_same_len in Hl. subst rest. rewrite str_app_nil_r. tauto.
    + rewrite byteAt_app. destruct rest as [|c rest].
      * exfalso. apply Hl. now rewrite str_app_nil_r.
      * cbn [byteAt String.get].
        destruct (Ascii.eqb_spec c filepath.Separator) as [->|Hc].
        -- split; [|reflexivity]. intros _. split; [assumption|]. right. eauto.
        -- split; [discriminate|]. intros [_ [Habs|[rest' Habs]]].
           ++ apply (f_equal len) in Habs. contradiction.
           ++ exfalso. apply Hc. clear -Habs.
              induction r as [|x r IH]; [now injection Habs|].
              rewrite !str_app_cons in Habs. injection Habs as Habs. now apply IH.
  - split; [discriminate|]. intros [_ [Habs|[rest Habs]]]; exfalso.
    + fold t in Habs. rewrite Habs in Hp.
      pose proof (HasPrefix_app r "") as Hr. rewrite str_app_nil_r in Hr. congruence.
    + fold t in Habs. rewrite Habs, HasPrefix_app in Hp. discriminate.
Qed.

(** The header of a symbolic link. *)
Lemma FileInfoHeader_symlink (fileInfo : FileInfo) (link : string) :
  Z.land (fiMode fileInfo) ModeType = ModeSymlink ->
  FileInfoHeader fileInfo link
  = inr {| Typeflag := TypeSymlink; Name := fiName fileInfo;
           Linkname := link; Size := 0 |}.
Proof.
  intros Hm. unfold FileInfoHeader, IsRegular, IsDir. rewrite Hm.
  assert (Hd : Z.land (fiMode fileInfo) ModeDir = 0%Z).
  { change ModeDir with (Z.land ModeType ModeDir).
    rewrite Z.land_assoc, Hm. reflexivity. }
  assert (Hs : Z.land (fiMode fileInfo) ModeSymlink = ModeSymlink).
  { change ModeSymlink with (Z.land ModeType ModeSymlink) at 1.
    rewrite Z.land_assoc, Hm. reflexivity. }
  rewrite Hd, Hs. reflexivity.
Qed.

(** C3, amended.  Under a bind root whose path does not end in a path
    separator, for a symbolic link whose target resolves to the host path
    [T] (through [filepath.Abs] when it is absolute or carries a volume,
    joined against the directory of the link otherwise): [T] counts as
    contained if and only if its volume is the root's volume and its path is
    the root's path or nested under it, continuing the root's path with a
    path separator; when contained, the symlink header handed to the writer
    is named [fileNameInTar] and links to the relative path from the
    directory of [fileNameInTar] to [renameTo] followed by what [T] has
    beyond the root; when not contained, nothing is written and the error
    names the link and the root's host path. *)
Theorem runSymlink_containment
    (h : bindMountHostFileToTarHelper W) (fileInfo : FileInfo)
    (hostFile fileNameInTar link T : string) :
  endsInSeparator (rootHostFileWithoutVol h) = false ->
  os.Readlink hostFile = Ret (inr link) ->
  resolvesTo hostFile link T ->
  Z.land (fiMode fileInfo) ModeType = ModeSymlink ->
  (isFileWithinBindHostRoot h T = true
   <-> filepath.VolumeName T = rootHostFileVol h
       /\ (sliceFrom T (len (filepath.VolumeName T)) = rootHostFileWithoutVol h
           \/ exists rest,
                sliceFrom T (len (filepath.VolumeName T))
                = rootHostFileWithoutVol h ++ String filepath.Separator rest))
  /\ (isFileWithinBindHostRoot h T = true ->
      runSymlink h fileInfo hostFile fileNameInTar
      = endHeaderCommon h
          {| Typeflag := TypeSymlink; Name := fileNameInTar;
             Linkname :=
               fst (filepath.Rel (filepath.Dir fileNameInTar)
                      (filepath.ToSlash
                         (renameTo h ++ sliceFrom T (len (rootHostFile h)))));
             Size := 0 |})
  /\ (isFileWithinBindHostRoot h T = false ->
      runSymlink h fileInfo hostFile fileNameInTar
      = Ret (h, Some (Errorf
                        "target of symlink %#v it outside the bind volume with host %#v"
                        [ArgString hostFile; ArgString (rootHostFile h)]))).
Proof.
  intros _ Hlink Hres Hmode. split; [apply isFileWithinBindHostRoot_spec|].
  assert (Hrun : runSymlink h fileInfo hostFile fileNameInTar
                 = if isFileWithinBindHostRoot h T
                   then endHeaderCommon h
                          {| Typeflag := TypeSymlink; Name := fileNameInTar;
                             Linkname :=
                               fst (filepath.Rel (filepath.Dir fileNameInTar)
                                      (filepath.ToSlash
                                         (renameTo h ++ sliceFrom T (len (rootHostFile h)))));
                             Size := 0 |}
                   else Ret (h, Some (errSymlinkOutside hostFile (rootHostFile h)))).
  { unfold runSymlink, resolvesTo in *. rewrite Hlink. cbn [mbind Exec_bind].
    destruct (linkIsAbsLike link || negb (String.eqb (filepath.VolumeName link) "")).
    - rewrite Hres. cbn [mbind Exec_bind].
      destruct (isFileWithinBindHostRoot h T); [|reflexivity].
      rewrite FileInfoHeader_symlink by assumption. reflexivity.
    - subst T. cbn [mbind Exec_bind].
      destruct (isFileWithinBindHostRoot h _); [|reflexivity].
      rewrite FileInfoHeader_symlink by assumption. reflexivity. }
  split; intros Hin; rewrite Hrun, Hin; reflexivity.
Qed.


End MaterializerProofs.

(** ** The scenarios of the tar materializer *)

Section MaterializerScenarios.
Import FileMode tar Up Scenario.



(** C3, as the claim states it, fails: the error for the link
    [dir3/symlink], whose target resolves to [/dir2] outside the root
    [dir3], names the link and the root, not the resolved target. *)
Lemma runSymlink_names_target_counterexample :
  let h := @newHelper mockTarWriter (@Vfs.paths vfs) [] "dir3" "renamed" in
  exists e,
    @os.Readlink (@Vfs.host specValidator vfs) "dir3/symlink" = Ret (inr "/dir2")
    /\ @filepath.Abs (@Vfs.paths vfs) "/dir2" = Ret (inr "/dir2")
    /\ @isFileWithinBindHostRoot mockTarWriter (@Vfs.paths vfs) h "/dir2" = false
    /\ @runSymlink mockTarWriter mockWriter (@Vfs.host specValidator vfs)
         (@Vfs.paths vfs) h symlinkInfo "dir3/symlink" "renamed/symlink"
       = Ret (h, Some e)
    /\ errorNames e "dir3/symlink" /\ errorNames e "dir3"
    /\ ~ errorNames e "/dir2".
Proof.
  intros h. eexists. split; [vm_compute; reflexivity|].
  split; [reflexivity|]. split; [reflexivity|]. split; [vm_compute; reflexivity|].
  cbn [errorNames In]. split; [now left|]. split; [right; now left|].
  intros [Hc|[Hc|[]]]; discriminate.
Qed.

(** The model agrees with what [volume_test.go] expects of a regular file,
    a directory and a contained link. *)
Example materialize_orig :
  materialize vfs "orig" "renamed"
  = Ret ([regularFile "renamed" testFileContent], false, None).
Proof. vm_compute. reflexivity. Qed.

Example materialize_dir :
  materialize vfs "dir" "renamed"
  = Ret ([directory "renamed/"; regularFile "renamed/file1" testFileContent;
          regularFile "renamed/file2" testFileContent], true, None).
Proof. vm_compute. reflexivity. Qed.

Example materialize_dir2 :
  materialize vfs "dir2" "renamed"
  = Ret ([directory "renamed/"; regularFile "renamed/file" testFileContent;
          symlink "renamed/symlink" "file"], true, None).
Proof. vm_compute. reflexivity. Qed.

(** Under the root [/] the check accepts no target but [/] itself. *)
Lemma isFileWithinBindHostRoot_root_slash :
  @isFileWithinBindHostRoot mockTarWriter (Unix.ops "/")
     (@newHelper mockTarWriter (Unix.ops "/") [] "/" "data1") "/etc" = false.
Proof. reflexivity. Qed.

(** C4: what the code does on the scenario.  The escape of
    [/dir3/symlink] is caught by [run], which writes a second directory
    header (named after the host file) and reports success. *)
Lemma materialize_dir3_recovers :
  materialize vfs "dir3" "renamed"
  = Ret ([directory "renamed/"; directory "dir3//"], true, None).
Proof. vm_compute. reflexivity. Qed.

End MaterializerScenarios.


Lemma runSymlink_containment_witness :
  @Up.runSymlink Scenario.mockTarWriter Scenario.mockWriter
     (@Vfs.host Scenario.specValidator Scenario.vfs) (@Vfs.paths Scenario.vfs)
     (@Up.newHelper Scenario.mockTarWriter (@Vfs.paths Scenario.vfs) [] "dir2" "renamed")
     {| tar.fiName := "symlink"; tar.fiSize := 4; tar.fiMode := FileMode.ModeSymlink |}
     "dir2/symlink" "renamed/symlink"
  = @Up.endHeaderCommon Scenario.mockTarWriter Scenario.mockWriter
      (@Up.newHelper Scenario.mockTarWriter (@Vfs.paths Scenario.vfs) [] "dir2" "renamed")
      {| tar.Typeflag := tar.TypeSymlink; tar.Name := "renamed/symlink";
         tar.Linkname := "file"; tar.Size := 0 |}.
Proof.
  refine (proj1 (proj2 (@runSymlink_containment Scenario.mockTarWriter
            Scenario.mockWriter (@Vfs.host Scenario.specValidator Scenario.vfs)
            (@Vfs.paths Scenario.vfs) _ _ "dir2/symlink" "renamed/symlink"
            "file" "dir2/file" _ _ _ _)) _).
  - reflexivity.
  - vm_compute. reflexivity.
  - reflexivity.
  - reflexivity.
  - reflexivity.
Defined.

Lemma buildVolumeInitImageGetDockerfile_layout_witness :
  Dockerfile.copyLines [true; false] !! 1%nat
  = Some ("COPY data" ++ fmt_d 2 ++ "" ++ " /app/data/vol" ++ fmt_d 2 ++ "" ++ nl).
Proof.
  apply (proj2 (proj2 buildVolumeInitImageGetDockerfile_layout) [true; false] 1%nat false).
  reflexivity.
Defined.

(** ** What the walk of the materializer leaves alone *)

Section MaterializerInvariants.
Import FileMode tar Up.
Context {W : Type} `{Writer W} `{os.Host} `{filepath.Ops}.

Lemma keeps_refl (h : bindMountHostFileToTarHelper W) : keeps h h None.
Proof. unfold keeps. tauto. Qed.

Lemma keeps_error (h : bindMountHostFileToTarHelper W) (e : error) : keeps h h (Some e).
Proof. unfold keeps. repeat split; auto; discriminate. Qed.

Lemma keeps_trans (h1 h2 h3 : bindMountHostFileToTarHelper W) (e : option error) :
  keeps h1 h2 None -> keeps h2 h3 e -> keeps h1 h3 e.
Proof.
  unfold keeps. intros (A1 & A2 & A3 & A4 & A5 & A6) (B1 & B2 & B3 & B4 & B5 & B6).
  repeat split; try congruence; auto.
  intros He. rewrite B6, A6; auto.
Qed.

Lemma withTw_keeps (h : bindMountHostFileToTarHelper W) (w : W) (e : option error) :
  keeps h (withTw h w (match e with Some _ => true | None => twMayBeCorrupt h end)) e.
Proof.
  unfold keeps, withTw. cbn. repeat split; auto.
  - destruct e; auto.
  - intros ->. reflexivity.
Qed.

Lemma endHeaderCommon_keeps (h h' : bindMountHostFileToTarHelper W) (header : Header)
    (e : option error) :
  endHeaderCommon h header = Ret (h', e) -> keeps h h' e.
Proof.
  unfold endHeaderCommon. exec_case (WriteHeader (tw h) header).
  destruct a as [w [e0|]]; intros [= <- <-].
  - apply (withTw_keeps h w (Some e0)).
  - apply (withTw_keeps h w None).
Qed.

Lemma runRegular_keeps (h h' : bindMountHostFileToTarHelper W) (fileInfo : FileInfo)
    (hostFile fileNameInTar : string) (e : option error) :
  runRegular h fileInfo hostFile fileNameInTar = Ret (h', e) -> keeps h h' e.
Proof.
  unfold runRegular. destruct (FileInfoHeader fileInfo "") as [e0|header].
  { intros [= <- <-]. apply keeps_error. }
  exec_case (os.Open hostFile). destruct a as [e0|fd].
  { intros [= <- <-]. apply keeps_error. }
  exec_case (endHeaderCommon h (setName header fileNameInTar)).
  destruct a as [h1 e1]. apply endHeaderCommon_keeps in E0.
  destruct e1 as [e1|].
  { now intros [= <- <-]. }
  exec_case (ioCopy (tw h1) fd). destruct a as [w [e2|]]; intros [= <- <-].
  - eapply keeps_trans; [exact E0|]. apply (withTw_keeps h1 w (Some e2)).
  - eapply keeps_trans; [exact E0|]. apply (withTw_keeps h1 w None).
Qed.

Lemma runSymlink_keeps (h h' : bindMountHostFileToTarHelper W) (fileInfo : FileInfo)
    (hostFile fileNameInTar : string) (e : option error) :
  runSymlink h fileInfo hostFile fileNameInTar = Ret (h', e) -> keeps h h' e.
Proof.
  unfold runSymlink. exec_case (os.Readlink hostFile). destruct a as [e0|link].
  { intros [= <- <-]. apply keeps_error. }
  match goal with |- context [mbind _ ?m] => exec_case m end.
  destruct a as [e0|linkResolved].
  { intros [= <- <-]. apply keeps_error. }
  destruct (isFileWithinBindHostRoot h linkResolved).
  - destruct (FileInfoHeader fileInfo _) as [e0|header].
    + intros [= <- <-]. apply keeps_error.
    + apply endHeaderCommon_keeps.
  - intros [= <- <-]. apply keeps_error.
Qed.

Lemma rangeEntries_keeps
    (rec : bindMountHostFileToTarHelper W -> FileInfo -> string -> string ->
           Exec (bindMountHostFileToTarHelper W * option error)) :
  (forall h fi hf fn h' e, rec h fi hf fn = Ret (h', e) -> keeps h h' e) ->
  forall entries h hostFile headerName h' e,
    rangeEntries rec h entries hostFile headerName = Ret (h', e) -> keeps h h' e.
Proof.
  intros Hrec entries. induction entries as [|entry rest IH];
    intros h hostFile headerName h' e; cbn [rangeEntries].
  - intros [= <- <-]. apply keeps_refl.
  - match goal with |- context [rec ?a ?b ?c ?d] => exec_case (rec a b c d) end.
    destruct a as [h1 e1]. apply Hrec in E. destruct e1 as [e1|].
    + now intros [= <- <-].
    + intros Hr. apply IH in Hr. eapply keeps_trans; eassumption.
Qed.

Lemma runDirectory_keeps
    (rec : bindMountHostFileToTarHelper W -> FileInfo -> string -> string ->
           Exec (bindMountHostFileToTarHelper W * option error)) :
  (forall h fi hf fn h' e, rec h fi hf fn = Ret (h', e) -> keeps h h' e) ->
  forall h fileInfo hostFile fileNameInTar h' e,
    runDirectory rec h fileInfo hostFile fileNameInTar = Ret (h', e) -> keeps h h' e.
Proof.
  intros Hrec h fileInfo hostFile fileNameInTar h' e. unfold runDirectory.
  exec_case (os.Open hostFile). destruct a as [e0|fd].
  { intros [= <- <-]. apply keeps_error. }
  destruct (FileInfoHeader fileInfo "") as [e0|header].
  { intros [= <- <-]. apply keeps_error. }
  match goal with |- context [endHeaderCommon ?a ?b] => exec_case (endHeaderCommon a b) end.
  destruct a as [h1 e1]. apply endHeaderCommon_keeps in E0. destruct e1 as [e1|].
  { now intros [= <- <-]. }
  exec_case (os.Readdir fd). destruct a as [e0|entries].
  { intros [= <- <-]. eapply keeps_trans; [exact E0 | apply keeps_error]. }
  intros Hr. apply (rangeEntries_keeps rec Hrec) in Hr.
  eapply keeps_trans; eassumption.
Qed.

Lemma runRecursive_keeps (fuel : nat) (h h' : bindMountHostFileToTarHelper W)
    (fileInfo : FileInfo) (hostFile fileNameInTar : string) (e : option error) :
  runRecursive fuel h fileInfo hostFile fileNameInTar = Ret (h', e) -> keeps h h' e.
Proof.
  revert h h' fileInfo hostFile fileNameInTar e.
  induction fuel as [|fuel IH]; intros h h' fileInfo hostFile fileNameInTar e;
    cbn [runRecursive]; [discriminate|].
  destruct (negb (Z.land (fiMode fileInfo) ModeSymlink =? 0)%Z);
    [apply runSymlink_keeps|].
  destruct (IsDir (fiMode fileInfo)).
  { apply runDirectory_keeps. intros. eapply IH. eassumption. }
  destruct (IsRegular (fiMode fileInfo)); [apply runRegular_keeps|].
  intros [= <- <-]. apply keeps_error.
Qed.

Lemma run_keeps (fuel : nat) (h h' : bindMountHostFileToTarHelper W)
    (hostFile fileNameInTar : string) (isDir : bool) (e : option error) :
  run fuel h hostFile fileNameInTar = Ret (h', isDir, e) -> keeps h h' e.
Proof.
  unfold run. exec_case (os.Lstat hostFile). destruct a as [e0|fileInfo].
  { intros [= <- _ <-]. apply keeps_error. }
  exec_case (runRecursive fuel h fileInfo hostFile fileNameInTar).
  destruct a as [h1 e1]. apply runRecursive_keeps in E0. destruct e1 as [e1|].
  2:{ now intros [= <- _ <-]. }
  destruct (twMayBeCorrupt h1) eqn:Ec.
  { now intros [= <- _ <-]. }
  assert (Hh : twMayBeCorrupt h = false).
  { destruct (twMayBeCorrupt h) eqn:Eh; [|reflexivity].
    destruct E0 as (_ & _ & _ & _ & Hs & _). rewrite (Hs Eh) in Ec. discriminate. }
  assert (K1 : keeps h h1 None).
  { destruct E0 as (A1 & A2 & A3 & A4 & _ & _). unfold keeps.
    repeat split; auto; congruence. }
  destruct (FileInfoHeader fileInfo "") as [e0|header].
  { intros [= <- _ <-]. eapply keeps_trans; [exact K1 | apply keeps_error]. }
  match goal with |- context [endHeaderCommon ?a ?b] => exec_case (endHeaderCommon a b) end.
  destruct a as [h2 e2]. apply endHeaderCommon_keeps in E1.
  intros [= <- _ <-]. eapply keeps_trans; eassumption.
Qed.

(** What [bindMouseHostFileToTar] hands back: an error exactly when the
    writer is marked. *)
Lemma bindMouseHostFileToTar_marks (fuel : nat) (w : W) (hostFile renameTo0 : string)
    (h' : bindMountHostFileToTarHelper W) (isDir : bool) (e : option error) :
  bindMouseHostFileToTar fuel w hostFile renameTo0 = Ret (h', isDir, e) ->
  (e = None <-> twMayBeCorrupt h' = false)
  /\ renameTo h' = renameTo0 /\ rootHostFile h' = hostFile.
Proof.
  unfold bindMouseHostFileToTar.
  exec_case (run fuel (newHelper w hostFile renameTo0) hostFile renameTo0).
  destruct a as [[h1 isDir1] e1]. apply run_keeps in E.
  destruct E as (A1 & A2 & _ & _ & _ & A6). cbn [newHelper renameTo rootHostFile
    twMayBeCorrupt] in A1, A2, A6.
  destruct e1 as [e1|].
  2:{ intros [= <- _ <-]. rewrite A6 by reflexivity. tauto. }
  destruct (twMayBeCorrupt h1) eqn:Ec.
  { intros [= <- _ <-]. rewrite Ec. repeat split; auto; discriminate. }
  exec_case (endHeaderCommon h1 (emptyDirHeader renameTo0)).
  destruct a as [h2 e2]. intros [= <- _ <-].
  unfold endHeaderCommon in E. revert E.
  exec_case (WriteHeader (tw h1) (emptyDirHeader renameTo0)).
  destruct a as [w' [e0|]]; intros [= <- <-]; cbn [withTw twMayBeCorrupt renameTo
    rootHostFile]; rewrite ?Ec; repeat split; auto; discriminate.
Qed.

End MaterializerInvariants.

(** ** What the materializer writes, seen through the recording writer *)

Section MaterializerArchive.
Import FileMode tar Up Scenario.
Context `{os.Host} `{filepath.Ops}.
#[local] Existing Instance mockWriter.

Lemma appendToLast_snoc (m : mockTarWriter) (en : mockTarWriterEntry) (p : string) :
  appendToLast (m ++ [en])%list p
  = Some (m ++ [ {| Scenario.h := Scenario.h en; data := data en ++ p |} ])%list.
Proof.
  induction m as [|x m IH]; [reflexivity|].
  cbn [app appendToLast]. rewrite IH.
  destruct (m ++ [en])%list eqn:E; [now destruct m | reflexivity].
Qed.

Lemma HasPrefix_weaken (s p q : string) :
  HasPrefix s (p ++ q) = true -> HasPrefix s p = true.
Proof.
  intros Hp. destruct (HasPrefix_inv _ _ Hp) as [t ->].
  rewrite str_app_assoc. apply HasPrefix_app.
Qed.

Lemma HasPrefix_refl (s : string) : HasPrefix s s = true.
Proof. rewrite <- (str_app_nil_r s) at 1. apply HasPrefix_app. Qed.

Lemma namedUnder_weaken (p q : string) (added : mockTarWriter) :
  forallb (namedUnder (p ++ q)) added = true -> forallb (namedUnder p) added = true.
Proof.
  rewrite !forallb_forall. intros Hall en Hin. unfold namedUnder in *.
  eapply HasPrefix_weaken. now apply Hall.
Qed.

Lemma grows_refl fn hp : grows fn hp hp.
Proof. exists []. split; [now rewrite app_nil_r | reflexivity]. Qed.

Lemma grows_trans fn h1 h2 h3 : grows fn h1 h2 -> grows fn h2 h3 -> grows fn h1 h3.
Proof.
  intros (a1 & E1 & N1) (a2 & E2 & N2). exists (a1 ++ a2)%list.
  split; [now rewrite E2, E1, app_assoc | now rewrite forallb_app, N1, N2].
Qed.

Lemma grows_weaken p q h1 h2 : grows (p ++ q) h1 h2 -> grows p h1 h2.
Proof.
  intros (a & E & N). exists a. split; [assumption | now apply (namedUnder_weaken p q)].
Qed.

Lemma mock_endHeaderCommon (hp : bindMountHostFileToTarHelper mockTarWriter)
    (header : Header) :
  endHeaderCommon hp header
  = Ret (withTw hp (tw hp ++ [ {| Scenario.h := header; data := "" |} ])%list
           (twMayBeCorrupt hp), None).
Proof. reflexivity. Qed.

Lemma mock_endHeaderCommon_grows hp (header : Header) fn :
  HasPrefix (Name header) fn = true ->
  grows fn hp (withTw hp (tw hp ++ [ {| Scenario.h := header; data := "" |} ])%list
                 (twMayBeCorrupt hp)).
Proof.
  intros Hn. eexists. split; [reflexivity|]. cbn [forallb]. unfold namedUnder.
  cbn [Scenario.h]. now rewrite Hn.
Qed.

Lemma mock_runRegular hp hp' (fileInfo : FileInfo) (hostFile fileNameInTar : string)
    (e : option error) :
  runRegular hp fileInfo hostFile fileNameInTar = Ret (hp', e) ->
  grows fileNameInTar hp hp' /\ (e = None -> tw hp' <> tw hp).
Proof.
  unfold runRegular. destruct (FileInfoHeader fileInfo "") as [e0|header].
  { intros [= <- <-]. split; [apply grows_refl | discriminate]. }
  exec_case (os.Open hostFile). destruct a as [e0|fd].
  { intros [= <- <-]. split; [apply grows_refl | discriminate]. }
  rewrite mock_endHeaderCommon. cbn [mbind Exec_bind]. unfold ioCopy.
  exec_case (os.ReadAll fd). destruct a as [content readErr].
  cbn [tw withTw Write mockWriter]. rewrite appendToLast_snoc.
  cbn [mbind Exec_bind Scenario.h data].
  assert (G : forall c,
             grows fileNameInTar hp
               (withTw (withTw hp (tw hp ++ [ {| Scenario.h := setName header fileNameInTar;
                                                 data := "" |} ])%list (twMayBeCorrupt hp))
                  (tw hp ++ [ {| Scenario.h := setName header fileNameInTar;
                                 data := "" ++ content |} ])%list c)).
  { intros c. eexists. split; [reflexivity|].
    cbn [forallb]. unfold namedUnder. cbn [Scenario.h setName Name].
    now rewrite HasPrefix_refl. }
  destruct readErr as [e1|]; intros [= <- <-]; (split; [apply G|]);
    try discriminate.
  intros _. cbn [tw withTw]. intros Heq.
  apply (f_equal (@length _)) in Heq. rewrite length_app in Heq. cbn in Heq. lia.
Qed.

Lemma mock_runSymlink hp hp' (fileInfo : FileInfo) (hostFile fileNameInTar : string)
    (e : option error) :
  runSymlink hp fileInfo hostFile fileNameInTar = Ret (hp', e) ->
  grows fileNameInTar hp hp' /\ (e = None -> tw hp' <> tw hp).
Proof.
  unfold runSymlink. exec_case (os.Readlink hostFile). destruct a as [e0|link].
  { intros [= <- <-]. split; [apply grows_refl | discriminate]. }
  match goal with |- context [mbind _ ?m] => exec_case m end.
  destruct a as [e0|linkResolved].
  { intros [= <- <-]. split; [apply grows_refl | discriminate]. }
  destruct (isFileWithinBindHostRoot hp linkResolved).
  - destruct (FileInfoHeader fileInfo _) as [e0|header].
    + intros [= <- <-]. split; [apply grows_refl | discriminate].
    + rewrite mock_endHeaderCommon. intros [= <- <-]. split.
      * apply mock_endHeaderCommon_grows. apply HasPrefix_refl.
      * intros _. cbn [tw withTw]. intros Heq.
        apply (f_equal (@length _)) in Heq. rewrite length_app in Heq. cbn in Heq. lia.
  - intros [= <- <-]. split; [apply grows_refl | discriminate].
Qed.

Lemma mock_rangeEntries
    (rec : bindMountHostFileToTarHelper mockTarWriter -> FileInfo -> string -> string ->
           Exec (bindMountHostFileToTarHelper mockTarWriter * option error)) :
  (forall hp fi hf fn hp' e, rec hp fi hf fn = Ret (hp', e) -> grows fn hp hp') ->
  forall entries hp hostFile headerName hp' e,
    rangeEntries rec hp entries hostFile headerName = Ret (hp', e) ->
    grows headerName hp hp'.
Proof.
  intros Hrec entries. induction entries as [|entry rest IH];
    intros hp hostFile headerName hp' e; cbn [rangeEntries].
  - intros [= <- <-]. apply grows_refl.
  - match goal with |- context [rec ?a ?b ?c ?d] => exec_case (rec a b c d) end.
    destruct a as [h1 e1]. apply Hrec, grows_weaken in E. destruct e1 as [e1|].
    + now intros [= <- <-].
    + intros Hr. apply IH in Hr. eapply grows_trans; eassumption.
Qed.

Lemma mock_runDirectory
    (rec : bindMountHostFileToTarHelper mockTarWriter -> FileInfo -> string -> string ->
           Exec (bindMountHostFileToTarHelper mockTarWriter * option error)) :
  (forall hp fi hf fn hp' e, rec hp fi hf fn = Ret (hp', e) -> grows fn hp hp') ->
  forall hp fileInfo hostFile fileNameInTar hp' e,
    runDirectory rec hp fileInfo hostFile fileNameInTar = Ret (hp', e) ->
    grows fileNameInTar hp hp' /\ (e = None -> tw hp' <> tw hp).
Proof.
  intros Hrec hp fileInfo hostFile fileNameInTar hp' e. unfold runDirectory.
  exec_case (os.Open hostFile). destruct a as [e0|fd].
  { intros [= <- <-]. split; [apply grows_refl | discriminate]. }
  destruct (FileInfoHeader fileInfo "") as [e0|header].
  { intros [= <- <-]. split; [apply grows_refl | discriminate]. }
  rewrite mock_endHeaderCommon. cbn [mbind Exec_bind].
  pose proof (mock_endHeaderCommon_grows hp (setName header (fileNameInTar ++ "/"))
                fileNameInTar (HasPrefix_app _ _)) as G1.
  set (h1 := withTw hp _ _) in *.
  exec_case (os.Readdir fd). destruct a as [e0|entries].
  { intros [= <- <-]. split; [exact G1 | discriminate]. }
  intros Hr. apply (mock_rangeEntries rec Hrec) in Hr.
  cbn [setName Name] in Hr. apply grows_weaken in Hr.
  split; [eapply grows_trans; eassumption|].
  intros _ Heq. destruct Hr as (a & Ea & _). rewrite Ea in Heq. subst h1.
  cbn [tw withTw] in Heq. apply (f_equal (@length _)) in Heq.
  rewrite !length_app in Heq. cbn in Heq. lia.
Qed.

Lemma mock_runRecursive (fuel : nat) hp hp' (fileInfo : FileInfo)
    (hostFile fileNameInTar : string) (e : option error) :
  runRecursive fuel hp fileInfo hostFile fileNameInTar = Ret (hp', e) ->
  grows fileNameInTar hp hp' /\ (e = None -> tw hp' <> tw hp).
Proof.
  revert hp hp' fileInfo hostFile fileNameInTar e.
  induction fuel as [|fuel IH]; intros hp hp' fileInfo hostFile fileNameInTar e;
    cbn [runRecursive]; [discriminate|].
  destruct (negb (Z.land (fiMode fileInfo) ModeSymlink =? 0)%Z);
    [apply mock_runSymlink|].
  destruct (IsDir (fiMode fileInfo)).
  { apply mock_runDirectory. intros. eapply IH. eassumption. }
  destruct (IsRegular (fiMode fileInfo)); [apply mock_runRegular|].
  intros [= <- <-]. split; [apply grows_refl | discriminate].
Qed.

End MaterializerArchive.

Section MaterializerArchiveTop.
Import FileMode tar Up Scenario.
Context `{os.Host} `{filepath.Ops}.
#[local] Existing Instance mockWriter.
#[local] Existing Instance mockBuffered.

(** [run] on the recording writer: the entries of the walk, and behind them
    at most the one header [run] writes to recover. *)
Lemma mock_run (fuel : nat) hp hp' (hostFile fileNameInTar : string) (isDir : bool)
    (e : option error) :
  run fuel hp hostFile fileNameInTar = Ret (hp', isDir, e) ->
  exists walk recov,
    tw hp' = (tw hp ++ walk ++ recov)%list
    /\ forallb (namedUnder fileNameInTar) walk = true
    /\ (recov = []
        \/ exists fi hd,
             os.Lstat hostFile = Ret (inr fi) /\ FileInfoHeader fi "" = inr hd
             /\ e = None
             /\ recov = [ {| Scenario.h := {| Typeflag := TypeDir; Name := Name hd ++ "/";
                                              Linkname := Linkname hd; Size := Size hd |};
                             data := "" |} ])
    /\ (e = None -> (walk ++ recov)%list <> []).
Proof.
  unfold run. exec_case (os.Lstat hostFile). destruct a as [e0|fileInfo].
  { intros [= <- _ <-]. exists [], []. rewrite app_nil_r.
    repeat split; auto; discriminate. }
  exec_case (runRecursive fuel hp fileInfo hostFile fileNameInTar).
  destruct a as [h1 e1]. apply mock_runRecursive in E0.
  destruct E0 as [(walk & Ew & Nw) Hne]. destruct e1 as [e1|].
  2:{ intros [= <- _ <-]. exists walk, []. rewrite app_nil_r.
      repeat split; auto. intros _ ->. apply Hne; [reflexivity|].
      now rewrite Ew, app_nil_r. }
  destruct (twMayBeCorrupt h1).
  { intros [= <- _ <-]. exists walk, []. rewrite app_nil_r.
    repeat split; auto; discriminate. }
  destruct (FileInfoHeader fileInfo "") as [e0|header] eqn:Eh.
  { intros [= <- _ <-]. exists walk, []. rewrite app_nil_r.
    repeat split; auto; discriminate. }
  rewrite mock_endHeaderCommon. cbn [mbind Exec_bind]. intros [= <- _ <-].
  eexists walk, [_]. cbn [tw withTw]. rewrite Ew, <- app_assoc.
  split; [reflexivity|]. split; [assumption|]. split.
  - right. exists fileInfo, header. repeat split; auto.
  - intros _. now destruct walk.
Qed.

(** [bindMouseHostFileToTar] on the recording writer. *)
Lemma mock_bindMouseHostFileToTar (fuel : nat) (w : mockTarWriter)
    (hostFile renameTo0 : string) hp' (isDir : bool) (e : option error) :
  bindMouseHostFileToTar fuel w hostFile renameTo0 = Ret (hp', isDir, e) ->
  exists walk recov,
    tw hp' = (w ++ walk ++ recov)%list
    /\ forallb (namedUnder renameTo0) walk = true
    /\ (recov = []
        \/ exists fi hd,
             os.Lstat hostFile = Ret (inr fi) /\ FileInfoHeader fi "" = inr hd
             /\ recov = [ {| Scenario.h := {| Typeflag := TypeDir; Name := Name hd ++ "/";
                                              Linkname := Linkname hd; Size := Size hd |};
                             data := "" |} ])
    /\ (e = None -> (walk ++ recov)%list <> []).
Proof.
  unfold bindMouseHostFileToTar.
  exec_case (run fuel (newHelper w hostFile renameTo0) hostFile renameTo0).
  destruct a as [[h1 isDir1] e1]. apply mock_run in E.
  destruct E as (walk & recov & Et & Nw & Hr & Hne). cbn [newHelper tw] in Et.
  destruct e1 as [e1|].
  2:{ intros [= <- _ <-]. exists walk, recov. repeat split; auto.
      destruct Hr as [Hr|(fi & hd & A & B & _ & D)]; [now left | right; eauto]. }
  assert (Hrec : recov = []).
  { destruct Hr as [Hr|(fi & hd & _ & _ & C & _)]; [assumption | discriminate]. }
  subst recov. rewrite app_nil_r in Et.
  destruct (twMayBeCorrupt h1).
  { intros [= <- _ <-]. exists walk, []. rewrite app_nil_r.
    repeat split; auto; discriminate. }
  rewrite mock_endHeaderCommon. cbn [mbind Exec_bind]. intros [= <- _ <-].
  exists (walk ++ [ {| Scenario.h := emptyDirHeader renameTo0; data := "" |} ])%list, [].
  cbn [tw withTw]. rewrite app_nil_r, app_assoc.
  split; [f_equal; exact Et|]. split; [|split; [now left|]].
  - rewrite forallb_app, Nw. cbn [forallb]. unfold namedUnder.
    cbn [Scenario.h emptyDirHeader Name]. now rewrite HasPrefix_app.
  - intros _. now destruct walk.
Qed.

Lemma mock_rangeHostPaths (fuel : nat) (bindVolumeHostPaths : list string) :
  forall (w : mockTarWriter) (i : Z) (dirs : list bool) w' dirs' e,
    rangeHostPaths fuel w i bindVolumeHostPaths dirs = Ret (w', dirs', e) ->
    exists entries, w' = (w ++ entries)%list
                    /\ (e = None -> (length bindVolumeHostPaths <= length entries)%nat).
Proof.
  induction bindVolumeHostPaths as [|p rest IH]; intros w i dirs w' dirs' e;
    cbn [rangeHostPaths].
  - intros [= <- <- <-]. exists []. split; [now rewrite app_nil_r | cbn; lia].
  - exec_case (bindMouseHostFileToTar fuel w p ("data" ++ fmt_d (i + 1))).
    destruct a as [[hp isDir] e1]. apply mock_bindMouseHostFileToTar in E.
    destruct E as (walk & recov & Et & _ & _ & Hne). destruct e1 as [e1|].
    + intros [= <- <- <-]. exists (walk ++ recov)%list.
      split; [assumption | discriminate].
    + intros Hr. apply IH in Hr. destruct Hr as (entries & -> & Hlen).
      exists ((walk ++ recov) ++ entries)%list. rewrite Et, <- !app_assoc.
      split; [reflexivity|]. intros He. specialize (Hlen He).
      specialize (Hne eq_refl). rewrite !length_app in *. cbn [length].
      destruct (walk ++ recov)%list eqn:Ewr; [congruence|].
      apply (f_equal (@length _)) in Ewr. rewrite length_app in Ewr. cbn in Ewr. lia.
Qed.

End MaterializerArchiveTop.

(** ** The flags of the build context *)

Section BuildContextProofs.
Import FileMode tar Up.
Context {W : Type} `{Writer W} `{Buffered W} `{os.Host} `{filepath.Ops}.

Lemma rangeHostPaths_flags (fuel : nat) (bindVolumeHostPaths : list string) :
  forall (w : W) (i : Z) (dirs : list bool) w' dirs' e,
    rangeHostPaths fuel w i bindVolumeHostPaths dirs = Ret (w', dirs', e) ->
    exists flags, dirs' = (dirs ++ flags)%list
                  /\ (length flags <= length bindVolumeHostPaths)%nat
                  /\ (e = None -> length flags = length bindVolumeHostPaths).
Proof.
  induction bindVolumeHostPaths as [|p rest IH]; intros w i dirs w' dirs' e;
    cbn [rangeHostPaths].
  - intros [= <- <- <-]. exists []. rewrite app_nil_r. repeat split; auto.
  - exec_case (bindMouseHostFileToTar fuel w p ("data" ++ fmt_d (i + 1))).
    destruct a as [[hp isDir] e1]. destruct e1 as [e1|].
    + intros [= <- <- <-]. exists []. rewrite app_nil_r. cbn [length].
      split; [reflexivity|]. split; [lia | discriminate].
    + intros Hr. apply IH in Hr. destruct Hr as (flags & -> & Hle & Heq).
      exists (isDir :: flags). rewrite <- app_assoc. cbn [app length].
      split; [reflexivity|]. split; [lia|]. intros He. now rewrite Heq.
Qed.

End BuildContextProofs.

(** ** The materializer and the build context: what callers can rely on *)

Section MaterializerTheorems.
Import FileMode tar Up.
Context {W : Type} `{Writer W} `{Buffered W} `{os.Host} `{filepath.Ops}.

(** X1. Walking a host file with [runRecursive] never changes the fields
    [bindMouseHostFileToTar] set up ([renameTo], [rootHostFile], its volume
    and its path), never clears [twMayBeCorrupt], and sets it only together
    with a returned error: after a walk that returns nil the flag is what
    it was. *)
Theorem runRecursive_marks_only_with_error
    (fuel : nat) (h h' : bindMountHostFileToTarHelper W) (fileInfo : FileInfo)
    (hostFile fileNameInTar : string) (e : option error) :
  runRecursive fuel h fileInfo hostFile fileNameInTar = Ret (h', e) ->
  renameTo h' = renameTo h
  /\ rootHostFile h' = rootHostFile h
  /\ rootHostFileVol h' = rootHostFileVol h
  /\ rootHostFileWithoutVol h' = rootHostFileWithoutVol h
  /\ (twMayBeCorrupt h = true -> twMayBeCorrupt h' = true)
  /\ (e = None -> twMayBeCorrupt h' = twMayBeCorrupt h).
Proof. apply runRecursive_keeps. Qed.

(** X2. [bindMouseHostFileToTar] returns an error exactly when it leaves
    [twMayBeCorrupt] set: it never returns an error with the writer
    unmarked, and never nil after marking it.  So a failure that did not
    mark the writer (a failing [Lstat], [Open], [Readlink] or [Readdir], a
    link that leaves the root, an unsupported file type) does not reach the
    caller as an error. *)
Theorem bindMouseHostFileToTar_error_iff_marked
    (fuel : nat) (w : W) (hostFile renameTo0 : string)
    (h' : bindMountHostFileToTarHelper W) (isDir : bool) (e : option error) :
  bindMouseHostFileToTar fuel w hostFile renameTo0 = Ret (h', isDir, e) ->
  (e = None <-> twMayBeCorrupt h' = false).
Proof. intros Hb. now apply bindMouseHostFileToTar_marks in Hb. Qed.

(** X5. [buildVolumeInitImageGetBuildContext] only appends to
    [r.isDirSlice], at most one flag per host path; when it returns the
    bytes of the context it has appended exactly one flag per path, and the
    bytes are those of the buffer after the flush. *)
Theorem buildVolumeInitImageGetBuildContext_flags
    (fuel : nat) (w w' : W) (dirs dirs' : list bool) (bindVolumeHostPaths : list string)
    (r : error + string) :
  buildVolumeInitImageGetBuildContext fuel w dirs bindVolumeHostPaths
  = Ret (w', dirs', r) ->
  exists flags,
    dirs' = (dirs ++ flags)%list
    /\ (length flags <= length bindVolumeHostPaths)%nat
    /\ (forall bytes, r = inr bytes ->
          length flags = length bindVolumeHostPaths /\ bytes = BufferBytes w').
Proof.
  unfold buildVolumeInitImageGetBuildContext.
  exec_case (rangeHostPaths fuel w 0 bindVolumeHostPaths dirs).
  destruct a as [[w1 dirs1] e1]. apply rangeHostPaths_flags in E.
  destruct E as (flags & -> & Hle & Heq). destruct e1 as [e1|].
  { intros [= <- <- <-]. exists flags. repeat split; auto; discriminate. }
  specialize (Heq eq_refl).
  match goal with |- context [WriteHeader ?a ?b] => exec_case (WriteHeader a b) end.
  destruct a as [w2 [e2|]].
  { intros [= <- <- <-]. exists flags. repeat split; auto; discriminate. }
  match goal with |- context [Write ?a ?b] => exec_case (Write a b) end.
  destruct a as [w3 [e3|]].
  { intros [= <- <- <-]. exists flags. repeat split; auto; discriminate. }
  exec_case (Flush w3). destruct a as [w4 [e4|]]; intros [= <- <- <-];
    exists flags; (split; [reflexivity|]); (split; [assumption|]);
    intros bytes Hb; [discriminate|].
  injection Hb as <-. split; [assumption | reflexivity].
Qed.

End MaterializerTheorems.

Section MaterializerArchiveTheorems.
Import FileMode tar Up Scenario.
Context `{os.Host} `{filepath.Ops}.
#[local] Existing Instance mockWriter.
#[local] Existing Instance mockBuffered.

(** X3. Seen through a writer that records its entries, [runRecursive]
    leaves the entries already in the archive as they are and appends
    entries whose names all begin with [fileNameInTar]; when it returns nil
    it has appended at least one. *)
Theorem runRecursive_appends_under_name
    (fuel : nat) (hp hp' : bindMountHostFileToTarHelper mockTarWriter)
    (fileInfo : FileInfo) (hostFile fileNameInTar : string) (e : option error) :
  runRecursive fuel hp fileInfo hostFile fileNameInTar = Ret (hp', e) ->
  exists added,
    tw hp' = (tw hp ++ added)%list
    /\ forallb (namedUnder fileNameInTar) added = true
    /\ (e = None -> added <> []).
Proof.
  intros Hr. apply mock_runRecursive in Hr. destruct Hr as [(added & Ea & Na) Hne].
  exists added. repeat split; auto. intros He ->. apply (Hne He).
  now rewrite Ea, app_nil_r.
Qed.

(** X4. Seen through a writer that records its entries,
    [bindMouseHostFileToTar] leaves the archive it was given as it is and
    appends entries named [renameTo] or below, followed by at most one more:
    the directory header [run] writes to recover, which is named after the
    host file ([Lstat]'s name and a slash), not after [renameTo].  When it
    returns nil it has appended at least one entry. *)
Theorem bindMouseHostFileToTar_archive
    (fuel : nat) (w : mockTarWriter) (hostFile renameTo0 : string)
    (hp' : bindMountHostFileToTarHelper mockTarWriter) (isDir : bool)
    (e : option error) :
  bindMouseHostFileToTar fuel w hostFile renameTo0 = Ret (hp', isDir, e) ->
  exists walk recov,
    tw hp' = (w ++ walk ++ recov)%list
    /\ forallb (namedUnder renameTo0) walk = true
    /\ (recov = []
        \/ exists fi hd,
             os.Lstat hostFile = Ret (inr fi) /\ FileInfoHeader fi "" = inr hd
             /\ recov = [ {| Scenario.h := {| Typeflag := TypeDir; Name := Name hd ++ "/";
                                              Linkname := Linkname hd; Size := Size hd |};
                             data := "" |} ])
    /\ (e = None -> (walk ++ recov)%list <> []).
Proof. apply mock_bindMouseHostFileToTar. Qed.

(** X6. Seen through a writer that records its entries, a build context
    that is returned ends with the entry [Dockerfile], whose size and
    content are those of the Dockerfile generated from the flags
    [r.isDirSlice] holds afterwards; before it come the entries of the host
    paths, at least one for each path, and before those what the archive
    held. *)
Theorem buildVolumeInitImageGetBuildContext_dockerfile_last
    (fuel : nat) (w w' : mockTarWriter) (dirs dirs' : list bool)
    (bindVolumeHostPaths : list string) (bytes : string) :
  buildVolumeInitImageGetBuildContext fuel w dirs bindVolumeHostPaths
  = Ret (w', dirs', inr bytes) ->
  let dockerFile := Dockerfile.buildVolumeInitImageGetDockerfile dirs' in
  exists entries,
    w' = (w ++ entries
            ++ [ {| Scenario.h := {| Typeflag := "000"%char; Name := "Dockerfile";
                                     Linkname := "";
                                     Size := Z.of_nat (len dockerFile) |};
                    data := dockerFile |} ])%list
    /\ (length bindVolumeHostPaths <= length entries)%nat.
Proof.
  unfold buildVolumeInitImageGetBuildContext.
  exec_case (rangeHostPaths fuel w 0 bindVolumeHostPaths dirs).
  destruct a as [[w1 dirs1] e1]. apply mock_rangeHostPaths in E.
  destruct E as (entries & -> & Hlen). destruct e1 as [e1|]; [discriminate|].
  specialize (Hlen eq_refl).
  cbn [WriteHeader Write Flush mockWriter mockBuffered mbind Exec_bind].
  rewrite appendToLast_snoc. cbn [mbind Exec_bind Scenario.h data].
  intros [= <- <- _]. cbv zeta. exists entries. rewrite <- app_assoc.
  split; [reflexivity | assumption].
Qed.

End MaterializerArchiveTheorems.

Lemma runRecursive_marks_only_with_error_witness :
  exists hp',
    @Up.runRecursive Scenario.mockTarWriter Scenario.mockWriter
       (@Vfs.host Scenario.specValidator Scenario.vfs) (@Vfs.paths Scenario.vfs) 100
       (@Up.newHelper Scenario.mockTarWriter (@Vfs.paths Scenario.vfs) [] "dir2" "renamed")
       (Vfs.fileInfoOf (Scenario.dirNode "dir2" [7; 8]%nat)) "dir2" "renamed"
    = Ret (hp', None)
    /\ Up.renameTo hp' = "renamed" /\ Up.twMayBeCorrupt hp' = false.
Proof.
  eexists. split; [vm_compute; reflexivity|].
  pose proof (@runRecursive_marks_only_with_error Scenario.mockTarWriter
                Scenario.mockWriter (@Vfs.host Scenario.specValidator Scenario.vfs)
                (@Vfs.paths Scenario.vfs) 100
                (@Up.newHelper Scenario.mockTarWriter (@Vfs.paths Scenario.vfs) []
                   "dir2" "renamed")
                _ (Vfs.fileInfoOf (Scenario.dirNode "dir2" [7; 8]%nat)) "dir2" "renamed"
                None ltac:(vm_compute; reflexivity)) as (A & _ & _ & _ & _ & B).
  split; [exact A | exact (B eq_refl)].
Defined.

Lemma bindMouseHostFileToTar_error_iff_marked_witness :
  exists hp',
    @Up.bindMouseHostFileToTar Scenario.mockTarWriter Scenario.mockWriter
       (@Vfs.host Scenario.specValidator Scenario.vfs) (@Vfs.paths Scenario.vfs)
       100 [] "dir3" "renamed"
    = Ret (hp', true, None)
    /\ Up.twMayBeCorrupt hp' = false.
Proof.
  eexists. split; [vm_compute; reflexivity|].
  refine (proj1 (@bindMouseHostFileToTar_error_iff_marked Scenario.mockTarWriter
                   Scenario.mockWriter (@Vfs.host Scenario.specValidator Scenario.vfs)
                   (@Vfs.paths Scenario.vfs) 100 [] "dir3" "renamed" _ true None _)
            eq_refl).
  vm_compute. reflexivity.
Defined.

Lemma buildVolumeInitImageGetBuildContext_flags_witness :
  exists flags,
    [true; false] = ([] ++ flags)%list /\ (length flags <= 2)%nat
    /\ (forall bytes, @inr error string "" = inr bytes ->
          length flags = 2%nat
          /\ bytes = @tar.BufferBytes _ Scenario.mockBuffered
                       [Scenario.directory "data1/";
                        Scenario.regularFile "data1/file1" Scenario.testFileContent;
                        Scenario.regularFile "data1/file2" Scenario.testFileContent;
                        Scenario.regularFile "data2" Scenario.testFileContent;
                        {| Scenario.h :=
                             @Up.dockerfileHeader
                               (Dockerfile.buildVolumeInitImageGetDockerfile [true; false]);
                           Scenario.data :=
                             Dockerfile.buildVolumeInitImageGetDockerfile [true; false] |}]).
Proof.
  apply (@buildVolumeInitImageGetBuildContext_flags Scenario.mockTarWriter
           Scenario.mockWriter Scenario.mockBuffered
           (@Vfs.host Scenario.specValidator Scenario.vfs) (@Vfs.paths Scenario.vfs)
           100 [] _ [] [true; false] ["dir"; "orig"] (inr "")).
  vm_compute. reflexivity.
Defined.

Lemma runRecursive_appends_under_name_witness :
  exists added,
    [Scenario.directory "renamed/";
     Scenario.regularFile "renamed/file" Scenario.testFileContent;
     Scenario.symlink "renamed/symlink" "file"]
    = ([] ++ added)%list
    /\ forallb (Scenario.namedUnder "renamed") added = true
    /\ (@None error = None -> added <> []).
Proof.
  apply (@runRecursive_appends_under_name
           (@Vfs.host Scenario.specValidator Scenario.vfs) (@Vfs.paths Scenario.vfs) 100
           (@Up.newHelper Scenario.mockTarWriter (@Vfs.paths Scenario.vfs) []
              "dir2" "renamed")
           (@Up.withTw Scenario.mockTarWriter
              (@Up.newHelper Scenario.mockTarWriter (@Vfs.paths Scenario.vfs) []
                 "dir2" "renamed")
              [Scenario.directory "renamed/";
               Scenario.regularFile "renamed/file" Scenario.testFileContent;
               Scenario.symlink "renamed/symlink" "file"] false)
           (Vfs.fileInfoOf (Scenario.dirNode "dir2" [7; 8]%nat)) "dir2" "renamed" None).
  vm_compute. reflexivity.
Defined.

Lemma bindMouseHostFileToTar_archive_witness :
  exists walk recov,
    [Scenario.directory "renamed/"; Scenario.directory "dir3//"]
    = ([] ++ walk ++ recov)%list
    /\ forallb (Scenario.namedUnder "renamed") walk = true
    /\ (recov = []
        \/ exists fi hd,
             @os.Lstat (@Vfs.host Scenario.specValidator Scenario.vfs) "dir3" = Ret (inr fi)
             /\ tar.FileInfoHeader fi "" = inr hd
             /\ recov = [ {| Scenario.h := {| tar.Typeflag := tar.TypeDir;
                                              tar.Name := tar.Name hd ++ "/";
                                              tar.Linkname := tar.Linkname hd;
                                              tar.Size := tar.Size hd |};
                             Scenario.data := "" |} ])
    /\ (@None error = None -> (walk ++ recov)%list <> []).
Proof.
  apply (@bindMouseHostFileToTar_archive
           (@Vfs.host Scenario.specValidator Scenario.vfs) (@Vfs.paths Scenario.vfs) 100
           [] "dir3" "renamed"
           (@Up.withTw Scenario.mockTarWriter
              (@Up.newHelper Scenario.mockTarWriter (@Vfs.paths Scenario.vfs) []
                 "dir3" "renamed")
              [Scenario.directory "renamed/"; Scenario.directory "dir3//"] false)
           true None).
  vm_compute. reflexivity.
Defined.

Lemma buildVolumeInitImageGetBuildContext_dockerfile_last_witness :
  exists entries,
    [Scenario.directory "data1/";
     Scenario.regularFile "data1/file1" Scenario.testFileContent;
     Scenario.regularFile "data1/file2" Scenario.testFileContent;
     Scenario.regularFile "data2" Scenario.testFileContent;
     {| Scenario.h :=
          {| tar.Typeflag := "000"%char; tar.Name := "Dockerfile"; tar.Linkname := "";
             tar.Size := Z.of_nat (len (Dockerfile.buildVolumeInitImageGetDockerfile
                                          [true; false])) |};
        Scenario.data := Dockerfile.buildVolumeInitImageGetDockerfile [true; false] |}]
    = ([] ++ entries
         ++ [ {| Scenario.h :=
                   {| tar.Typeflag := "000"%char; tar.Name := "Dockerfile";
                      tar.Linkname := "";
                      tar.Size := Z.of_nat (len (Dockerfile.buildVolumeInitImageGetDockerfile
                                                   [true; false])) |};
                 Scenario.data :=
                   Dockerfile.buildVolumeInitImageGetDockerfile [true; false] |} ])%list
    /\ (2 <= length entries)%nat.
Proof.
  apply (@buildVolumeInitImageGetBuildContext_dockerfile_last
           (@Vfs.host Scenario.specValidator Scenario.vfs) (@Vfs.paths Scenario.vfs)
           100 [] _ [] [true; false] ["dir"; "orig"] "").
  vm_compute. reflexivity.
Defined.

(** ** What [EvalSymlinks] returns *)

Section EvalSymlinksPaths.
Import FileMode Fs.
Context `{NameValidator}.

Lemma getNameComp_head (h : evalSymlinksHelper) :
  getNameComp h (IndexByte (nameRem h) slash) = headComp (nameRem h).
Proof. reflexivity. Qed.

Lemma updateNameRem_tail (h : evalSymlinksHelper) :
  updateNameRemFromSlashPos h (IndexByte (nameRem h) slash)
  = {| n := n h; links := links h; resolved := resolved h;
       nameRem := tailName (nameRem h) |}.
Proof.
  unfold updateNameRemFromSlashPos, tailName.
  destruct (IndexByte (nameRem h) slash <? 0)%Z; reflexivity.
Qed.

Lemma appendComps_snoc (r : string) (comps : list string) (c : string) :
  appendComps r (comps ++ [c]) = appendComps r comps ++ "/" ++ c.
Proof. unfold appendComps. now rewrite fold_left_app. Qed.

(** One pass of the loop over a component that is a plain child. *)
Lemma runBody_step fs h l' :
  headComp (nameRem h) <> "" ->
  nameCompOk (headComp (nameRem h)) = true ->
  stepPlain fs (n h) (headComp (nameRem h)) = Some l' ->
  runBody fs h
  = Ret (inl {| n := l'; links := links h;
                resolved := resolved h ++ "/" ++ headComp (nameRem h);
                nameRem := tailName (nameRem h) |}).
Proof.
  intros Hne Hok Hs. unfold runBody.
  rewrite getNameComp_head, updateNameRem_tail.
  apply String.eqb_neq in Hne. rewrite Hne. cbn [negb].
  unfold validateNameComp. rewrite Hok. cbn [mbind Exec_bind].
  destruct (stepPlain_inv _ _ _ _ Hs) as (nd & child & Hn & Hd & Hlk & Hch & Hsy & He).
  rewrite Hn. cbn [mbind Exec_bind]. rewrite Hd, Hlk. cbn [mbind Exec_bind].
  rewrite Hch. cbn [mbind Exec_bind]. rewrite He.
  unfold updateFromChildN. rewrite Hch. cbn [mbind Exec_bind]. rewrite Hsy.
  reflexivity.
Qed.

(** One pass of the loop over an empty component. *)
Lemma runBody_skip fs h :
  headComp (nameRem h) = "" ->
  runBody fs h
  = Ret (inl {| n := n h; links := links h; resolved := resolved h;
                nameRem := tailName (nameRem h) |}).
Proof.
  intros He. unfold runBody. rewrite getNameComp_head, updateNameRem_tail, He.
  reflexivity.
Qed.

(** One pass of the loop over a component that cannot be entered. *)
Lemma runBody_stop fs h e :
  headComp (nameRem h) <> "" ->
  nameCompOk (headComp (nameRem h)) = true ->
  stepError fs (n h) (headComp (nameRem h)) = Some e ->
  runBody fs h = Ret (inr (h, Some e)).
Proof.
  intros Hne Hok Hs. unfold runBody.
  rewrite getNameComp_head, updateNameRem_tail.
  apply String.eqb_neq in Hne. rewrite Hne. cbn [negb].
  unfold validateNameComp. rewrite Hok. cbn [mbind Exec_bind].
  unfold stepError in Hs.
  destruct (deref fs (n h)) as [nd| |]; try discriminate. cbn [mbind Exec_bind].
  destruct (Z.land (mode nd) ModeDir =? 0)%Z; [now injection Hs as <-|].
  destruct (dirLookup fs nd (headComp (nameRem h))) as [[childN|]| |];
    try discriminate; cbn [mbind Exec_bind]; [|now injection Hs as <-].
  destruct (deref fs childN) as [child| |]; try discriminate. cbn [mbind Exec_bind].
  now rewrite Hs.
Qed.

(** Over existing components that are no links the loop appends each to
    [resolved] and ends at the node they lead to. *)
Lemma run_plain (fuel : nat) fs h final :
  (len (nameRem h) < fuel)%nat ->
  allOk (components (nameRem h)) ->
  walkPlain fs (n h) (components (nameRem h)) = Some final ->
  run fuel fs h
  = Ret ({| n := final; links := links h;
            resolved := appendComps (resolved h) (components (nameRem h));
            nameRem := "" |}, None).
Proof.
  revert h. induction fuel as [|fuel IH]; intros h Hf Hok Hw; [lia|].
  cbn [run]. destruct (String.eqb (nameRem h) "") eqn:En.
  { apply String.eqb_eq in En. destruct h as [n0 l0 r0 s0]. cbn in *. subst s0.
    cbn in Hw. injection Hw as ->. reflexivity. }
  apply String.eqb_neq in En.
  rewrite (components_cut _ En) in Hok, Hw |- *. pose proof (tailName_shorter _ En).
  destruct (String.eqb (headComp (nameRem h)) "") eqn:Eh.
  - apply String.eqb_eq in Eh. rewrite (runBody_skip _ _ Eh). cbn [mbind Exec_bind].
    cbn [app] in *. rewrite IH; cbn [nameRem n links resolved]; auto; lia.
  - apply String.eqb_neq in Eh. cbn [app walkPlain] in *.
    inversion Hok as [|? ? Hc Hok']; subst.
    destruct (stepPlain fs (n h) (headComp (nameRem h))) as [l'|] eqn:Es;
      [|discriminate].
    rewrite (runBody_step _ _ _ Eh Hc Es). cbn [mbind Exec_bind].
    rewrite IH; cbn [nameRem n links resolved]; auto; lia.
Qed.

(** At the first component that cannot be entered the loop returns the
    error of that step, [resolved] holding the components before it. *)
Lemma run_stops (fuel : nat) fs h (pre post : list string) (c : string) (m : loc)
    (e : error) :
  (len (nameRem h) < fuel)%nat ->
  components (nameRem h) = (pre ++ c :: post)%list ->
  allOk (pre ++ [c]) ->
  walkPlain fs (n h) pre = Some m ->
  stepError fs m c = Some e ->
  exists h', run fuel fs h = Ret (h', Some e)
             /\ n h' = m /\ resolved h' = appendComps (resolved h) pre.
Proof.
  revert h pre. induction fuel as [|fuel IH]; intros h pre Hf Hc Hok Hw Hs; [lia|].
  cbn [run]. destruct (String.eqb (nameRem h) "") eqn:En.
  { apply String.eqb_eq in En. rewrite En in Hc. cbn in Hc. now destruct pre. }
  apply String.eqb_neq in En.
  rewrite (components_cut _ En) in Hc. pose proof (tailName_shorter _ En).
  destruct (String.eqb (headComp (nameRem h)) "") eqn:Eh.
  - apply String.eqb_eq in Eh. rewrite (runBody_skip _ _ Eh). cbn [mbind Exec_bind].
    cbn [app] in Hc.
    destruct (IH {| n := n h; links := links h; resolved := resolved h;
                    nameRem := tailName (nameRem h) |} pre)
      as (h' & Hr & Hn & Hres); cbn [nameRem n links resolved]; auto; try lia.
    exists h'. auto.
  - apply String.eqb_neq in Eh. cbn [app] in Hc.
    destruct pre as [|x pre]; cbn [app] in Hc, Hok; injection Hc as Hhead Htail;
      inversion Hok as [|? ? Hx Hok']; subst.
    + cbn [walkPlain] in Hw. injection Hw as <-.
      rewrite (runBody_stop _ _ e Eh) by assumption.
      cbn [mbind Exec_bind]. exists h. auto.
    + cbn [walkPlain] in Hw.
      destruct (stepPlain fs (n h) (headComp (nameRem h))) as [l'|] eqn:Es;
        [|discriminate].
      rewrite (runBody_step _ _ _ Eh Hx Es). cbn [mbind Exec_bind].
      destruct (IH {| n := l'; links := links h;
                      resolved := resolved h ++ "/" ++ headComp (nameRem h);
                      nameRem := tailName (nameRem h) |} pre)
        as (h' & Hr & Hn & Hres); cbn [nameRem n links resolved]; auto; try lia.
      exists h'. auto.
Qed.

(** [EvalSymlinks] is the loop, begun at [evalStart]. *)
Lemma EvalSymlinks_from_start fs path start :
  evalStart fs path = Some start ->
  EvalSymlinks fs path
  = ('(h, e) ← run (S (walkBudget fs (walkName path))) fs
                 {| n := start; links := 0; resolved := evalBase path;
                    nameRem := walkName path |};
     Ret (resolved h, e)).
Proof.
  unfold evalStart, EvalSymlinks, evalBase, walkName. destruct (isAbs path).
  - destruct (deref fs (root fs)) as [rootN| |]; try discriminate.
    cbn [mbind Exec_bind]. destruct (err rootN); [discriminate|].
    now intros [= <-].
  - destruct (find fs (cwd fs) false true) as [[[[hn|] rem] [e|]]| |];
      try discriminate.
    cbn [mbind Exec_bind]. now intros [= <-].
Qed.

End EvalSymlinksPaths.

Section EvalSymlinksShape.
Import FileMode Fs.
Context `{NameValidator}.

Lemma headComp_lacks_slash (s : string) : lacks slash (headComp s).
Proof.
  unfold headComp. destruct (IndexByte s slash <? 0)%Z eqn:E.
  - now apply IndexByte_neg.
  - apply Z.ltb_ge in E. now apply sliceTo_IndexByte_lacks.
Qed.

Lemma updateFromChildN_shaped fs h childN nameComp h' :
  shaped h -> okComp nameComp ->
  updateFromChildN fs h childN nameComp = Ret (h', None) -> shaped h'.
Proof.
  intros (cs & Hr & Hcs) Hc. unfold updateFromChildN.
  exec_case (deref fs childN).
  destruct (negb (Z.land (mode a) ModeSymlink =? 0)%Z).
  - cbn [links]. destruct (255 <? links h + 1)%Z; [discriminate|].
    destruct (extra a) as [target|]; [|discriminate].
    destruct (targetIsAbs target); cbn [nameRem];
      destruct (negb (String.eqb (nameRem h) "")); intros [= <-];
      unfold shaped; cbn [resolved];
      try (exists []; split; [reflexivity | constructor]);
      exists cs; auto.
  - intros [= <-]. exists (cs ++ [nameComp])%list. cbn [resolved].
    rewrite appendComps_snoc, Hr. split; [reflexivity|].
    apply Forall_app. split; [assumption | now constructor].
Qed.

Lemma runBody_shaped fs h h' :
  shaped h -> runBody fs h = Ret (inl h') -> shaped h'.
Proof.
  intros Hs. unfold runBody. rewrite getNameComp_head, updateNameRem_tail.
  destruct (String.eqb (headComp (nameRem h)) "") eqn:En; cbn [negb].
  - intros [= <-]. exact Hs.
  - apply String.eqb_neq in En. unfold validateNameComp.
    destruct (nameCompOk (headComp (nameRem h))) eqn:Eok; [|discriminate].
    cbn [mbind Exec_bind].
    exec_case (deref fs (n h)).
    destruct (Z.land (mode a) ModeDir =? 0)%Z; [discriminate|].
    exec_case (dirLookup fs a (headComp (nameRem h))).
    destruct a0 as [childN|]; [|discriminate].
    exec_case (deref fs childN).
    destruct (err a0); [discriminate|].
    match goal with |- context [updateFromChildN ?a ?b ?c ?d] =>
      exec_case (updateFromChildN a b c d) end.
    destruct a1 as [h2 [e|]]; [discriminate|]. intros [= <-].
    eapply updateFromChildN_shaped; [|split; [exact En|split;
      [apply headComp_lacks_slash | exact Eok]] | exact E2].
    exact Hs.
Qed.

Lemma run_shaped (fuel : nat) fs h h' :
  shaped h -> run fuel fs h = Ret (h', None) -> shaped h'.
Proof.
  revert h. induction fuel as [|fuel IH]; intros h Hs; cbn [run];
    destruct (String.eqb (nameRem h) ""); try (now intros [= <-]);
    try discriminate.
  exec_case (runBody fs h). destruct a as [h1|[h1 e1]].
  - apply IH. eapply runBody_shaped; eassumption.
  - intros [= -> ->]. now apply runBody_inr_error in E.
Qed.

Lemma components_appendComps (r : string) (cs : list string) :
  Forall okComp cs -> components (appendComps r cs) = (components r ++ cs)%list.
Proof.
  intros Hcs. revert r. induction Hcs as [|c cs (Hne & Hl & _) _ IH]; intros r.
  - cbn. now rewrite app_nil_r.
  - cbn [appendComps fold_left]. fold (appendComps (r ++ "/" ++ c) cs).
    rewrite IH, components_snoc by assumption. now rewrite <- app_assoc.
Qed.

Lemma isAbs_appendComps (r : string) (cs : list string) :
  isAbs r = true -> isAbs (appendComps r cs) = true.
Proof.
  revert r. induction cs as [|c cs IH]; intros r Hr; [exact Hr|].
  cbn [appendComps fold_left]. apply IH. destruct r; [discriminate | exact Hr].
Qed.

Lemma okComp_allOk (cs : list string) : Forall okComp cs -> allOk cs.
Proof.
  unfold allOk. intros Hcs. eapply Forall_impl; [exact Hcs|].
  now intros c (_ & _ & Hc).
Qed.

Lemma components_single (c : string) :
  c <> "" -> lacks slash c -> components c = [c].
Proof.
  intros Hne Hl. rewrite (components_step c Hne). cbv zeta.
  unfold lacks in Hl. rewrite Hl. reflexivity.
Qed.

Lemma targetIsAbs_lacks (c : string) : lacks slash c -> targetIsAbs c = false.
Proof.
  destruct c as [|x c]; [reflexivity|]. intros Hl. apply lacks_cons in Hl as [Hx _].
  cbn [targetIsAbs]. now apply Ascii.eqb_neq.
Qed.

Lemma headComp_shorter (s : string) : (len (headComp s) <= len s)%nat.
Proof.
  unfold headComp. destruct (IndexByte s slash <? 0)%Z; [lia|].
  rewrite len_sliceTo. lia.
Qed.

(** A name with a slash is its first component, the slash and the rest. *)
Lemma head_slash_tail (s : string) :
  tailName s <> "" -> s = headComp s ++ "/" ++ tailName s.
Proof.
  unfold headComp, tailName. destruct (IndexByte s slash <? 0)%Z eqn:E;
    [congruence|]. intros _. apply Z.ltb_ge in E.
  exact (split_at_IndexByte s slash E).
Qed.

(** Below a link to itself the loop substitutes until the budget of links
    is spent. *)
Lemma run_selfLink (fuel : nat) fs (m : loc) (c : string) (post : list string) :
  selfLink fs m c -> nameCompOk c = true ->
  forall h,
    n h = m -> components (nameRem h) = c :: post ->
    (0 <= links h <= 255)%Z ->
    (len (nameRem h) + Z.to_nat (256 - links h) <= fuel)%nat ->
    exists h', run fuel fs h = Ret (h', Some errTooManyLinks)
               /\ resolved h' = resolved h.
Proof.
  intros (nd & l & child & Hm & Hd & Hlk & Hch & He & Hsy & Hx) Hok.
  induction fuel as [|fuel IH]; intros h Hn Hc Hl Hf; [lia|].
  cbn [run]. destruct (String.eqb (nameRem h) "") eqn:En.
  { apply String.eqb_eq in En. rewrite En in Hc. discriminate. }
  apply String.eqb_neq in En.
  rewrite (components_cut _ En) in Hc. pose proof (tailName_shorter _ En).
  destruct (String.eqb (headComp (nameRem h)) "") eqn:Eh.
  - apply String.eqb_eq in Eh. rewrite (runBody_skip _ _ Eh). cbn [mbind Exec_bind].
    cbn [app] in Hc.
    destruct (IH {| n := n h; links := links h; resolved := resolved h;
                    nameRem := tailName (nameRem h) |})
      as (h' & Hr & Hres); cbn [nameRem n links resolved]; auto; try lia.
    exists h'. auto.
  - apply String.eqb_neq in Eh. cbn [app] in Hc. injection Hc as Hhead Htail.
    pose proof (headComp_lacks_slash (nameRem h)) as Hlacks.
    unfold runBody. rewrite getNameComp_head, updateNameRem_tail.
    apply String.eqb_neq in Eh. rewrite Eh. cbn [negb]. apply String.eqb_neq in Eh.
    rewrite Hhead in *. unfold validateNameComp. rewrite Hok. cbn [mbind Exec_bind].
    rewrite Hn, Hm. cbn [mbind Exec_bind]. rewrite Hd, Hlk. cbn [mbind Exec_bind].
    rewrite Hch. cbn [mbind Exec_bind]. rewrite He.
    destruct (Z.eq_dec (links h) 255%Z) as [E255|N255].
    + rewrite (updateFromChildN_too_many fs _ l child c Hch Hsy)
        by (cbn [links]; lia).
      cbn [mbind Exec_bind]. eexists. split; [reflexivity | reflexivity].
    + rewrite (updateFromChildN_substitutes fs _ l child c c Hch Hsy Hx)
        by (cbn [links]; lia).
      cbn [mbind Exec_bind n links resolved nameRem].
      rewrite (targetIsAbs_lacks c Hlacks). cbn [sliceFrom].
      match goal with |- context [run fuel fs ?h2] =>
        destruct (IH h2) as (h' & Hr & Hres) end;
        cbn [nameRem n links resolved]; auto; try lia.
      * destruct (String.eqb (tailName (nameRem h)) "") eqn:Et.
        -- apply String.eqb_eq in Et. rewrite Et in Htail. cbn in Htail.
           subst post. rewrite str_app_nil_r. now apply components_single.
        -- apply String.eqb_neq in Et. rewrite <- Hhead.
           rewrite <- (head_slash_tail _ Et). rewrite (components_cut _ En).
           apply String.eqb_neq in Eh. rewrite Hhead, Eh. cbn [app].
           now rewrite Htail.
      * assert (Hlen : (len (c ++ (if String.eqb (tailName (nameRem h)) "" then ""
                                   else "/" ++ tailName (nameRem h)))
                        <= len (nameRem h))%nat).
        { destruct (String.eqb (tailName (nameRem h)) "") eqn:Et.
          - rewrite str_app_nil_r, <- Hhead. apply headComp_shorter.
          - apply String.eqb_neq in Et. rewrite <- Hhead.
            rewrite <- (head_slash_tail _ Et). lia. }
        lia.
      * exists h'. auto.
Qed.

End EvalSymlinksShape.

Section EvalSymlinksTheorems.
Import FileMode Fs.
Context `{NameValidator}.

(** [EvalSymlinks] on a path of existing components that are no links. *)
Lemma EvalSymlinks_plain (fs : InMemoryFileSystem) (path : string)
    (start final : loc) :
  evalStart fs path = Some start ->
  allOk (components path) ->
  walkPlain fs start (components path) = Some final ->
  EvalSymlinks fs path = Ret (appendComps (evalBase path) (components path), None).
Proof.
  intros Hs Hok Hw. rewrite (EvalSymlinks_from_start _ _ _ Hs).
  rewrite <- components_walkName in Hok, Hw.
  rewrite (run_plain _ fs _ final); cbn [nameRem n];
    [|apply budget_exceeds_len | assumption | assumption].
  cbn [mbind Exec_bind resolved]. now rewrite components_walkName.
Qed.

(** X7. On a path whose components all exist and are no symbolic links,
    [EvalSymlinks] returns nil and the path rebuilt from its components:
    the starting [resolved] (["/"] for an absolute path, empty otherwise)
    followed by a slash and the component, for each component in turn.
    Repeated and trailing slashes are dropped; an absolute path comes back
    with two leading slashes, and a relative one with one. *)
Theorem EvalSymlinks_plain_path (fs : InMemoryFileSystem) (path : string)
    (start final : loc) :
  evalStart fs path = Some start ->
  allOk (components path) ->
  walkPlain fs start (components path) = Some final ->
  EvalSymlinks fs path = Ret (appendComps (evalBase path) (components path), None).
Proof. intros. eapply EvalSymlinks_plain; eassumption. Qed.

(** [EvalSymlinks] up to a component that cannot be entered. *)
Lemma EvalSymlinks_stops (fs : InMemoryFileSystem) (path : string)
    (start m : loc) (pre post : list string) (c : string) (e : error) :
  evalStart fs path = Some start ->
  components path = (pre ++ c :: post)%list ->
  allOk (pre ++ [c]) ->
  walkPlain fs start pre = Some m ->
  stepError fs m c = Some e ->
  EvalSymlinks fs path = Ret (appendComps (evalBase path) pre, Some e).
Proof.
  intros Hs Hc Hok Hw He. rewrite (EvalSymlinks_from_start _ _ _ Hs).
  rewrite <- components_walkName in Hc.
  destruct (run_stops (S (walkBudget fs (walkName path))) fs
              {| n := start; links := 0; resolved := evalBase path;
                 nameRem := walkName path |} pre post c m e)
    as (h' & Hr & _ & Hres); cbn [nameRem n]; auto using budget_exceeds_len.
  rewrite Hr. cbn [mbind Exec_bind]. now rewrite Hres.
Qed.

(** X8. [EvalSymlinks] fails at the first component that cannot be entered,
    the ones before it existing and being no symbolic links: with [ENOTDIR]
    when the node reached is no directory, [os.ErrNotExist] when it holds no
    child of that name, and the child's seeded error when it carries one.
    The path returned with the error is the part resolved before that
    component. *)
Theorem EvalSymlinks_stops_at_first_failure (fs : InMemoryFileSystem) (path : string)
    (start m : loc) (pre post : list string) (c : string) (e : error) :
  evalStart fs path = Some start ->
  components path = (pre ++ c :: post)%list ->
  allOk (pre ++ [c]) ->
  walkPlain fs start pre = Some m ->
  stepError fs m c = Some e ->
  EvalSymlinks fs path = Ret (appendComps (evalBase path) pre, Some e).
Proof. intros. eapply EvalSymlinks_stops; eassumption. Qed.

(** X9. What [EvalSymlinks] returns for an absolute path is a fixed point:
    resolving the returned path again succeeds and returns it unchanged. *)
Theorem EvalSymlinks_idempotent (fs : InMemoryFileSystem) (path r : string) :
  isAbs path = true ->
  EvalSymlinks fs path = Ret (r, None) ->
  EvalSymlinks fs r = Ret (r, None).
Proof.
  intros Habs He.
  assert (Hstart : evalStart fs path = Some (root fs)
                   /\ forall p, isAbs p = true -> evalStart fs p = Some (root fs)).
  { unfold EvalSymlinks in He. unfold evalStart. rewrite Habs in *.
    destruct (deref fs (root fs)) as [rootN| |]; try discriminate.
    cbn [mbind Exec_bind] in He. destruct (err rootN); [discriminate|].
    split; [reflexivity|]. now intros p ->. }
  destruct Hstart as [Hs Hall].
  rewrite (EvalSymlinks_from_start _ _ _ Hs) in He.
  unfold evalBase in He. rewrite Habs in He.
  match type of He with context [run ?f fs ?h] =>
    destruct (run f fs h) as [[h' e']| |] eqn:Er end;
    cbn [mbind Exec_bind] in He; try discriminate.
  injection He as Hr He'. subst r e'.
  assert (Ht : tracked fs (root fs) h').
  { eapply run_tracked; [|exact Er]. reflexivity. }
  assert (Hsh : shaped h').
  { eapply run_shaped; [|exact Er]. exists []. split; [reflexivity | constructor]. }
  destruct Hsh as (cs & Hres & Hcs).
  unfold tracked, anchor in Ht.
  assert (Ht' : walkPlain fs (root fs) (components (resolved h')) = Some (n h'))
    by (destruct (rootAnchored (resolved h')); exact Ht).
  assert (Hcomps : components (resolved h') = cs)
    by (rewrite Hres; now rewrite components_appendComps).
  assert (Habs' : isAbs (resolved h') = true)
    by (rewrite Hres; now apply isAbs_appendComps).
  rewrite (EvalSymlinks_from_start _ _ _ (Hall _ Habs')).
  rewrite (run_plain _ fs _ (n h')); cbn [nameRem n];
    [|apply budget_exceeds_len
     |rewrite components_walkName, Hcomps; now apply okComp_allOk
     |now rewrite components_walkName].
  cbn [mbind Exec_bind resolved]. rewrite components_walkName, Hcomps.
  unfold evalBase. rewrite Habs'. now rewrite <- Hres.
Qed.

(** X10. A symbolic link whose target is its own name does not make
    [EvalSymlinks] loop: every path whose first component names such a link
    in the directory the walk starts from fails with [errTooManyLinks],
    [resolved] being what it was at the start. *)
Theorem EvalSymlinks_self_link (fs : InMemoryFileSystem) (path : string)
    (start : loc) (c : string) (post : list string) :
  evalStart fs path = Some start ->
  selfLink fs start c ->
  nameCompOk c = true ->
  components path = c :: post ->
  EvalSymlinks fs path = Ret (evalBase path, Some errTooManyLinks).
Proof.
  intros Hs Hself Hok Hc. rewrite (EvalSymlinks_from_start _ _ _ Hs).
  rewrite <- components_walkName in Hc.
  destruct (run_selfLink (S (walkBudget fs (walkName path))) fs start c post Hself Hok
              {| n := start; links := 0; resolved := evalBase path;
                 nameRem := walkName path |})
    as (h' & Hr & Hres); cbn [nameRem n links]; auto; try lia.
  { unfold walkBudget. lia. }
  rewrite Hr. cbn [mbind Exec_bind]. now rewrite Hres.
Qed.

End EvalSymlinksTheorems.

Lemma EvalSymlinks_plain_path_witness :
  @Fs.EvalSymlinks Scenario.specValidator Scenario.vfs "/dir2//file/"
  = Ret ("//dir2/file", None).
Proof.
  apply (@EvalSymlinks_plain_path Scenario.specValidator Scenario.vfs "/dir2//file/"
           0%nat 7%nat).
  - reflexivity.
  - repeat constructor.
  - reflexivity.
Defined.

Lemma EvalSymlinks_stops_at_first_failure_witness :
  @Fs.EvalSymlinks Scenario.specValidator Scenario.vfs "/dir/file1/x"
  = Ret ("//dir/file1", Some ENOTDIR)
  /\ @Fs.EvalSymlinks Scenario.specValidator Scenario.vfs "/dir/nope/x"
     = Ret ("//dir", Some ErrNotExist)
  /\ @Fs.EvalSymlinks Scenario.specValidator Scenario.vfs "/origerr"
     = Ret ("/", Some Scenario.errTest).
Proof.
  split; [|split].
  - apply (@EvalSymlinks_stops_at_first_failure Scenario.specValidator Scenario.vfs
             "/dir/file1/x" 0%nat 4%nat ["dir"; "file1"] [] "x" ENOTDIR);
      try reflexivity. repeat constructor.
  - apply (@EvalSymlinks_stops_at_first_failure Scenario.specValidator Scenario.vfs
             "/dir/nope/x" 0%nat 3%nat ["dir"] ["x"] "nope" ErrNotExist);
      try reflexivity. repeat constructor.
  - apply (@EvalSymlinks_stops_at_first_failure Scenario.specValidator Scenario.vfs
             "/origerr" 0%nat 0%nat [] [] "origerr" Scenario.errTest);
      try reflexivity. repeat constructor.
Defined.

Lemma EvalSymlinks_idempotent_witness :
  @Fs.EvalSymlinks Scenario.specValidator Scenario.vfs "//dir2/file"
  = Ret ("//dir2/file", None).
Proof.
  apply (@EvalSymlinks_idempotent Scenario.specValidator Scenario.vfs
           "/dir3/symlink/symlink" "//dir2/file").
  - reflexivity.
  - vm_compute. reflexivity.
Defined.

Lemma EvalSymlinks_self_link_witness :
  @Fs.EvalSymlinks Scenario.specValidator Scenario.loopFs "/loop/x"
  = Ret ("/", Some errTooManyLinks).
Proof.
  apply (@EvalSymlinks_self_link Scenario.specValidator Scenario.loopFs "/loop/x"
           0%nat "loop" ["x"]).
  - reflexivity.
  - exists (Scenario.dirNode "/" [1%nat]), 1%nat, (Scenario.linkNode "loop" "loop").
    repeat split; reflexivity.
  - reflexivity.
  - reflexivity.
Defined.

(** ** Creating directories only adds to the store *)

Section StoreExtension.
Import FileMode Fs.
Context `{NameValidator}.

Lemma sameHead_refl (nd : node) : sameHead nd nd.
Proof.
  unfold sameHead. repeat split; auto.
  destruct (extra nd); [reflexivity | exists []; now rewrite app_nil_r].
Qed.

Lemma sameHead_trans (a b c : node) : sameHead a b -> sameHead b c -> sameHead a c.
Proof.
  unfold sameHead. intros (A1 & A2 & A3 & A4) (B1 & B2 & B3 & B4).
  repeat split; try congruence.
  destruct (extra a), (extra b), (extra c); try contradiction; try congruence.
  destruct A4 as [m1 ->], B4 as [m2 ->]. exists (m1 ++ m2)%list.
  now rewrite app_assoc.
Qed.

Lemma extends_refl (fs : InMemoryFileSystem) : extends fs fs.
Proof.
  unfold extends. repeat split; auto. intros l nd Hl. exists nd.
  split; [assumption | apply sameHead_refl].
Qed.

Lemma extends_trans (a b c : InMemoryFileSystem) :
  extends a b -> extends b c -> extends a c.
Proof.
  unfold extends. intros (A1 & A2 & A3 & A4 & A5) (B1 & B2 & B3 & B4 & B5).
  repeat split; try congruence; try lia.
  intros l nd Hl. destruct (A5 _ _ Hl) as (nd1 & H1 & S1).
  destruct (B5 _ _ H1) as (nd2 & H2 & S2). exists nd2.
  split; [assumption | eapply sameHead_trans; eassumption].
Qed.

Lemma extends_deref fs fs' (l : loc) (nd : node) :
  extends fs fs' -> deref fs l = Ret nd ->
  exists nd', deref fs' l = Ret nd' /\ sameHead nd nd'.
Proof.
  intros (_ & _ & _ & _ & Hx) Hd. apply deref_Ret in Hd.
  destruct (Hx _ _ Hd) as (nd' & Hl & Hs). exists nd'.
  split; [now apply deref_Ret | assumption].
Qed.

Lemma extends_lookupIn_Some fs fs' (dir more : list loc) (c : string) (l : loc) :
  extends fs fs' -> lookupIn fs dir c = Ret (Some l) ->
  lookupIn fs' (dir ++ more) c = Ret (Some l).
Proof.
  intros Hx. induction dir as [|x dir IH]; cbn [lookupIn app]; [discriminate|].
  exec_case (deref fs x).
  destruct (extends_deref _ _ _ _ Hx E) as (nd' & -> & (_ & _ & Hn & _)).
  cbn [mbind Exec_bind]. rewrite Hn.
  destruct (String.eqb (name a) c); [auto | exact IH].
Qed.

Lemma extends_lookupIn_None fs fs' (dir more : list loc) (c : string) :
  extends fs fs' -> lookupIn fs dir c = Ret None ->
  lookupIn fs' (dir ++ more) c = lookupIn fs' more c.
Proof.
  intros Hx. induction dir as [|x dir IH]; cbn [lookupIn app]; [reflexivity|].
  exec_case (deref fs x).
  destruct (extends_deref _ _ _ _ Hx E) as (nd' & -> & (_ & _ & Hn & _)).
  cbn [mbind Exec_bind]. rewrite Hn.
  destruct (String.eqb (name a) c); [discriminate | exact IH].
Qed.

Lemma extends_dirLookup_Some fs fs' (nd nd' : node) (c : string) (l : loc) :
  extends fs fs' -> sameHead nd nd' -> dirLookup fs nd c = Ret (Some l) ->
  dirLookup fs' nd' c = Ret (Some l).
Proof.
  intros Hx (_ & _ & _ & Hs). unfold dirLookup.
  destruct (extra nd) as [b|dir]; [discriminate|].
  destruct (extra nd') as [b'|dir']; [contradiction|]. destruct Hs as [more ->].
  now apply extends_lookupIn_Some.
Qed.

Lemma extends_stepPlain fs fs' (l l' : loc) (c : string) :
  extends fs fs' -> stepPlain fs l c = Some l' -> stepPlain fs' l c = Some l'.
Proof.
  intros Hx Hs.
  destruct (stepPlain_inv _ _ _ _ Hs) as (nd & child & Hn & Hd & Hlk & Hch & Hsy & He).
  destruct (extends_deref _ _ _ _ Hx Hn) as (nd' & Hn' & Hsame).
  destruct (extends_deref _ _ _ _ Hx Hch) as (child' & Hch' & (He' & Hm' & _)).
  unfold stepPlain. rewrite Hn'. destruct Hsame as (S1 & S2 & S3 & S4).
  unfold IsDir, IsSymlink. rewrite S2, Hd. cbn [negb].
  rewrite (extends_dirLookup_Some fs fs' nd nd' c l' Hx) by (repeat split; auto).
  rewrite Hch', Hm', Hsy, He', He. reflexivity.
Qed.

Lemma extends_walkPlain fs fs' (l final : loc) (comps : list string) :
  extends fs fs' -> walkPlain fs l comps = Some final ->
  walkPlain fs' l comps = Some final.
Proof.
  intros Hx. revert l. induction comps as [|c comps IH]; intros l; cbn [walkPlain];
    [auto|].
  destruct (stepPlain fs l c) as [l'|] eqn:Es; [|discriminate].
  rewrite (extends_stepPlain _ _ _ _ _ Hx Es). apply IH.
Qed.

Lemma extends_isDirAt fs fs' (l : loc) :
  extends fs fs' -> isDirAt fs l = true -> isDirAt fs' l = true.
Proof.
  intros Hx Hd. destruct (isDirAt_inv _ _ Hd) as (nd & Hn & Hm).
  destruct (extends_deref _ _ _ _ Hx Hn) as (nd' & Hn' & (_ & Hm' & _)).
  unfold isDirAt. now rewrite Hn', Hm'.
Qed.

(** What [dirAppend] does to the store. *)
Lemma dirAppend_spec fs (n : loc) (child : node) fs' (childN : loc) :
  dirAppend fs n child = Ret (fs', childN) ->
  exists parent dir,
    store fs !! n = Some parent /\ extra parent = Entries dir
    /\ childN = length (store fs)
    /\ fs' = {| AbsError := AbsError fs; cwd := cwd fs; root := root fs;
                store := <[n := {| err := err parent;
                                   extra := Entries (dir ++ [length (store fs)]);
                                   mode := mode parent; name := name parent |}]>
                           (store fs) ++ [child] |}.
Proof.
  unfold dirAppend. exec_case (deref fs n). apply deref_Ret in E.
  destruct (extra a) as [b|dir] eqn:Ex; [discriminate|].
  intros [= <- <-]. exists a, dir. auto.
Qed.

Lemma dirAppend_extends fs (n : loc) (child : node) fs' (childN : loc) :
  dirAppend fs n child = Ret (fs', childN) ->
  extends fs fs' /\ childN = length (store fs)
  /\ length (store fs') = S (length (store fs))
  /\ deref fs' childN = Ret child.
Proof.
  intros Hd. destruct (dirAppend_spec _ _ _ _ _ Hd) as (parent & dir & Hp & Hx & -> & ->).
  pose proof (lookup_lt_Some _ _ _ Hp) as Hlt.
  split; [|split; [reflexivity|split]].
  - unfold extends. cbn [AbsError cwd root store].
    rewrite length_app, length_insert. cbn [length].
    repeat split; auto; try lia.
    intros l nd Hl. pose proof (lookup_lt_Some _ _ _ Hl) as Hll.
    rewrite lookup_app_l by (rewrite length_insert; lia).
    destruct (Nat.eq_dec n l) as [<-|Hne].
    + rewrite list_lookup_insert_eq by assumption. eexists. split; [reflexivity|].
      rewrite Hp in Hl. injection Hl as <-.
      unfold sameHead. cbn [err mode name extra]. rewrite Hx.
      repeat split; auto. eauto.
    + rewrite list_lookup_insert_ne by assumption. exists nd.
      split; [assumption | apply sameHead_refl].
  - cbn [store]. rewrite length_app, length_insert. cbn [length]. lia.
  - apply deref_Ret. cbn [store].
    rewrite lookup_app_r by (rewrite length_insert; lia).
    rewrite length_insert, Nat.sub_diag. reflexivity.
Qed.

(** The child [dirAppend] adds is found under its name when the directory
    held no child of that name. *)
Lemma dirAppend_step fs (n : loc) (child : node) fs' (childN : loc) :
  dirAppend fs n child = Ret (fs', childN) ->
  lacksChild fs n (name child) ->
  err child = None -> IsSymlink (mode child) = false ->
  stepPlain fs' n (name child) = Some childN.
Proof.
  intros Hd (nd & Hn & Hdir & Hlk) He Hs.
  destruct (dirAppend_extends _ _ _ _ _ Hd) as (Hx & HcN & _ & Hch).
  destruct (dirAppend_spec _ _ _ _ _ Hd) as (parent & dir & Hp & Hex & _ & Hfs).
  apply deref_Ret in Hn. rewrite Hn in Hp. injection Hp as <-.
  pose proof Hn as Hp.
  pose proof (lookup_lt_Some _ _ _ Hp) as Hlt.
  assert (Hn' : deref fs' n
                = Ret {| err := err nd; extra := Entries (dir ++ [length (store fs)]);
                         mode := mode nd; name := name nd |}).
  { apply deref_Ret. rewrite Hfs. cbn [store].
    rewrite lookup_app_l by (rewrite length_insert; lia).
    now rewrite list_lookup_insert_eq by assumption. }
  unfold stepPlain. rewrite Hn'. cbn [mode]. unfold IsDir. rewrite Hdir. cbn [negb].
  unfold dirLookup in Hlk |- *. rewrite Hex in Hlk. cbn [extra].
  rewrite (extends_lookupIn_None fs fs' dir _ _ Hx Hlk). cbn [lookupIn].
  rewrite <- HcN, Hch. cbn [mbind Exec_bind]. rewrite String.eqb_refl.
  rewrite Hch, Hs, He. reflexivity.
Qed.

Lemma wfNode_mono fs fs' (nd : node) :
  (length (store fs) <= length (store fs'))%nat ->
  wfNode fs nd = true -> wfNode fs' nd = true.
Proof.
  intros Hle. unfold wfNode. intros Hw. apply andb_true_iff in Hw as [H1 H2].
  rewrite H1. cbn [andb].
  destruct (negb (Z.land (mode nd) ModeDir =? 0)%Z); [|reflexivity].
  destruct (extra nd) as [b|dir]; [discriminate|].
  rewrite forallb_forall in *. intros c Hc. specialize (H2 c Hc).
  apply Nat.ltb_lt in H2. apply Nat.ltb_lt. lia.
Qed.

Lemma forallb_insert {A : Type} (f : A -> bool) (l : list A) (i : nat) (x : A) :
  forallb f l = true -> f x = true -> forallb f (<[i:=x]> l) = true.
Proof.
  revert i. induction l as [|y l IH]; intros i Hl Hx; [reflexivity|].
  cbn [forallb] in Hl. apply andb_true_iff in Hl as [Hy Hl].
  destruct i as [|i]; cbn; rewrite ?Hx, ?Hy; cbn; [assumption | now apply IH].
Qed.

Lemma no_type_bits_symlink (perm : Z) :
  Z.land perm ModeType = 0%Z ->
  (Z.land (Z.lor ModeDir perm) ModeSymlink =? 0)%Z = true.
Proof.
  intros Hp. apply Z.eqb_eq. rewrite Z.land_lor_distr_l.
  change (Z.land ModeDir ModeSymlink) with 0%Z. rewrite Z.lor_0_l.
  change ModeSymlink with (Z.land ModeType ModeSymlink).
  now rewrite Z.land_assoc, Hp.
Qed.

Lemma newDirNode_dir (perm : Z) (c : string) :
  (Z.land (mode (newDirNode perm c)) ModeDir =? 0)%Z = false.
Proof.
  cbn [newDirNode mode]. apply Z.eqb_neq. rewrite Z.land_lor_distr_l.
  change (Z.land ModeDir ModeDir) with ModeDir. intros Hz.
  apply Z.lor_eq_0_iff in Hz as [Hz _]. discriminate.
Qed.

Lemma dirAppend_wf fs (n : loc) (perm : Z) (c : string) fs' (childN : loc) :
  wfStore fs = true -> Z.land perm ModeType = 0%Z ->
  dirAppend fs n (newDirNode perm c) = Ret (fs', childN) ->
  wfStore fs' = true.
Proof.
  intros Hwf Hp Hd.
  destruct (dirAppend_extends _ _ _ _ _ Hd) as ((_ & _ & Hr & Hle & _) & _ & Hlen & _).
  destruct (dirAppend_spec _ _ _ _ _ Hd) as (parent & dir & Hpar & Hex & _ & Hfs).
  pose proof (wf_root fs Hwf) as Hroot.
  pose proof (wf_lookup fs Hwf _ _ Hpar) as Hwp.
  unfold wfStore. rewrite Hr. apply andb_true_iff. split; [apply Nat.ltb_lt; lia|].
  assert (Hold : forallb (wfNode fs') (store fs) = true).
  { unfold wfStore in Hwf. apply andb_true_iff in Hwf as [_ Hall].
    rewrite forallb_forall in *. intros nd Hin. eapply wfNode_mono; eauto. }
  rewrite Hfs at 2. cbn [store]. rewrite forallb_app. apply andb_true_iff. split.
  - apply forallb_insert; [assumption|].
    unfold wfNode in Hwp |- *. cbn [mode extra]. rewrite Hex in Hwp.
    apply andb_true_iff in Hwp as [H1 H2].
    destruct (negb (Z.land (mode parent) ModeSymlink =? 0)%Z); [discriminate|].
    cbn [andb].
    destruct (negb (Z.land (mode parent) ModeDir =? 0)%Z); [|reflexivity].
    rewrite forallb_app. apply andb_true_iff. split.
    + rewrite forallb_forall in *. intros x Hx. specialize (H2 x Hx).
      apply Nat.ltb_lt in H2. apply Nat.ltb_lt. lia.
    + cbn [forallb]. rewrite andb_true_r. apply Nat.ltb_lt. lia.
  - cbn [forallb]. rewrite andb_true_r. unfold wfNode.
    rewrite newDirNode_dir. cbn [newDirNode mode extra].
    rewrite (no_type_bits_symlink perm Hp). reflexivity.
Qed.

End StoreExtension.

(** ** [find] up to a missing component, and the directories [mkdirCommon]
       creates *)

Section MkdirCreates.
Import FileMode Fs.
Context `{NameValidator}.

Lemma IndexByte_app_lacks (a b : string) :
  lacks slash a -> IndexByte (a ++ String slash b) slash = Z.of_nat (len a).
Proof.
  induction a as [|x a IH]; intros Hl.
  - rewrite str_app_nil_l, IndexByte_cons. unfold slash. now rewrite Ascii.eqb_refl.
  - apply lacks_cons in Hl as [Hx Hl]. rewrite str_app_cons, IndexByte_cons.
    apply Ascii.eqb_neq in Hx. rewrite Hx, IH by assumption.
    destruct (Z.of_nat (len a) <? 0)%Z eqn:E; [apply Z.ltb_lt in E; lia|].
    cbn [len String.length]. unfold len. lia.
Qed.

Lemma sliceTo_app (a b : string) : sliceTo (a ++ b) (len a) = a.
Proof.
  induction a as [|x a IH]; [reflexivity|].
  rewrite str_app_cons. cbn [len String.length sliceTo]. f_equal. exact IH.
Qed.

Lemma sliceFrom_app_cons (a b : string) (x : ascii) :
  sliceFrom (a ++ String x b) (S (len a)) = b.
Proof.
  induction a as [|y a IH]; [reflexivity|].
  rewrite str_app_cons. cbn [len String.length sliceFrom]. exact IH.
Qed.

Lemma headComp_app (a b : string) : lacks slash a -> headComp (a ++ "/" ++ b) = a.
Proof.
  intros Hl. unfold headComp. change ("/" ++ b) with (String slash b).
  rewrite (IndexByte_app_lacks a b Hl).
  destruct (Z.of_nat (len a) <? 0)%Z eqn:E; [apply Z.ltb_lt in E; lia|].
  rewrite Nat2Z.id. apply sliceTo_app.
Qed.

Lemma tailName_app (a b : string) : lacks slash a -> tailName (a ++ "/" ++ b) = b.
Proof.
  intros Hl. unfold tailName. change ("/" ++ b) with (String slash b).
  rewrite (IndexByte_app_lacks a b Hl).
  destruct (Z.of_nat (len a) <? 0)%Z eqn:E; [apply Z.ltb_lt in E; lia|].
  replace (Z.to_nat (Z.of_nat (len a) + 1)) with (S (len a)) by lia.
  apply sliceFrom_app_cons.
Qed.

(** A name is its first component, and with a slash in it the slash and
    the rest. *)
Lemma head_tail_cases (s : string) :
  (lacks slash s /\ headComp s = s /\ tailName s = "")
  \/ s = headComp s ++ "/" ++ tailName s.
Proof.
  unfold headComp, tailName. destruct (IndexByte s slash <? 0)%Z eqn:E.
  - left. split; [now apply IndexByte_neg | auto].
  - right. apply Z.ltb_ge in E. exact (split_at_IndexByte s slash E).
Qed.

Lemma findLoop_missing_here (fuel : nat) fs rl (n : loc) links (rem : string) :
  rem <> "" -> headComp rem <> "" -> nameCompOk (headComp rem) = true ->
  lacksChild fs n (headComp rem) ->
  findLoop (S fuel) fs rl true n links rem = Ret (Some n, rem, Some ErrNotExist).
Proof.
  intros Hne Hh Hok (nd & Hn & Hd & Hlk). rewrite findLoop_cut by assumption.
  apply String.eqb_neq in Hh. rewrite Hh. unfold validateNameComp. rewrite Hok.
  cbn [mbind Exec_bind]. rewrite Hn. cbn [mbind Exec_bind]. rewrite Hd, Hlk.
  reflexivity.
Qed.

(** Up to a component that is missing [find] walks the directories before
    it and hands back the directory reached and the name from the missing
    component on. *)
Lemma findLoop_missing (fuel : nat) fs rl (n : loc) links (nameRem : string)
    (pre post : list string) (c : string) (m : loc) :
  (len nameRem < fuel)%nat ->
  components nameRem = (pre ++ c :: post)%list ->
  allOk (pre ++ [c]) ->
  walkPlain fs n pre = Some m ->
  lacksChild fs m c ->
  exists rem,
    findLoop fuel fs rl true n links nameRem = Ret (Some m, rem, Some ErrNotExist)
    /\ components rem = c :: post /\ (len rem <= len nameRem)%nat.
Proof.
  revert n nameRem pre. induction fuel as [|fuel IH];
    intros n nameRem pre Hf Hc Hok Hw Hl; [lia|].
  destruct (String.eqb nameRem "") eqn:En.
  { apply String.eqb_eq in En. subst. cbn in Hc. now destruct pre. }
  apply String.eqb_neq in En.
  pose proof (components_cut _ En) as Hcut. pose proof (tailName_shorter _ En).
  destruct (String.eqb (headComp nameRem) "") eqn:Eh.
  - rewrite findLoop_cut, Eh by assumption. cbn [app] in Hcut. rewrite Hcut in Hc.
    destruct (IH n (tailName nameRem) pre) as (rem & Hr & Hcr & Hlen); auto; try lia.
    exists rem. repeat split; auto. lia.
  - cbn [app] in Hcut. rewrite Hcut in Hc.
    destruct pre as [|x pre]; cbn [app] in Hc, Hok; injection Hc as Hhead Htail;
      inversion Hok as [|? ? Hx Hok']; subst.
    + cbn [walkPlain] in Hw. injection Hw as <-.
      apply String.eqb_neq in Eh. exists nameRem.
      rewrite findLoop_missing_here by assumption.
      repeat split; auto.
    + rewrite findLoop_cut, Eh by assumption.
      unfold validateNameComp. rewrite Hx. cbn [mbind Exec_bind].
      cbn [walkPlain] in Hw.
      destruct (stepPlain fs n (headComp nameRem)) as [l'|] eqn:Es; [|discriminate].
      destruct (stepPlain_inv _ _ _ _ Es) as (nd & child & Hn & Hd & Hlk & Hch & Hs & He).
      rewrite Hn. cbn [mbind Exec_bind]. rewrite Hd, Hlk. cbn [mbind Exec_bind].
      rewrite Hch. cbn [mbind Exec_bind]. rewrite He, Hs. cbn [negb andb].
      destruct (IH l' (tailName nameRem) pre) as (rem & Hr & Hcr & Hlen);
        auto; try lia.
      exists rem. repeat split; auto. lia.
Qed.

(** With the last component of [d/c] missing, what is left of the name is
    [c]. *)
Lemma findLoop_missing_last (fuel : nat) fs rl (n : loc) links (d c : string) (m : loc) :
  (len (d ++ "/" ++ c) < fuel)%nat ->
  allOk (components d) -> okComp c ->
  walkPlain fs n (components d) = Some m ->
  lacksChild fs m c ->
  findLoop fuel fs rl true n links (d ++ "/" ++ c) = Ret (Some m, c, Some ErrNotExist).
Proof.
  intros Hf Hok (Hne & Hlc & Hokc) Hw Hl. revert n d Hf Hok Hw.
  assert (Hhc : headComp c = c).
  { unfold headComp. unfold lacks in Hlc. now rewrite Hlc. }
  assert (Base : forall f n, (0 < f)%nat -> lacksChild fs n c ->
            findLoop f fs rl true n links c = Ret (Some n, c, Some ErrNotExist)).
  { intros f n Hpos Hln. destruct f as [|f]; [lia|].
    apply findLoop_missing_here; rewrite ?Hhc; auto. }
  induction fuel as [|fuel IH]; intros n d Hf Hok Hw; [lia|].
  assert (Hnn : d ++ "/" ++ c <> "") by (destruct d; discriminate).
  rewrite !len_app in Hf. change (len "/") with 1%nat in Hf.
  pose proof (len_pos c Hne) as Hcpos.
  rewrite findLoop_cut by assumption.
  destruct (head_tail_cases d) as [(Hld & Hhd & Htd)|Hsplit].
  - rewrite (headComp_app d c Hld), (tailName_app d c Hld).
    destruct (String.eqb d "") eqn:Ed.
    + apply String.eqb_eq in Ed. subst d. cbn in Hw. injection Hw as <-.
      apply Base; [lia | assumption].
    + apply String.eqb_neq in Ed. rewrite (components_single d Ed Hld) in Hok, Hw.
      inversion Hok as [|? ? Hx _]; subst.
      unfold validateNameComp. rewrite Hx. cbn [mbind Exec_bind].
      cbn [walkPlain] in Hw.
      destruct (stepPlain fs n d) as [l'|] eqn:Es; [|discriminate].
      injection Hw as ->.
      destruct (stepPlain_inv _ _ _ _ Es) as (nd & child & Hn & Hd & Hlk & Hch & Hs & He).
      rewrite Hn. cbn [mbind Exec_bind]. rewrite Hd, Hlk. cbn [mbind Exec_bind].
      rewrite Hch. cbn [mbind Exec_bind]. rewrite He, Hs. cbn [negb andb].
      apply Base; [lia | assumption].
  - assert (Hd0 : d <> "").
    { intros ->. cbn in Hsplit. discriminate. }
    pose proof (headComp_lacks_slash d) as Hlh.
    assert (Hrw : d ++ "/" ++ c = headComp d ++ "/" ++ (tailName d ++ "/" ++ c)).
    { rewrite Hsplit at 1. now rewrite !str_app_assoc. }
    rewrite Hrw, (headComp_app _ _ Hlh), (tailName_app _ _ Hlh).
    rewrite (components_cut _ Hd0) in Hok, Hw. pose proof (tailName_shorter _ Hd0).
    destruct (String.eqb (headComp d) "") eqn:Eh.
    + cbn [app] in Hok, Hw. apply IH; auto.
      rewrite !len_app. change (len "/") with 1%nat. lia.
    + cbn [app] in Hok, Hw. inversion Hok as [|? ? Hx Hok']; subst.
      unfold validateNameComp. rewrite Hx. cbn [mbind Exec_bind].
      cbn [walkPlain] in Hw.
      destruct (stepPlain fs n (headComp d)) as [l'|] eqn:Es; [|discriminate].
      destruct (stepPlain_inv _ _ _ _ Es) as (nd & child & Hn & Hd & Hlk & Hch & Hs & He).
      rewrite Hn. cbn [mbind Exec_bind]. rewrite Hd, Hlk. cbn [mbind Exec_bind].
      rewrite Hch. cbn [mbind Exec_bind]. rewrite He, Hs. cbn [negb andb].
      apply IH; auto. rewrite !len_app. change (len "/") with 1%nat. lia.
Qed.

End MkdirCreates.

Section MkdirLoop.
Import FileMode Fs.
Context `{NameValidator}.

Lemma mkdirCommonAllLoop_cut (fuel : nat) fs (n : loc) (rem : string) (perm : Z) :
  rem <> "" ->
  mkdirCommonAllLoop (S fuel) fs n rem perm
  = ('(fs, n) ← (if negb (String.eqb (headComp rem) "") then
                   _ ← validateNameComp (headComp rem);
                   dirAppend fs n (newDirNode perm (headComp rem))
                 else Ret (fs, n));
     mkdirCommonAllLoop fuel fs n (tailName rem) perm).
Proof.
  intros Hne. cbn [mkdirCommonAllLoop]. apply String.eqb_neq in Hne. rewrite Hne.
  unfold headComp, tailName. rewrite Z.leb_antisym.
  destruct (IndexByte rem slash <? 0)%Z; reflexivity.
Qed.

Lemma dirAppend_returns fs (n : loc) (c : string) (child : node) :
  lacksChild fs n c -> exists fs1 childN, dirAppend fs n child = Ret (fs1, childN).
Proof.
  intros (nd & Hn & _ & Hlk). unfold dirAppend. rewrite Hn. cbn [mbind Exec_bind].
  unfold dirLookup in Hlk. destruct (extra nd); [discriminate | eauto].
Qed.

Lemma lacksChild_isDirAt fs (n : loc) (c : string) :
  lacksChild fs n c -> isDirAt fs n = true.
Proof.
  intros (nd & Hn & Hd & _). unfold isDirAt, IsDir. now rewrite Hn, Hd.
Qed.

Lemma newDirNode_lacksChild fs (l : loc) (perm : Z) (c c' : string) :
  deref fs l = Ret (newDirNode perm c) -> lacksChild fs l c'.
Proof.
  intros Hd. exists (newDirNode perm c). split; [assumption|].
  split; [apply newDirNode_dir | reflexivity].
Qed.

Lemma walkPlain_app fs (l : loc) (a b : list string) :
  walkPlain fs l (a ++ b)
  = match walkPlain fs l a with
    | Some l' => walkPlain fs l' b
    | None => None
    end.
Proof.
  revert l. induction a as [|x a IH]; intros l; cbn [app walkPlain]; [reflexivity|].
  destruct (stepPlain fs l x); [apply IH | reflexivity].
Qed.

(** The loop of [mkdirCommonAll] below a directory that lacks the first
    component: a directory for every component, each inside the one before. *)
Lemma mkdirCommonAllLoop_creates (fuel : nat) (perm : Z) :
  Z.land perm ModeType = 0%Z ->
  forall fs (n : loc) (rem : string),
    (len rem <= fuel)%nat ->
    allOk (components rem) ->
    (forall c rest, components rem = c :: rest -> lacksChild fs n c) ->
    isDirAt fs n = true ->
    exists fs' final,
      mkdirCommonAllLoop fuel fs n rem perm = Ret fs'
      /\ extends fs fs'
      /\ length (store fs') = (length (store fs) + length (components rem))%nat
      /\ walkPlain fs' n (components rem) = Some final
      /\ isDirAt fs' final = true.
Proof.
  intros Hp. induction fuel as [|fuel IH]; intros fs n rem Hf Hok Hl Hd.
  { assert (rem = "") by (apply len_zero; lia). subst rem.
    exists fs, n. cbn. rewrite Nat.add_0_r.
    split; [reflexivity|]. split; [apply extends_refl|]. repeat split; auto. }
  destruct (String.eqb rem "") eqn:En.
  { apply String.eqb_eq in En. subst rem. exists fs, n. cbn. rewrite Nat.add_0_r.
    split; [reflexivity|]. split; [apply extends_refl|]. repeat split; auto. }
  apply String.eqb_neq in En. rewrite mkdirCommonAllLoop_cut by assumption.
  pose proof (components_cut _ En) as Hcut. pose proof (tailName_shorter _ En).
  destruct (String.eqb (headComp rem) "") eqn:Eh; cbn [negb mbind Exec_bind].
  - cbn [app] in Hcut. rewrite Hcut in *. apply IH; auto. lia.
  - cbn [app] in Hcut. rewrite Hcut in *.
    inversion Hok as [|? ? Hx Hok']; subst.
    unfold validateNameComp. rewrite Hx. cbn [mbind Exec_bind].
    specialize (Hl _ _ eq_refl).
    destruct (dirAppend_returns fs n _ (newDirNode perm (headComp rem)) Hl)
      as (fs1 & childN & Hda).
    rewrite Hda. cbn [mbind Exec_bind].
    destruct (dirAppend_extends _ _ _ _ _ Hda) as (Hx1 & HcN & Hlen1 & Hch).
    assert (Hstep : stepPlain fs1 n (headComp rem) = Some childN).
    { apply (dirAppend_step fs n (newDirNode perm (headComp rem)) fs1 childN Hda);
        [exact Hl | reflexivity|].
      unfold IsSymlink. cbn [newDirNode mode].
      now rewrite (no_type_bits_symlink perm Hp). }
    destruct (IH fs1 childN (tailName rem)) as (fs' & final & Hr & Hx2 & Hlen2 & Hw & Hfd);
      auto; try lia.
    { intros c rest _. eapply newDirNode_lacksChild. exact Hch. }
    { unfold isDirAt, IsDir. rewrite Hch. now rewrite newDirNode_dir. }
    exists fs', final. split; [assumption|]. split; [eapply extends_trans; eassumption|].
    split; [cbn [length]; lia|]. split; [|assumption].
    cbn [walkPlain]. rewrite (extends_stepPlain _ _ _ _ _ Hx2 Hstep). exact Hw.
Qed.

(** Whatever the loop of [mkdirCommonAll] does, it only adds to the
    store. *)
Lemma mkdirCommonAllLoop_preserves (fuel : nat) (perm : Z) :
  Z.land perm ModeType = 0%Z ->
  forall fs (n : loc) (rem : string) fs',
    mkdirCommonAllLoop fuel fs n rem perm = Ret fs' ->
    extends fs fs' /\ (wfStore fs = true -> wfStore fs' = true).
Proof.
  intros Hp. induction fuel as [|fuel IH]; intros fs n rem fs'.
  { cbn [mkdirCommonAllLoop]. destruct (String.eqb rem ""); [|discriminate].
    intros [= <-]. split; [apply extends_refl | auto]. }
  destruct (String.eqb rem "") eqn:En.
  { cbn [mkdirCommonAllLoop]. rewrite En. intros [= <-].
    split; [apply extends_refl | auto]. }
  apply String.eqb_neq in En. rewrite mkdirCommonAllLoop_cut by assumption.
  destruct (String.eqb (headComp rem) ""); cbn [negb mbind Exec_bind].
  - apply IH.
  - exec_case (validateNameComp (headComp rem)).
    exec_case (dirAppend fs n (newDirNode perm (headComp rem))).
    destruct a0 as [fs1 childN]. intros Hr. apply IH in Hr. destruct Hr as [Hx2 Hw2].
    destruct (dirAppend_extends _ _ _ _ _ E0) as (Hx1 & _).
    split; [eapply extends_trans; eassumption|].
    intros Hwf. apply Hw2. eapply dirAppend_wf; eassumption.
Qed.

Lemma mkdirCommon_preserves fs (name : string) (perm : Z) (all : bool) fs'
    (e : option error) :
  mkdirCommon fs name perm all = Ret (fs', e) ->
  extends fs fs' /\ (wfStore fs = true -> wfStore fs' = true)
  /\ (e <> None -> fs' = fs).
Proof.
  unfold mkdirCommon. destruct (Z.land perm ModeType =? 0)%Z eqn:Ep; cbn [negb].
  2:{ intros [= <- <-]. split; [apply extends_refl | auto]. }
  apply Z.eqb_eq in Ep.
  exec_case (find fs name false true). destruct a as [[n nameRem] e0].
  destruct (negb (isNil e0) && negb (IsNotExist e0)).
  { intros [= <- <-]. split; [apply extends_refl | auto]. }
  destruct all; cbn [negb].
  - destruct n as [n|]; [|discriminate]. exec_case (deref fs n).
    destruct (negb (IsDir (mode a))).
    { intros [= <- <-]. split; [apply extends_refl | auto]. }
    unfold mkdirCommonAll.
    match goal with |- context [mkdirCommonAllLoop ?f ?a ?b ?c ?d] =>
      exec_case (mkdirCommonAllLoop f a b c d) end.
    intros [= <- <-]. apply (mkdirCommonAllLoop_preserves _ _ Ep) in E1.
    destruct E1 as [Hx Hw]. split; [assumption|]. split; [assumption | congruence].
  - destruct (0 <=? IndexByte nameRem slash)%Z.
    { intros [= <- <-]. split; [apply extends_refl | auto]. }
    destruct (String.eqb nameRem "").
    { intros [= <- <-]. split; [apply extends_refl | auto]. }
    destruct n as [n|]; [|discriminate].
    exec_case (dirAppend fs n (newDirNode perm nameRem)). destruct a as [fs1 childN].
    intros [= <- <-]. destruct (dirAppend_extends _ _ _ _ _ E0) as (Hx & _).
    split; [assumption|]. split; [|congruence].
    intros Hwf. eapply dirAppend_wf; eassumption.
Qed.

Lemma walkStart_extends_abs fs fs' (name : string) (start : loc) :
  isAbs name = true -> extends fs fs' ->
  walkStart fs name = Some start -> walkStart fs' name = Some start.
Proof.
  intros Ha Hx. unfold walkStart. rewrite Ha.
  destruct (deref fs (root fs)) as [rootN| |] eqn:Er; try discriminate.
  destruct (extends_deref _ _ _ _ Hx Er) as (rootN' & Hr' & (He & _)).
  destruct Hx as (_ & _ & Hroot & _). rewrite Hroot, Hr', He.
  destruct (err rootN); [discriminate | auto].
Qed.

(** On a path that exists, [find] reaches its node with nothing left of the
    name. *)
Lemma find_plain fs (name : string) (rl an : bool) (start final : loc) :
  walkStart fs name = Some start ->
  allOk (components name) ->
  walkPlain fs start (components name) = Some final ->
  find fs name rl an = Ret (Some final, "", None).
Proof.
  intros Hs Hok Hw. rewrite (find_from_start _ _ _ _ _ Hs).
  rewrite <- components_walkName in Hok, Hw.
  now apply findLoop_plain; [apply budget_exceeds_len | |].
Qed.

Lemma mkdirCommon_existing fs (name : string) (perm : Z) (all : bool)
    (start final : loc) :
  Z.land perm ModeType = 0%Z ->
  walkStart fs name = Some start ->
  allOk (components name) ->
  walkPlain fs start (components name) = Some final ->
  mkdirCommon fs name perm all
  = if all then
      (if isDirAt fs final then Ret (fs, None) else
         match deref fs final with
         | Ret _ => Ret (fs, Some ENOTDIR)
         | Panic => Panic
         | OutOfFuel => OutOfFuel
         end)
    else Ret (fs, Some ErrExist).
Proof.
  intros Hp Hs Hok Hw. unfold mkdirCommon. apply Z.eqb_eq in Hp. rewrite Hp.
  cbn [negb]. rewrite (find_plain _ _ _ _ _ _ Hs Hok Hw).
  cbn [mbind Exec_bind isNil IsNotExist negb andb]. destruct all; cbn [negb].
  - unfold isDirAt. destruct (deref fs final) as [nd| |]; cbn [mbind Exec_bind];
      try reflexivity.
    destruct (IsDir (mode nd)); reflexivity.
  - reflexivity.
Qed.

End MkdirLoop.

Section MkdirTheorems.
Import FileMode Fs.
Context `{NameValidator}.

Lemma lacks_IndexByte_leb (c : string) :
  lacks slash c -> (0 <=? IndexByte c slash)%Z = false.
Proof. unfold lacks. intros ->. reflexivity. Qed.

(** [find] on [dirName/c] with [c] missing in the directory [dirName]. *)
Lemma find_missing_last fs (dirName c : string) (rl : bool) (start m : loc) :
  walkStart fs (dirName ++ "/" ++ c) = Some start ->
  allOk (components dirName) -> okComp c ->
  walkPlain fs start (components dirName) = Some m ->
  lacksChild fs m c ->
  find fs (dirName ++ "/" ++ c) rl true = Ret (Some m, c, Some ErrNotExist).
Proof.
  intros Hs Hok Hc Hw Hl. rewrite (find_from_start _ _ _ _ _ Hs).
  unfold walkName. destruct dirName as [|x d].
  - rewrite str_app_nil_l. change (isAbs ("/" ++ c)) with true. cbn iota.
    change (sliceFrom ("/" ++ c) 1) with c. cbn in Hw. injection Hw as <-.
    destruct Hc as (Hne & Hlc & Hokc).
    apply findLoop_missing_here; auto.
    all: unfold headComp; unfold lacks in Hlc; rewrite Hlc; cbn [Z.ltb Z.compare]; auto.
  - rewrite str_app_cons. cbn [isAbs]. destruct (Ascii.eqb x slash) eqn:Ex.
    + cbn [sliceFrom].
      assert (Hcd : components d = components (String x d)).
      { rewrite <- (components_abs (String x d)); [reflexivity|]. exact Ex. }
      rewrite <- Hcd in Hok, Hw.
      apply findLoop_missing_last; auto. unfold walkBudget. lia.
    + rewrite <- str_app_cons.
      apply findLoop_missing_last; auto. unfold walkBudget. lia.
Qed.

(** X11. [Mkdir] creates nothing where it cannot create exactly one
    directory: on a path that exists (as a file or as a directory) it fails
    with [os.ErrExist], and on a path with more than its last component
    missing it fails with [os.ErrNotExist]; either way the file system is
    as it was. *)
Theorem Mkdir_existing_or_missing_parent (fs : InMemoryFileSystem) (name : string)
    (perm : Z) (start : loc) :
  Z.land perm ModeType = 0%Z ->
  walkStart fs name = Some start ->
  (forall final,
      allOk (components name) ->
      walkPlain fs start (components name) = Some final ->
      Mkdir fs name perm = Ret (fs, Some ErrExist))
  /\ (forall pre c post m,
        components name = (pre ++ c :: post)%list -> post <> [] ->
        allOk (pre ++ [c]) ->
        walkPlain fs start pre = Some m ->
        lacksChild fs m c ->
        Mkdir fs name perm = Ret (fs, Some ErrNotExist)).
Proof.
  intros Hp Hs. split.
  - intros final Hok Hw. unfold Mkdir.
    now rewrite (mkdirCommon_existing _ _ _ _ _ _ Hp Hs Hok Hw).
  - intros pre c post m Hc Hpost Hok Hw Hl. unfold Mkdir, mkdirCommon.
    apply Z.eqb_eq in Hp. rewrite Hp. cbn [negb].
    rewrite (find_from_start _ _ _ _ _ Hs). rewrite <- components_walkName in Hc.
    destruct (findLoop_missing (S (walkBudget fs (walkName name))) fs false start 0
                (walkName name) pre post c m (budget_exceeds_len _ _) Hc Hok Hw Hl)
      as (rem & -> & Hcr & _).
    cbn [mbind Exec_bind isNil IsNotExist negb andb].
    destruct (0 <=? IndexByte rem slash)%Z eqn:Ei; [reflexivity|].
    exfalso. apply Z.leb_gt in Ei.
    assert (Hne : rem <> "") by (intros ->; discriminate).
    rewrite (components_step rem Hne) in Hcr. cbv zeta in Hcr.
    apply Z.ltb_lt in Ei. rewrite Ei in Hcr. injection Hcr as _ Hcr. auto.
Qed.

(** X12. [Mkdir] of [dirName/c], [dirName] existing as a directory that
    holds no child [c]: one node is added to the store, a directory named
    [c] with the permissions asked for and no children, reached by walking
    [dirName] and then [c]; what the file system held before is kept.  For
    an absolute name a second [Mkdir] then fails with [os.ErrExist]. *)
Theorem Mkdir_creates (fs : InMemoryFileSystem) (dirName c : string) (perm : Z)
    (start m : loc) :
  Z.land perm ModeType = 0%Z ->
  walkStart fs (dirName ++ "/" ++ c) = Some start ->
  allOk (components dirName) -> okComp c ->
  walkPlain fs start (components dirName) = Some m ->
  lacksChild fs m c ->
  exists fs',
    Mkdir fs (dirName ++ "/" ++ c) perm = Ret (fs', None)
    /\ extends fs fs'
    /\ length (store fs') = S (length (store fs))
    /\ deref fs' (length (store fs)) = Ret (newDirNode perm c)
    /\ walkPlain fs' start (components dirName ++ [c]) = Some (length (store fs))
    /\ (isAbs (dirName ++ "/" ++ c) = true ->
        Mkdir fs' (dirName ++ "/" ++ c) perm = Ret (fs', Some ErrExist)).
Proof.
  intros Hp Hs Hok Hc Hw Hl. unfold Mkdir at 1. unfold mkdirCommon.
  pose proof Hp as Hp'. apply Z.eqb_eq in Hp'. rewrite Hp'. cbn [negb].
  rewrite (find_missing_last _ _ _ _ _ _ Hs Hok Hc Hw Hl).
  cbn [mbind Exec_bind isNil IsNotExist negb andb].
  destruct Hc as (Hne & Hlc & Hokc).
  rewrite (lacks_IndexByte_leb c Hlc). apply String.eqb_neq in Hne. rewrite Hne.
  apply String.eqb_neq in Hne.
  destruct (dirAppend_returns fs m c (newDirNode perm c) Hl) as (fs1 & childN & Hda).
  rewrite Hda. cbn [mbind Exec_bind].
  destruct (dirAppend_extends _ _ _ _ _ Hda) as (Hx & HcN & Hlen & Hch).
  assert (Hstep : stepPlain fs1 m c = Some childN).
  { apply (dirAppend_step fs m (newDirNode perm c) fs1 childN Hda);
      [exact Hl | reflexivity|].
    unfold IsSymlink. cbn [newDirNode mode]. now rewrite (no_type_bits_symlink perm Hp). }
  assert (Hwalk : walkPlain fs1 start (components dirName ++ [c]) = Some childN).
  { eapply walkPlain_snoc; [|exact Hstep]. now apply (extends_walkPlain fs). }
  subst childN. exists fs1. repeat split; auto.
  - now destruct Hx.
  - now destruct Hx.
  - now destruct Hx.
  - now destruct Hx as (_ & _ & _ & ? & _).
  - now destruct Hx as (_ & _ & _ & _ & ?).
  - intros Habs. unfold Mkdir.
    rewrite (mkdirCommon_existing fs1 _ perm false start (length (store fs)) Hp);
      auto.
    + now apply (walkStart_extends_abs fs).
    + rewrite components_snoc by assumption.
      apply Forall_app. split; [assumption | now constructor].
    + now rewrite components_snoc.
Qed.

(** [MkdirAll] up to and from a missing component. *)
Lemma mkdirCommon_all_creates (fs : InMemoryFileSystem) (name : string) (perm : Z)
    (start m : loc) (pre post : list string) (c : string) :
  Z.land perm ModeType = 0%Z ->
  walkStart fs name = Some start ->
  allOk (components name) ->
  components name = (pre ++ c :: post)%list ->
  walkPlain fs start pre = Some m ->
  lacksChild fs m c ->
  exists fs' final,
    MkdirAll fs name perm = Ret (fs', None)
    /\ extends fs fs'
    /\ length (store fs') = (length (store fs) + S (length post))%nat
    /\ walkDirs fs' start (components name) = Some final
    /\ (isAbs name = true -> MkdirAll fs' name perm = Ret (fs', None)).
Proof.
  intros Hp Hs Hok Hc Hw Hl. unfold MkdirAll at 1. unfold mkdirCommon.
  pose proof Hp as Hp'. apply Z.eqb_eq in Hp'. rewrite Hp'. cbn [negb].
  rewrite (find_from_start _ _ _ _ _ Hs).
  assert (Hokpre : allOk (pre ++ [c]) /\ allOk (c :: post)).
  { rewrite Hc in Hok. unfold allOk in *. apply Forall_app in Hok as [H1 H2].
    split; [|assumption]. apply Forall_app. split; [assumption|].
    inversion H2; subst. now constructor. }
  destruct Hokpre as [Hokpre Hokrest].
  pose proof Hc as Hc'. rewrite <- components_walkName in Hc'.
  destruct (findLoop_missing (S (walkBudget fs (walkName name))) fs false start 0
              (walkName name) pre post c m (budget_exceeds_len _ _) Hc' Hokpre Hw Hl)
    as (rem & -> & Hcr & _).
  cbn [mbind Exec_bind isNil IsNotExist negb andb].
  pose proof (lacksChild_isDirAt _ _ _ Hl) as Hdm.
  destruct (isDirAt_inv _ _ Hdm) as (nd & Hn & Hd). rewrite Hn.
  cbn [mbind Exec_bind]. rewrite Hd. cbn [negb]. unfold mkdirCommonAll.
  destruct (mkdirCommonAllLoop_creates (len rem) perm Hp fs m rem)
    as (fs' & final & Hr & Hx & Hlen & Hwr & Hfd); auto.
  { now rewrite Hcr. }
  { rewrite Hcr. now intros c0 rest [= <- _]. }
  rewrite Hr. cbn [mbind Exec_bind]. rewrite Hcr in Hlen, Hwr.
  assert (Hwd : walkDirs fs' start (components name) = Some final).
  { unfold walkDirs. rewrite Hc, walkPlain_app.
    rewrite (extends_walkPlain _ _ _ _ _ Hx Hw), Hwr, Hfd. reflexivity. }
  exists fs', final. repeat split; auto.
  - now destruct Hx.
  - now destruct Hx.
  - now destruct Hx.
  - now destruct Hx as (_ & _ & _ & ? & _).
  - now destruct Hx as (_ & _ & _ & _ & ?).
  - intros Habs. unfold MkdirAll. unfold walkDirs in Hwd.
    destruct (walkPlain fs' start (components name)) as [l|] eqn:Ew; [|discriminate].
    destruct (isDirAt fs' l) eqn:Ed; [|discriminate].
    rewrite (mkdirCommon_existing fs' _ perm true start l Hp); auto.
    + now rewrite Ed.
    + now apply (walkStart_extends_abs fs).
Qed.

(** X13. [MkdirAll] on a path whose components exist as directories up to
    a first missing one: it succeeds, adds exactly one node for the missing
    component and for each one after it, keeps what the file system held
    before, and afterwards every component of the path exists as a
    directory.  For an absolute name a second [MkdirAll] then succeeds
    without changing anything. *)
Theorem MkdirAll_creates (fs : InMemoryFileSystem) (name : string) (perm : Z)
    (start m : loc) (pre post : list string) (c : string) :
  Z.land perm ModeType = 0%Z ->
  walkStart fs name = Some start ->
  allOk (components name) ->
  components name = (pre ++ c :: post)%list ->
  walkPlain fs start pre = Some m ->
  lacksChild fs m c ->
  exists fs' final,
    MkdirAll fs name perm = Ret (fs', None)
    /\ extends fs fs'
    /\ length (store fs') = (length (store fs) + S (length post))%nat
    /\ walkDirs fs' start (components name) = Some final
    /\ (isAbs name = true -> MkdirAll fs' name perm = Ret (fs', None)).
Proof. intros. eapply mkdirCommon_all_creates; eassumption. Qed.

(** X14. [Mkdir] and [MkdirAll] only add to the store: every node keeps its
    error, mode and name, a file or link its bytes, a directory its
    children in their order (new ones are appended); the working directory,
    the root and the injected [Abs] error stay; a well-formed store stays
    well-formed; and a call that returns an error has changed nothing. *)
Theorem Mkdir_MkdirAll_only_add (fs fs' : InMemoryFileSystem) (name : string)
    (perm : Z) (e : option error) :
  Mkdir fs name perm = Ret (fs', e) \/ MkdirAll fs name perm = Ret (fs', e) ->
  extends fs fs'
  /\ (wfStore fs = true -> wfStore fs' = true)
  /\ (e <> None -> fs' = fs).
Proof. intros [Hm|Hm]; exact (mkdirCommon_preserves _ _ _ _ _ _ Hm). Qed.

(** X15. [resolveBindVolumeHostPath] changes the file system only by
    adding directories: whatever it returns, the nodes that were there are
    kept (error, mode, name, bytes, and children with new ones appended),
    and a well-formed store stays well-formed. *)
Theorem resolveBindVolumeHostPath_only_adds (fs fs' : InMemoryFileSystem)
    (name r : string) (e : option error) :
  Resolver.resolveBindVolumeHostPath fs name = Ret (fs', r, e) ->
  extends fs fs' /\ (wfStore fs = true -> wfStore fs' = true).
Proof.
  assert (Hparts : forall sep parts result fs' r e,
             Resolver.walkParts fs sep parts result = Ret (fs', r, e) ->
             extends fs fs' /\ (wfStore fs = true -> wfStore fs' = true)).
  { intros sep parts. induction parts as [|part rest IH]; intros result fs1 r1 e1;
      cbn [Resolver.walkParts].
    - intros [= <- _ _]. split; [apply extends_refl | auto].
    - exec_case (EvalSymlinks fs (result ++ sep ++ part)).
      destruct a as [resultResolved e0]. destruct (IsNotExist e0).
      + match goal with |- context [MkdirAll ?a ?b ?c] =>
          exec_case (MkdirAll a b c) end.
        destruct a as [fs2 e2]. intros [= <- _ _].
        destruct (mkdirCommon_preserves _ _ _ _ _ _ E0) as (Hx & Hw & _). auto.
      + destruct e0 as [e0|].
        * intros [= <- _ _]. split; [apply extends_refl | auto].
        * apply IH. }
  unfold Resolver.resolveBindVolumeHostPath.
  exec_case (@filepath.Abs (Vfs.paths fs) name). destruct a as [e0|name'].
  - intros [= <- _ _]. split; [apply extends_refl | auto].
  - apply Hparts.
Qed.

End MkdirTheorems.

Lemma Mkdir_existing_or_missing_parent_witness :
  @Fs.Mkdir Scenario.specValidator Scenario.vfs "/dir/file1" 493%Z
  = Ret (Scenario.vfs, Some ErrExist)
  /\ @Fs.Mkdir Scenario.specValidator Scenario.vfs "/dir/a/b" 493%Z
     = Ret (Scenario.vfs, Some ErrNotExist).
Proof.
  split.
  - refine (proj1 (@Mkdir_existing_or_missing_parent Scenario.specValidator
                     Scenario.vfs "/dir/file1" 493%Z 0%nat eq_refl eq_refl)
              4%nat _ eq_refl).
    repeat constructor.
  - refine (proj2 (@Mkdir_existing_or_missing_parent Scenario.specValidator
                     Scenario.vfs "/dir/a/b" 493%Z 0%nat eq_refl eq_refl)
              ["dir"] "a" ["b"] 3%nat eq_refl _ _ eq_refl _).
    + discriminate.
    + repeat constructor.
    + exists (Scenario.dirNode "dir" [4; 5]%nat). repeat split; reflexivity.
Defined.

Lemma Mkdir_creates_witness :
  exists fs',
    @Fs.Mkdir Scenario.specValidator Scenario.vfs "/dir/new" 493%Z = Ret (fs', None)
    /\ length (Fs.store fs') = 12%nat
    /\ Fs.walkPlain fs' 0%nat ["dir"; "new"] = Some 11%nat.
Proof.
  destruct (@Mkdir_creates Scenario.specValidator Scenario.vfs "/dir" "new" 493%Z
              0%nat 3%nat eq_refl eq_refl)
    as (fs' & Hm & _ & Hlen & _ & Hw & _).
  - repeat constructor.
  - split; [discriminate | split; reflexivity].
  - reflexivity.
  - exists (Scenario.dirNode "dir" [4; 5]%nat). repeat split; reflexivity.
  - exists fs'. split; [exact Hm|]. split; [exact Hlen | exact Hw].
Defined.

Lemma MkdirAll_creates_witness :
  exists fs' final,
    @Fs.MkdirAll Scenario.specValidator Scenario.emptyFs "/dir1/dir1_1" 511%Z
    = Ret (fs', None)
    /\ length (Fs.store fs') = 3%nat
    /\ Fs.walkDirs fs' 0%nat ["dir1"; "dir1_1"] = Some final.
Proof.
  destruct (@MkdirAll_creates Scenario.specValidator Scenario.emptyFs "/dir1/dir1_1"
              511%Z 0%nat 0%nat [] ["dir1_1"] "dir1" eq_refl eq_refl)
    as (fs' & final & Hm & _ & Hlen & Hw & _).
  - repeat constructor.
  - reflexivity.
  - reflexivity.
  - exists (Scenario.dirNode "/" []). repeat split; reflexivity.
  - exists fs', final. split; [exact Hm|]. split; [exact Hlen | exact Hw].
Defined.

Lemma Mkdir_MkdirAll_only_add_witness :
  exists fs',
    @Fs.MkdirAll Scenario.specValidator Scenario.vfs "/dir3/symlink/a/b" 493%Z
    = Ret (fs', None)
    /\ Fs.wfStore fs' = true.
Proof.
  eexists. split; [vm_compute; reflexivity|].
  refine (proj1 (proj2 (@Mkdir_MkdirAll_only_add Scenario.specValidator Scenario.vfs _
                          "/dir3/symlink/a/b" 493%Z None (or_intror _))) eq_refl).
  vm_compute. reflexivity.
Defined.

Lemma resolveBindVolumeHostPath_only_adds_witness :
  exists fs',
    @Resolver.resolveBindVolumeHostPath Scenario.specValidator Scenario.vfs
       "/dir3/symlink/a/b"
    = Ret (fs', "//dir2/a/b", None)
    /\ Fs.wfStore fs' = true.
Proof.
  eexists. split; [vm_compute; reflexivity|].
  refine (proj2 (@resolveBindVolumeHostPath_only_adds Scenario.specValidator
                   Scenario.vfs _ "/dir3/symlink/a/b" "//dir2/a/b" None _) eq_refl).
  vm_compute. reflexivity.
Defined.

(** ** Errors of the build stream *)

Section BuildStreamErrors.
Import Docker Build.
Context `{DigestRegexp}.

Lemma decodeLoop_error (msgs : list JSONMessage) (e : error) (rest : Decoder)
    (r : buildVolumeInitImageResult) :
  e <> EOF -> decodeLoop (streamOf msgs ++ inl e :: rest)%list r = inl e.
Proof.
  intros He. revert r. induction msgs as [|m msgs IH]; intros r.
  - cbn [streamOf map app decodeLoop]. destruct e; try reflexivity. congruence.
  - cbn [streamOf map app decodeLoop]. fold (streamOf msgs).
    destruct (FindStringIndex (Stream m)) as [[lo hi]|]; apply IH.
Qed.

Lemma decodeLoop_isDirSlice (decoder : Decoder) (r r' : buildVolumeInitImageResult) :
  decodeLoop decoder r = inr r' -> isDirSlice r' = isDirSlice r.
Proof.
  revert r. induction decoder as [|[e|m] decoder IH]; intros r; cbn [decodeLoop].
  - now intros [= <-].
  - destruct e; try discriminate. now intros [= <-].
  - destruct (FindStringIndex (Stream m)) as [[lo hi]|]; intros Hr;
      apply IH in Hr; exact Hr.
Qed.

(** X16. A [Decode] error other than [io.EOF] makes [buildVolumeInitImage]
    fail with that error, whatever identifiers the messages before it held
    and whatever follows; and a result that is returned carries the flags
    the build context left in [isDirSlice] and an identifier that is not
    empty. *)
Theorem buildVolumeInitImage_decode_error (dirs : list bool) :
  (forall (msgs : list JSONMessage) (e : error) (rest : Decoder),
      e <> EOF ->
      buildVolumeInitImage (inr dirs) (inr (streamOf msgs ++ inl e :: rest)%list)
      = inl e)
  /\ (forall (decoder : Decoder) (r : buildVolumeInitImageResult),
        buildVolumeInitImage (inr dirs) (inr decoder) = inr r ->
        isDirSlice r = dirs /\ imageID r <> "").
Proof.
  split.
  - intros msgs e rest He. unfold buildVolumeInitImage.
    now rewrite decodeLoop_error.
  - intros decoder r. unfold buildVolumeInitImage.
    destruct (decodeLoop decoder _) as [e|r'] eqn:Ed; [discriminate|].
    destruct (String.eqb (imageID r') "") eqn:Ei; [discriminate|].
    intros [= <-]. apply decodeLoop_isDirSlice in Ed. cbn [isDirSlice] in Ed.
    split; [assumption | now apply String.eqb_neq].
Qed.

End BuildStreamErrors.

Lemma buildVolumeInitImage_decode_error_witness :
  @Build.buildVolumeInitImage Docker.specDigestRegexp (inr [true])
     (inr (Build.streamOf Build.twoDigests ++ [inl Scenario.errTest])%list)
  = inl Scenario.errTest.
Proof.
  apply (proj1 (@buildVolumeInitImage_decode_error Docker.specDigestRegexp [true])
           Build.twoDigests Scenario.errTest []).
  discriminate.
Defined.

(** ** A root that ends in the separator *)

Section SlashRoot.
Import FileMode tar Up.
Context {W : Type} `{Writer W} `{os.Host} `{filepath.Ops}.

(** X17. When the path of the bind root is the separator alone (the root
    directory [/]), [isFileWithinBindHostRoot] accepts a target without
    volume only if it is the root itself or begins with two separators:
    no cleaned path below the root counts as within it. *)
Theorem isFileWithinBindHostRoot_separator_root
    (h : bindMountHostFileToTarHelper W) (target : string) :
  filepath.VolumeName target = "" ->
  rootHostFileVol h = "" ->
  rootHostFileWithoutVol h = String filepath.Separator "" ->
  (isFileWithinBindHostRoot h target = true
   <-> target = String filepath.Separator ""
       \/ HasPrefix target (String filepath.Separator (String filepath.Separator "")) = true).
Proof.
  intros Hv Hrv Hr. rewrite isFileWithinBindHostRoot_spec, Hv, Hrv, Hr.
  cbn [len String.length sliceFrom]. split.
  - intros [_ [Ht|[rest Ht]]]; [now left | right].
    rewrite Ht. exact (HasPrefix_app (String filepath.Separator
                                        (String filepath.Separator "")) rest).
  - intros [Ht|Hp]; (split; [reflexivity|]); [now left | right].
    destruct (HasPrefix_inv _ _ Hp) as [t ->]. exists t. reflexivity.
Qed.

End SlashRoot.

Lemma isFileWithinBindHostRoot_separator_root_witness :
  @Up.isFileWithinBindHostRoot Scenario.mockTarWriter (Unix.ops "/")
     (@Up.newHelper Scenario.mockTarWriter (Unix.ops "/") [] "/" "data1") "/etc" = true
  <-> "/etc" = "/" \/ HasPrefix "/etc" "//" = true.
Proof.
  apply (@isFileWithinBindHostRoot_separator_root Scenario.mockTarWriter
           (Unix.ops "/")
           (@Up.newHelper Scenario.mockTarWriter (Unix.ops "/") [] "/" "data1") "/etc");
    reflexivity.
Defined.

(** ** What [resolveBindVolumeHostPath] returns and creates *)

Section ResolverProofs.
Import FileMode Fs Resolver.
Context `{NameValidator}.

Lemma splitAcc_app_sep (sep : ascii) (a b acc : string) :
  splitAcc sep (a ++ String sep b) acc = (splitAcc sep a acc ++ splitAcc sep b "")%list.
Proof.
  revert acc. induction a as [|x a IH]; intros acc.
  - rewrite str_app_nil_l. cbn [splitAcc]. now rewrite Ascii.eqb_refl.
  - rewrite str_app_cons. cbn [splitAcc]. destruct (Ascii.eqb x sep).
    + now rewrite IH.
    + apply IH.
Qed.

Lemma components_app_slash (a b : string) :
  components (a ++ "/" ++ b) = (components a ++ components b)%list.
Proof.
  unfold components, Split. change ("/" ++ b) with (String slash b).
  now rewrite splitAcc_app_sep, List.filter_app.
Qed.














End ResolverProofs.



(** ** Following one link *)

Section EvalSymlinksLink.
Import FileMode Fs.
Context `{NameValidator}.

(** Over existing components that are no links the loop reaches the node
    they lead to, with the name from the next component on still to walk. *)
Lemma run_descend fs (post : list string) (c : string) (m : loc) (N : nat) :
  forall (pre : list string) (h : evalSymlinksHelper),
    (len (nameRem h) <= N)%nat ->
    components (nameRem h) = (pre ++ c :: post)%list ->
    allOk pre ->
    walkPlain fs (n h) pre = Some m ->
    exists (k : nat) (rem : string),
      (k + len rem <= len (nameRem h))%nat /\ rem <> ""
      /\ headComp rem = c /\ components (tailName rem) = post
      /\ forall f, run (k + f) fs h
                   = run f fs {| n := m; links := links h;
                                 resolved := appendComps (resolved h) pre;
                                 nameRem := rem |}.
Proof.
  induction N as [|N IH]; intros pre h HN Hc Hok Hw.
  { assert (Hz : nameRem h = "") by (apply len_zero; lia). rewrite Hz in Hc.
    cbn in Hc. now destruct pre. }
  destruct (String.eqb (nameRem h) "") eqn:En.
  { apply String.eqb_eq in En. rewrite En in Hc. cbn in Hc. now destruct pre. }
  pose proof En as En'. apply String.eqb_neq in En.
  rewrite (components_cut _ En) in Hc. pose proof (tailName_shorter _ En).
  destruct (String.eqb (headComp (nameRem h)) "") eqn:Eh.
  - apply String.eqb_eq in Eh. cbn [app] in Hc.
    destruct (IH pre {| n := n h; links := links h; resolved := resolved h;
                        nameRem := tailName (nameRem h) |})
      as (k & rem & Hk & Hne & Hh & Ht & Hrun); cbn [nameRem n links resolved];
      auto; try lia.
    exists (S k), rem. split; [cbn [nameRem] in Hk; lia|]. do 3 (split; [assumption|]).
    intros f. cbn [Nat.add run]. rewrite En', (runBody_skip _ _ Eh).
    cbn [mbind Exec_bind]. apply Hrun.
  - apply String.eqb_neq in Eh. cbn [app] in Hc.
    destruct pre as [|x pre]; cbn [app] in Hc; injection Hc as Hhead Htail.
    + cbn [walkPlain] in Hw. injection Hw as <-.
      exists 0%nat, (nameRem h). split; [cbn; lia|]. do 3 (split; [assumption|]).
      intros f. cbn [Nat.add appendComps fold_left]. now destruct h.
    + inversion Hok as [|? ? Hx Hok']; subst. cbn [walkPlain] in Hw.
      destruct (stepPlain fs (n h) (headComp (nameRem h))) as [l'|] eqn:Es;
        [|discriminate].
      destruct (IH pre {| n := l'; links := links h;
                          resolved := resolved h ++ "/" ++ headComp (nameRem h);
                          nameRem := tailName (nameRem h) |})
        as (k & rem & Hk & Hne & Hh & Ht & Hrun); cbn [nameRem n links resolved];
        auto; try lia.
      exists (S k), rem. split; [cbn [nameRem] in Hk; lia|]. do 3 (split; [assumption|]).
      intros f. cbn [Nat.add run]. rewrite En', (runBody_step _ _ _ Eh Hx Es).
      cbn [mbind Exec_bind]. apply Hrun.
Qed.

(** One pass of the loop over a component that names a link. *)
Lemma runBody_link fs h (target : string) :
  headComp (nameRem h) <> "" ->
  nameCompOk (headComp (nameRem h)) = true ->
  linkAt fs (n h) (headComp (nameRem h)) target ->
  (0 <= links h < 255)%Z ->
  runBody fs h
  = Ret (inl {| n := if targetIsAbs target then root fs else n h;
                links := links h + 1;
                resolved := if targetIsAbs target then "/" else resolved h;
                nameRem := sliceFrom target (if targetIsAbs target then 1 else 0)
                             ++ (if String.eqb (tailName (nameRem h)) "" then ""
                                 else "/" ++ tailName (nameRem h)) |}).
Proof.
  intros Hne Hok (nd & l & child & Hn & Hd & Hlk & Hch & He & Hsy & Hx) Hl.
  unfold runBody. rewrite getNameComp_head, updateNameRem_tail.
  apply String.eqb_neq in Hne. rewrite Hne. cbn [negb].
  unfold validateNameComp. rewrite Hok. cbn [mbind Exec_bind].
  rewrite Hn. cbn [mbind Exec_bind]. rewrite Hd, Hlk. cbn [mbind Exec_bind].
  rewrite Hch. cbn [mbind Exec_bind]. rewrite He.
  rewrite (updateFromChildN_substitutes fs _ l child target _ Hch Hsy Hx)
    by (cbn [links]; lia).
  reflexivity.
Qed.

Lemma linkAt_target_bound fs (m : loc) (c target : string) :
  linkAt fs m c target -> (len target <= maxTarget fs)%nat.
Proof.
  intros (nd & l & child & _ & _ & _ & Hch & _ & _ & Hx).
  apply deref_Ret in Hch. pose proof (maxTarget_bound fs _ _ Hch) as Hb.
  unfold targetLen in Hb. now rewrite Hx in Hb.
Qed.

Lemma components_nonempty (s c : string) : In c (components s) -> c <> "".
Proof.
  unfold components. intros Hin. apply List.filter_In in Hin as [_ Hne].
  unfold nonEmpty in Hne. apply negb_true_iff in Hne. now apply String.eqb_neq.
Qed.

Lemma components_target (target : string) :
  components (sliceFrom target (if targetIsAbs target then 1 else 0))
  = components target.
Proof.
  destruct (targetIsAbs target) eqn:E; [|reflexivity].
  apply components_abs. destruct target; [discriminate | exact E].
Qed.

(** [EvalSymlinks] through one link. *)
Lemma EvalSymlinks_link fs (path : string) (start m final : loc)
    (pre post : list string) (c target : string) :
  evalStart fs path = Some start ->
  components path = (pre ++ c :: post)%list ->
  allOk (pre ++ c :: components target ++ post) ->
  walkPlain fs start pre = Some m ->
  linkAt fs m c target ->
  walkPlain fs (if targetIsAbs target then root fs else m)
    (components target ++ post) = Some final ->
  EvalSymlinks fs path
  = Ret (appendComps (if targetIsAbs target then "/"
                      else appendComps (evalBase path) pre)
           (components target ++ post), None).
Proof.
  intros Hs Hc Hok Hw Hlink Hwt. rewrite (EvalSymlinks_from_start _ _ _ Hs).
  rewrite <- components_walkName in Hc.
  unfold allOk in Hok. apply Forall_app in Hok as [Hokpre Hokrest].
  inversion Hokrest as [|? ? Hokc Hoktp]; subst.
  set (h0 := {| n := start; links := 0; resolved := evalBase path;
                nameRem := walkName path |}).
  destruct (run_descend fs post c m (len (walkName path)) pre h0)
    as (k & rem & Hk & Hne & Hh & Ht & Hrun); cbn [nameRem n]; auto.
  cbn [h0 nameRem links resolved] in Hk, Hrun.
  pose proof (linkAt_target_bound _ _ _ _ Hlink) as Hb.
  set (fuel2 := (walkBudget fs (walkName path) - k)%nat).
  assert (Hf : S (walkBudget fs (walkName path)) = (k + S fuel2)%nat).
  { subst fuel2. unfold walkBudget. lia. }
  rewrite Hf, Hrun. cbn [run nameRem].
  apply String.eqb_neq in Hne. rewrite Hne. apply String.eqb_neq in Hne.
  assert (Hhne : headComp rem <> "").
  { rewrite Hh. apply (components_nonempty (walkName path)). rewrite Hc.
    apply in_or_app. right. now left. }
  rewrite (runBody_link fs _ target);
    [| cbn [nameRem]; exact Hhne
     | cbn [nameRem]; rewrite Hh; exact Hokc
     | cbn [nameRem n]; rewrite Hh; exact Hlink
     | cbn [links]; lia ].
  cbn [mbind Exec_bind nameRem n links resolved].
  match goal with |- context [run fuel2 fs ?x] => set (h2 := x) end.
  assert (Hcomps2 : components (nameRem h2) = (components target ++ post)%list).
  { subst h2. cbn [nameRem].
    destruct (String.eqb (tailName rem) "") eqn:Et.
    - apply String.eqb_eq in Et. rewrite Et in Ht. cbn in Ht. subst post.
      now rewrite str_app_nil_r, components_target, app_nil_r.
    - now rewrite components_app_slash, components_target, Ht. }
  assert (Hlen2 : (len (nameRem h2) < fuel2)%nat).
  { subst h2 fuel2. cbn [nameRem]. rewrite len_app, len_sliceFrom.
    pose proof (tailName_shorter _ Hne).
    assert (len (if String.eqb (tailName rem) "" then ""
                 else "/" ++ tailName rem) <= len rem)%nat.
    { destruct (String.eqb (tailName rem) ""); [cbn; lia|].
      rewrite len_app. change (len "/") with 1%nat. lia. }
    unfold walkBudget. lia. }
  rewrite (run_plain fuel2 fs h2 final Hlen2);
    [| rewrite Hcomps2; exact Hoktp | rewrite Hcomps2; subst h2; exact Hwt].
  rewrite Hcomps2. reflexivity.
Qed.

(** X20. [EvalSymlinks] on a path that meets one symbolic link, the
    components before it, those of its target and those after it existing
    and being no links: the result is nil and the path with the link
    replaced by its target.  With a relative target the components of the
    target and the rest follow what was resolved before the link; with an
    absolute target what was resolved before the link is dropped and the
    result starts again at the root. *)
Theorem EvalSymlinks_follows_link (fs : InMemoryFileSystem) (path : string)
    (start m final : loc) (pre post : list string) (c target : string) :
  evalStart fs path = Some start ->
  components path = (pre ++ c :: post)%list ->
  allOk (pre ++ c :: components target ++ post) ->
  walkPlain fs start pre = Some m ->
  linkAt fs m c target ->
  walkPlain fs (if targetIsAbs target then root fs else m)
    (components target ++ post) = Some final ->
  EvalSymlinks fs path
  = Ret (appendComps (if targetIsAbs target then "/"
                      else appendComps (evalBase path) pre)
           (components target ++ post), None).
Proof. intros. eapply EvalSymlinks_link; eassumption. Qed.

End EvalSymlinksLink.

Lemma EvalSymlinks_follows_link_witness :
  @Fs.EvalSymlinks Scenario.specValidator Scenario.vfs "/dir2/symlink"
  = Ret ("//dir2/file", None)
  /\ @Fs.EvalSymlinks Scenario.specValidator Scenario.vfs "/dir3/symlink/file"
     = Ret ("//dir2/file", None).
Proof.
  split.
  - apply (@EvalSymlinks_follows_link Scenario.specValidator Scenario.vfs
             "/dir2/symlink" 0%nat 6%nat 7%nat ["dir2"] [] "symlink" "file");
      try reflexivity.
    + repeat constructor.
    + exists (Scenario.dirNode "dir2" [7; 8]%nat), 8%nat,
        (Scenario.linkNode "symlink" "file").
      repeat split; reflexivity.
  - apply (@EvalSymlinks_follows_link Scenario.specValidator Scenario.vfs
             "/dir3/symlink/file" 0%nat 9%nat 7%nat ["dir3"] ["file"] "symlink" "/dir2");
      try reflexivity.
    + repeat constructor.
    + exists (Scenario.dirNode "dir3" [10]%nat), 10%nat,
        (Scenario.linkNode "symlink" "/dir2").
      repeat split; reflexivity.
Defined.

(** ** The entries of a regular file and of a directory *)

Section MaterializerEntries.
Import FileMode tar Up Scenario.
Context `{os.Host} `{filepath.Ops}.
#[local] Existing Instance mockWriter.

Lemma regular_no_type_bits (m : Z) :
  IsRegular m = true ->
  (Z.land m ModeSymlink =? 0)%Z = true /\ IsDir m = false.
Proof.
  unfold IsRegular, IsDir. intros Hr. apply Z.eqb_eq in Hr.
  assert (Hs : Z.land m ModeSymlink = 0%Z).
  { change ModeSymlink with (Z.land ModeType ModeSymlink).
    now rewrite Z.land_assoc, Hr. }
  assert (Hd : Z.land m ModeDir = 0%Z).
  { change ModeDir with (Z.land ModeType ModeDir).
    now rewrite Z.land_assoc, Hr. }
  now rewrite Hs, Hd.
Qed.

Lemma dir_not_regular (m : Z) : IsDir m = true -> IsRegular m = false.
Proof.
  intros Hd. destruct (IsRegular m) eqn:Hr; [|reflexivity].
  apply regular_no_type_bits in Hr as [_ Hr]. congruence.
Qed.

(** X21. Seen through a writer that records its entries: a regular file
    that [runRecursive] writes without error becomes exactly one entry, of
    type [TypeReg], named [fileNameInTar], with the size [Lstat] reported
    and the bytes read from the opened file as its content; and a directory
    (that is no link) written without error begins with its own header, of
    type [TypeDir] and named [fileNameInTar] and a slash, before anything
    of its content. *)
Theorem runRecursive_entries
    (fuel : nat) (hp hp' : bindMountHostFileToTarHelper mockTarWriter)
    (fileInfo : FileInfo) (hostFile fileNameInTar : string) :
  runRecursive fuel hp fileInfo hostFile fileNameInTar = Ret (hp', None) ->
  (IsRegular (fiMode fileInfo) = true ->
   exists fd content,
     os.Open hostFile = Ret (inr fd) /\ os.ReadAll fd = Ret (content, None)
     /\ tw hp' = (tw hp ++ [ {| Scenario.h := {| Typeflag := TypeReg;
                                                 Name := fileNameInTar;
                                                 Linkname := "";
                                                 Size := fiSize fileInfo |};
                                data := content |} ])%list)
  /\ (IsDir (fiMode fileInfo) = true ->
      (Z.land (fiMode fileInfo) ModeSymlink =? 0)%Z = true ->
      exists content,
        tw hp' = (tw hp ++ directory (fileNameInTar ++ "/") :: content)%list).
Proof.
  destruct fuel as [|fuel]; [discriminate|]. cbn [runRecursive]. intros Hr. split.
  - intros Hreg. destruct (regular_no_type_bits _ Hreg) as [Hs Hd].
    rewrite Hs, Hd, Hreg in Hr. cbn [negb] in Hr. unfold runRegular in Hr.
    unfold FileInfoHeader in Hr. rewrite Hreg in Hr.
    destruct (os.Open hostFile) as [[e0|fd]| |] eqn:Eo; cbn [mbind Exec_bind] in Hr;
      try discriminate.
    rewrite mock_endHeaderCommon in Hr. cbn [mbind Exec_bind] in Hr.
    unfold ioCopy in Hr.
    destruct (os.ReadAll fd) as [[content readErr]| |] eqn:Er;
      cbn [mbind Exec_bind] in Hr; try discriminate.
    cbn [tw withTw Write mockWriter] in Hr. rewrite appendToLast_snoc in Hr.
    cbn [mbind Exec_bind Scenario.h data] in Hr.
    destruct readErr as [e1|]; [discriminate|]. injection Hr as <-.
    exists fd, content. repeat split; auto.
  - intros Hd Hs. rewrite Hs, Hd in Hr. cbn [negb] in Hr.
    unfold runDirectory in Hr.
    destruct (os.Open hostFile) as [[e0|fd]| |]; cbn [mbind Exec_bind] in Hr;
      try discriminate.
    unfold FileInfoHeader in Hr. rewrite (dir_not_regular _ Hd), Hd in Hr.
    rewrite mock_endHeaderCommon in Hr. cbn [mbind Exec_bind] in Hr.
    destruct (os.Readdir fd) as [[e0|entries]| |]; cbn [mbind Exec_bind] in Hr;
      try discriminate.
    apply (mock_rangeEntries (runRecursive fuel)) in Hr.
    + destruct Hr as (added & Ea & _). exists added. rewrite Ea.
      cbn [tw withTw]. rewrite <- app_assoc. reflexivity.
    + intros ? ? ? ? ? ? Hrec. now apply mock_runRecursive in Hrec.
Qed.

End MaterializerEntries.

Lemma runRecursive_entries_witness :
  exists fd content,
    @os.Open (@Vfs.host Scenario.specValidator Scenario.vfs) "orig" = Ret (inr fd)
    /\ @os.ReadAll (@Vfs.host Scenario.specValidator Scenario.vfs) fd
       = Ret (content, None)
    /\ [Scenario.regularFile "renamed" Scenario.testFileContent]
       = ([] ++ [ {| Scenario.h := {| tar.Typeflag := tar.TypeReg;
                                      tar.Name := "renamed"; tar.Linkname := "";
                                      tar.Size := 7 |};
                     Scenario.data := content |} ])%list.
Proof.
  refine (proj1 (@runRecursive_entries
                   (@Vfs.host Scenario.specValidator Scenario.vfs)
                   (@Vfs.paths Scenario.vfs) 100
                   (@Up.newHelper Scenario.mockTarWriter (@Vfs.paths Scenario.vfs) []
                      "orig" "renamed")
                   (@Up.withTw Scenario.mockTarWriter
                      (@Up.newHelper Scenario.mockTarWriter (@Vfs.paths Scenario.vfs) []
                         "orig" "renamed")
                      [Scenario.regularFile "renamed" Scenario.testFileContent] false)
                   (Vfs.fileInfoOf (Scenario.fileNode "orig" Scenario.testFileContent))
                   "orig" "renamed" _) _).
  - vm_compute. reflexivity.
  - reflexivity.
Defined.
